(** * Reference counting of [shared_ptr] / [weak_ptr]

    A shallow embedding of [src/shared_ptr.h] and [src/shared_ptr.cpp]:
    the control block with its two counters, its two variants
    ([cb_separate], [cb_inplace]), the owning pointer [shared_ptr], the
    observer [weak_ptr] and [make_shared].

    C++ objects are mutable and live at addresses, so the embedding keeps
    them in a store: control blocks in [cbs], [shared_ptr] objects in
    [sps], [weak_ptr] objects in [wps].  A member function takes the
    name of [*this] and runs in a small state-and-error monad whose
    outcomes are normal return, a propagating exception, a failed
    [assert], and undefined behaviour (use of an object or a control block
    outside its lifetime).

    What is outside the library:
    - [operator new]: a new-expression either throws or yields a block
      that has never been handed out before;
    - the managed object and the deleter: [delete_object] and the
      clean-up call in the adopting constructor are recorded in a trace.
      In the operations of [exec] the deleter and the destructor of the
      managed object perform no operation on pointers themselves;
      [exec_running] is the same operations with deleters and
      destructors that do;
    - the member templates over a second pointee type [Y] behave as the
      members for [T] they are modelled by; a template assignment, which
      has no self-assignment test, cannot receive [*this].

    [size_t] is 64 bits wide and wraps around.  A program of fewer than
    [SIZE_MAX] operations cannot make a counter wrap, which is what
    [reachable] asks of the programs considered. *)

From stdpp Require Import gmap list fin_maps.

Local Open Scope N_scope.

(** ** Machine integers and addresses *)

(** [size_t] on the LP64 targets the library is built for. *)
Definition size_bits : N := 64.
Definition SIZE_MOD : N := 2 ^ size_bits.
Definition SIZE_MAX : N := SIZE_MOD - 1.

(** [++n] and [--n] on a [size_t]. *)
Definition size_incr (n : N) : N := (n + 1) mod SIZE_MOD.
Definition size_decr (n : N) : N := (n + SIZE_MAX) mod SIZE_MOD.

(** Addresses; [nullptr] is address 0. *)
Abbreviation addr := N (only parsing).
Definition nullptr : addr := 0.

(** ** Data model *)

(** A deleter functor: [std::default_delete<Y>] or a caller-supplied one. *)
Inductive deleter :=
| default_delete
| custom_deleter (id : N).

(** Value category of an argument expression. *)
Inductive value_category := lvalue | rvalue.

(** A constructor argument: the value and the category it is passed with. *)
Definition ctor_arg : Type := N * value_category.

(** The two classes derived from [control_block]. [cb_separate] stores the
    adopted pointer and the deleter; [cb_inplace] embeds the object, which
    is represented by the arguments its constructor received. *)
Inductive cb_variant :=
| cb_separate (ptr : addr) (d : deleter)
| cb_inplace (data : list ctor_arg).

Record control_block := {
  shared_cnt : N;
  weak_cnt : N;
  variant : cb_variant
}.

Record shared_ptr := { sp_ptr : addr; sp_cb : addr }.
Record weak_ptr := { wp_ptr : addr; wp_cb : addr }.

(** What [delete_object] does: call the stored deleter on the stored
    pointer, or run the destructor of the embedded object. *)
Inductive hook :=
| run_deleter (d : deleter) (p : addr)
| run_dtor (p : addr).

Inductive event :=
| EvNew (c : addr) (v : cb_variant)   (* a control block was created at c *)
| EvHook (c : addr) (h : hook)        (* c->delete_object() *)
| EvFree (c : addr)                   (* delete cb *)
| EvCleanup (d : deleter) (p : addr). (* d(ptr) in the catch block *)

Record state := {
  cbs : gmap N control_block;   (* live control blocks *)
  sps : gmap N shared_ptr;      (* live shared_ptr objects *)
  wps : gmap N weak_ptr;        (* live weak_ptr objects *)
  brk : N;                      (* number of control blocks created so far *)
  trace : list event            (* oldest event first *)
}.

Definition init : state :=
  {| cbs := ∅; sps := ∅; wps := ∅; brk := 0; trace := [] |}.

Global Instance deleter_eq_dec : EqDecision deleter.
Proof. solve_decision. Defined.
Global Instance value_category_eq_dec : EqDecision value_category.
Proof. solve_decision. Defined.
Global Instance cb_variant_eq_dec : EqDecision cb_variant.
Proof. solve_decision. Defined.
Global Instance hook_eq_dec : EqDecision hook.
Proof. solve_decision. Defined.
Global Instance event_eq_dec : EqDecision event.
Proof. solve_decision. Defined.

(** ** The monad *)

Inductive outcome (A : Type) :=
| Ret (a : A) (s : state)   (* normal return *)
| Throw (s : state)         (* an exception leaves the call *)
| Abort                     (* an assert failed *)
| Undefined.                (* undefined behaviour *)
Arguments Ret {A} a s.
Arguments Throw {A} s.
Arguments Abort {A}.
Arguments Undefined {A}.

Definition M (A : Type) : Type := state → outcome A.

Definition ret {A} (a : A) : M A := λ s, Ret a s.

Definition bind {A B} (m : M A) (k : A → M B) : M B :=
  λ s, match m s with
       | Ret a s' => k a s'
       | Throw s' => Throw s'
       | Abort => Abort
       | Undefined => Undefined
       end.

Notation "'do' x <- m ; k" := (bind m (λ x, k))
  (at level 10, x name, m at level 100, k at level 200).
Notation "m ;; k" := (bind m (λ _, k))
  (at level 100, k at level 200, right associativity).

Definition throw {A} : M A := λ s, Throw s.

(** [try { m } catch (...) { h }]. *)
Definition try_catch {A} (m : M A) (h : M A) : M A :=
  λ s, match m s with
       | Throw s' => h s'
       | o => o
       end.

Definition assert (b : bool) : M unit :=
  λ s, if b then Ret () s else Abort.

Definition emit (e : event) : M unit :=
  λ s, Ret () {| cbs := cbs s; sps := sps s; wps := wps s; brk := brk s;
                 trace := trace s ++ [e] |}.

(** Access to control blocks through a [control_block*]. *)
Definition load_cb (c : addr) : M control_block :=
  λ s, match cbs s !! c with
       | Some b => Ret b s
       | None => Undefined
       end.

Definition store_cb (c : addr) (b : control_block) : M unit :=
  λ s, Ret () {| cbs := <[c := b]> (cbs s); sps := sps s; wps := wps s;
                 brk := brk s; trace := trace s |}.

(** Access to [shared_ptr] objects. *)
Definition load_sp (x : N) : M shared_ptr :=
  λ s, match sps s !! x with
       | Some p => Ret p s
       | None => Undefined
       end.

(** Assign the fields of a live object. *)
Definition store_sp (x : N) (p : shared_ptr) : M unit :=
  λ s, match sps s !! x with
       | Some _ => Ret () {| cbs := cbs s; sps := <[x := p]> (sps s);
                             wps := wps s; brk := brk s; trace := trace s |}
       | None => Undefined
       end.

(** Member initialisation: the object at [x] starts to exist. *)
Definition init_sp (x : N) (p : shared_ptr) : M unit :=
  λ s, match sps s !! x with
       | Some _ => Undefined
       | None => Ret () {| cbs := cbs s; sps := <[x := p]> (sps s);
                           wps := wps s; brk := brk s; trace := trace s |}
       end.

(** The object at [x] stops to exist. *)
Definition end_sp (x : N) : M unit :=
  λ s, match sps s !! x with
       | Some _ => Ret () {| cbs := cbs s; sps := delete x (sps s);
                             wps := wps s; brk := brk s; trace := trace s |}
       | None => Undefined
       end.

(** The same for [weak_ptr] objects. *)
Definition load_wp (x : N) : M weak_ptr :=
  λ s, match wps s !! x with
       | Some p => Ret p s
       | None => Undefined
       end.

Definition store_wp (x : N) (p : weak_ptr) : M unit :=
  λ s, match wps s !! x with
       | Some _ => Ret () {| cbs := cbs s; sps := sps s;
                             wps := <[x := p]> (wps s);
                             brk := brk s; trace := trace s |}
       | None => Undefined
       end.

Definition init_wp (x : N) (p : weak_ptr) : M unit :=
  λ s, match wps s !! x with
       | Some _ => Undefined
       | None => Ret () {| cbs := cbs s; sps := sps s;
                           wps := <[x := p]> (wps s);
                           brk := brk s; trace := trace s |}
       end.

Definition end_wp (x : N) : M unit :=
  λ s, match wps s !! x with
       | Some _ => Ret () {| cbs := cbs s; sps := sps s;
                             wps := delete x (wps s);
                             brk := brk s; trace := trace s |}
       | None => Undefined
       end.

(** ** [new] and [delete] of control blocks *)

(** Whether a new-expression completes.  It throws when [operator new]
    has no memory or when a constructor it runs throws; the storage is
    then released by the new-expression itself and no control block
    comes to exist. *)
Inductive new_result := new_ok | new_throws.

(** [new cb_...(...)]: the block is built by [control_block()] with both
    counters zero.  Blocks are numbered in creation order from 1, so a
    block's address is never [nullptr] and is never used again. *)
Definition new_cb (v : cb_variant) (r : new_result) : M addr :=
  λ s, match r with
       | new_throws => Throw s
       | new_ok =>
           let c := N.succ (brk s) in
           Ret c {| cbs := <[c := {| shared_cnt := 0; weak_cnt := 0;
                                      variant := v |}]> (cbs s);
                    sps := sps s; wps := wps s; brk := c;
                    trace := trace s ++ [EvNew c v] |}
       end.

(** [delete cb]. *)
Definition delete_cb (c : addr) : M unit :=
  λ s, match cbs s !! c with
       | Some _ => Ret () {| cbs := delete c (cbs s); sps := sps s;
                             wps := wps s; brk := brk s;
                             trace := trace s ++ [EvFree c] |}
       | None => Undefined
       end.

(** ** [control_block] (shared_ptr.cpp) *)

Definition release_shared (c : addr) : M unit :=
  do b <- load_cb c;
  assert (0 <? shared_cnt b) ;;
  store_cb c {| shared_cnt := size_decr (shared_cnt b);
                weak_cnt := weak_cnt b; variant := variant b |}.

Definition release_weak (c : addr) : M unit :=
  do b <- load_cb c;
  assert (0 <? weak_cnt b) ;;
  store_cb c {| shared_cnt := shared_cnt b;
                weak_cnt := size_decr (weak_cnt b); variant := variant b |}.

Definition inc_shared (c : addr) : M unit :=
  do b <- load_cb c;
  store_cb c {| shared_cnt := size_incr (shared_cnt b);
                weak_cnt := weak_cnt b; variant := variant b |}.

Definition inc_weak (c : addr) : M unit :=
  do b <- load_cb c;
  store_cb c {| shared_cnt := shared_cnt b;
                weak_cnt := size_incr (weak_cnt b); variant := variant b |}.

Definition get_shared_cnt (c : addr) : M N :=
  do b <- load_cb c; ret (shared_cnt b).

Definition get_weak_cnt (c : addr) : M N :=
  do b <- load_cb c; ret (weak_cnt b).

(** ** [cb_separate] and [cb_inplace] *)

Section Layout.

(** Offset of the member [data] inside a [cb_inplace<Y>]. *)
Variable data_offset : N.

(** [cb_inplace::get]: the address of the embedded storage. *)
Definition cb_inplace_get (c : addr) : addr := c + data_offset.

(** What [delete_object] of a block with variant [v] at [c] runs. *)
Definition hook_of (c : addr) (v : cb_variant) : hook :=
  match v with
  | cb_separate p d => run_deleter d p
  | cb_inplace _ => run_dtor (cb_inplace_get c)
  end.

(** The virtual [delete_object]; both overrides assert that the shared
    count is zero. *)
Definition delete_object (c : addr) : M unit :=
  do b <- load_cb c;
  do n <- get_shared_cnt c;
  assert (n =? 0) ;;
  emit (EvHook c (hook_of c (variant b))).


(** ** [shared_ptr] *)

(** [shared_ptr()] and [shared_ptr(nullptr_t)]. *)
Definition shared_ptr_default (this : N) : M unit :=
  init_sp this {| sp_ptr := nullptr; sp_cb := nullptr |}.

(** [shared_ptr(Y* ptr, Deleter d)], a function-try-block. *)
Definition shared_ptr_adopt (this : N) (ptr : addr) (d : deleter)
    (r : new_result) : M unit :=
  try_catch
    (do c <- new_cb (cb_separate ptr d) r;
     init_sp this {| sp_ptr := ptr; sp_cb := c |} ;;
     inc_shared c)
    (emit (EvCleanup d ptr) ;; throw).

(** [explicit shared_ptr(Y* ptr)]. *)
Definition shared_ptr_adopt_default (this : N) (ptr : addr)
    (r : new_result) : M unit :=
  shared_ptr_adopt this ptr default_delete r.

(** The aliasing constructor [shared_ptr(const shared_ptr<Y>& r, T* ptr)]. *)
Definition shared_ptr_alias (this r : N) (ptr : addr) : M unit :=
  do rp <- load_sp r;
  init_sp this {| sp_ptr := ptr; sp_cb := sp_cb rp |} ;;
  if decide (sp_cb rp = nullptr) then ret () else inc_shared (sp_cb rp).

(** The copy constructors. *)
Definition shared_ptr_copy (this r : N) : M unit :=
  do rp <- load_sp r;
  shared_ptr_alias this r (sp_ptr rp).

(** The move constructors. *)
Definition shared_ptr_move (this r : N) : M unit :=
  do rp <- load_sp r;
  init_sp this {| sp_ptr := sp_ptr rp; sp_cb := sp_cb rp |} ;;
  store_sp r {| sp_ptr := nullptr; sp_cb := sp_cb rp |} ;;
  store_sp r {| sp_ptr := nullptr; sp_cb := nullptr |}.

(** The private [shared_ptr(Y* ptr, control_block* cb)]. *)
Definition shared_ptr_raw (this : N) (ptr cb : addr) : M unit :=
  init_sp this {| sp_ptr := ptr; sp_cb := cb |}.

(** [~shared_ptr()]. *)
Definition shared_ptr_dtor (this : N) : M unit :=
  do p <- load_sp this;
  (if decide (sp_cb p = nullptr) then ret ()
   else
     let cb := sp_cb p in
     store_sp this {| sp_ptr := nullptr; sp_cb := cb |} ;;
     release_shared cb ;;
     (do n <- get_shared_cnt cb;
      if n =? 0 then delete_object cb else ret ()) ;;
     (do n <- get_shared_cnt cb;
      if n =? 0 then
        do w <- get_weak_cnt cb;
        if w =? 0 then
          delete_cb cb ;;
          store_sp this {| sp_ptr := nullptr; sp_cb := nullptr |}
        else ret ()
      else ret ())) ;;
  end_sp this.

(** [swap(shared_ptr& r)]. *)
Definition shared_ptr_swap (this r : N) : M unit :=
  do a <- load_sp this;
  do b <- load_sp r;
  store_sp this b ;;
  store_sp r a.

(** A temporary in a member function of [*this]: constructed, used and
    destroyed at the end of the full expression.  It lives at an address
    that is neither that of [*this] nor that of a live object. *)
Definition with_temp_sp (this : N) (ctor : N → M unit) (body : N → M unit)
    : M unit :=
  λ s, let tmp := fresh ({[this]} ∪ dom (sps s)) in
       (ctor tmp ;; body tmp ;; shared_ptr_dtor tmp) s.

(** [operator=(const shared_ptr& r)]. *)
Definition shared_ptr_assign (this r : N) : M unit :=
  if decide (this = r) then ret ()
  else with_temp_sp this (λ tmp, shared_ptr_copy tmp r)
                    (λ tmp, shared_ptr_swap tmp this).

(** [operator=(shared_ptr&& r)]. *)
Definition shared_ptr_move_assign (this r : N) : M unit :=
  if decide (this = r) then ret ()
  else with_temp_sp this (λ tmp, shared_ptr_move tmp r)
                    (λ tmp, shared_ptr_swap tmp this).

(** [reset()]. *)
Definition shared_ptr_reset (this : N) : M unit :=
  with_temp_sp this shared_ptr_default (λ tmp, shared_ptr_swap tmp this).

(** [reset(Y* ptr)]. *)
Definition shared_ptr_reset_ptr (this : N) (ptr : addr) (r : new_result)
    : M unit :=
  with_temp_sp this (λ tmp, shared_ptr_adopt_default tmp ptr r)
               (λ tmp, shared_ptr_swap tmp this).

(** [reset(Y* ptr, Deleter d)]. *)
Definition shared_ptr_reset_del (this : N) (ptr : addr) (d : deleter)
    (r : new_result) : M unit :=
  with_temp_sp this (λ tmp, shared_ptr_adopt tmp ptr d r)
               (λ tmp, shared_ptr_swap tmp this).

(** [get()]. *)
Definition shared_ptr_get (this : N) : M addr :=
  do p <- load_sp this; ret (sp_ptr p).

(** [use_count()]. *)
Definition use_count (this : N) : M N :=
  do p <- load_sp this;
  if decide (sp_cb p = nullptr) then ret 0 else get_shared_cnt (sp_cb p).

(** [explicit operator bool()]. *)
Definition operator_bool (this : N) : M bool :=
  do p <- shared_ptr_get this; ret (negb (p =? nullptr)).

(** *** Comparison operators *)

(** [operator==(const shared_ptr<Y>&, const shared_ptr<U>&)]. *)
Definition operator_eq (lhs rhs : N) : M bool :=
  do a <- shared_ptr_get lhs;
  do b <- shared_ptr_get rhs;
  ret (a =? b).

(** [operator!=(const shared_ptr<Y>&, const shared_ptr<U>&)]. *)
Definition operator_ne (lhs rhs : N) : M bool :=
  do a <- shared_ptr_get lhs;
  do b <- shared_ptr_get rhs;
  ret (negb (a =? b)).

(** [operator==(const shared_ptr<Y>&, nullptr_t)] and its mirror image:
    [return !lhs]. *)
Definition operator_eq_nullptr (lhs : N) : M bool :=
  do b <- operator_bool lhs; ret (negb b).

(** [operator!=(const shared_ptr<Y>&, nullptr_t)] and its mirror image:
    [return (bool)lhs]. *)
Definition operator_ne_nullptr (lhs : N) : M bool := operator_bool lhs.

(** ** [make_shared] *)

(** Template argument deduction for a forwarding reference [Args&&]: an
    lvalue argument deduces an lvalue reference type, an rvalue argument
    a non-reference type. *)
Inductive deduced := lvalue_reference | non_reference.

Definition deduce (c : value_category) : deduced :=
  match c with lvalue => lvalue_reference | rvalue => non_reference end.

(** [std::forward<Args>(x)]. *)
Definition std_forward (t : deduced) : value_category :=
  match t with lvalue_reference => lvalue | non_reference => rvalue end.

(** The name of a function parameter, used as an expression. *)
Definition named_parameter (a : ctor_arg) : ctor_arg := (a.1, lvalue).

(** [cb_inplace(Args&&... args)]: [new (&data) Y(std::forward<Args>(args)...)];
    the result is what [Y]'s constructor receives. *)
Definition cb_inplace_ctor (args : list ctor_arg) : list ctor_arg :=
  map (λ a, (a.1, std_forward (deduce a.2))) args.

(** [make_shared<Y>(Args&&... args)], its result constructed at [dst]. *)
Definition make_shared (dst : N) (args : list ctor_arg) (r : new_result)
    : M unit :=
  do p <- new_cb (cb_inplace (cb_inplace_ctor (map named_parameter args))) r;
  inc_shared p ;;
  shared_ptr_raw dst (cb_inplace_get p) p.

(** ** [weak_ptr] *)

(** [weak_ptr()]. *)
Definition weak_ptr_default (this : N) : M unit :=
  init_wp this {| wp_ptr := nullptr; wp_cb := nullptr |}.

(** [weak_ptr(const weak_ptr& r)]. *)
Definition weak_ptr_copy (this r : N) : M unit :=
  do rp <- load_wp r;
  init_wp this {| wp_ptr := wp_ptr rp; wp_cb := wp_cb rp |} ;;
  if decide (wp_cb rp = nullptr) then ret () else inc_weak (wp_cb rp).

(** [weak_ptr(const shared_ptr<Y>& r)]. *)
Definition weak_ptr_from_shared (this r : N) : M unit :=
  do rp <- load_sp r;
  init_wp this {| wp_ptr := sp_ptr rp; wp_cb := sp_cb rp |} ;;
  if decide (sp_cb rp = nullptr) then ret () else inc_weak (sp_cb rp).

(** [weak_ptr(weak_ptr&& r)]. *)
Definition weak_ptr_move (this r : N) : M unit :=
  do rp <- load_wp r;
  init_wp this {| wp_ptr := wp_ptr rp; wp_cb := wp_cb rp |} ;;
  store_wp r {| wp_ptr := nullptr; wp_cb := wp_cb rp |} ;;
  store_wp r {| wp_ptr := nullptr; wp_cb := nullptr |}.

(** [~weak_ptr()]. *)
Definition weak_ptr_dtor (this : N) : M unit :=
  do p <- load_wp this;
  (if decide (wp_cb p = nullptr) then ret ()
   else
     let cb := wp_cb p in
     store_wp this {| wp_ptr := nullptr; wp_cb := cb |} ;;
     release_weak cb ;;
     (do n <- get_shared_cnt cb;
      if n =? 0 then
        do w <- get_weak_cnt cb;
        if w =? 0 then
          delete_cb cb ;;
          store_wp this {| wp_ptr := nullptr; wp_cb := nullptr |}
        else ret ()
      else ret ())) ;;
  end_wp this.

(** [swap(weak_ptr& r)]. *)
Definition weak_ptr_swap (this r : N) : M unit :=
  do a <- load_wp this;
  do b <- load_wp r;
  store_wp this b ;;
  store_wp r a.

Definition with_temp_wp (this : N) (ctor : N → M unit) (body : N → M unit)
    : M unit :=
  λ s, let tmp := fresh ({[this]} ∪ dom (wps s)) in
       (ctor tmp ;; body tmp ;; weak_ptr_dtor tmp) s.

(** [operator=(const weak_ptr& r)]. *)
Definition weak_ptr_assign (this r : N) : M unit :=
  if decide (this = r) then ret ()
  else with_temp_wp this (λ tmp, weak_ptr_copy tmp r)
                    (λ tmp, weak_ptr_swap tmp this).

(** [operator=(const shared_ptr<Y>& r)]. *)
Definition weak_ptr_assign_shared (this r : N) : M unit :=
  with_temp_wp this (λ tmp, weak_ptr_from_shared tmp r)
               (λ tmp, weak_ptr_swap tmp this).

(** [operator=(weak_ptr&& r)]. *)
Definition weak_ptr_move_assign (this r : N) : M unit :=
  if decide (this = r) then ret ()
  else with_temp_wp this (λ tmp, weak_ptr_move tmp r)
                    (λ tmp, weak_ptr_swap tmp this).

(** [reset()]. *)
Definition weak_ptr_reset (this : N) : M unit :=
  with_temp_wp this weak_ptr_default (λ tmp, weak_ptr_swap tmp this).

(** [lock()], its result constructed at [dst]. *)
Definition lock (dst this : N) : M unit :=
  do p <- load_wp this;
  if decide (wp_cb p = nullptr) then shared_ptr_default dst
  else
    do n <- get_shared_cnt (wp_cb p);
    if n =? 0 then shared_ptr_default dst
    else
      inc_shared (wp_cb p) ;;
      shared_ptr_raw dst (wp_ptr p) (wp_cb p).

(** ** Programs *)

(** The public operations a caller can perform on named pointer objects. *)
Inductive op :=
| SpDefault (x : N)
| SpAdopt (x : N) (ptr : addr) (d : deleter) (r : new_result)
| SpAdoptDefault (x : N) (ptr : addr) (r : new_result)
| SpMake (x : N) (args : list ctor_arg) (r : new_result)
| SpAlias (x y : N) (ptr : addr)
| SpCopy (x y : N)
| SpMove (x y : N)
| SpDtor (x : N)
| SpAssign (x y : N)
| SpMoveAssign (x y : N)
| SpReset (x : N)
| SpResetPtr (x : N) (ptr : addr) (r : new_result)
| SpResetDel (x : N) (ptr : addr) (d : deleter) (r : new_result)
| SpSwap (x y : N)
| WpDefault (w : N)
| WpCopy (w v : N)
| WpFromShared (w x : N)
| WpMove (w v : N)
| WpDtor (w : N)
| WpAssign (w v : N)
| WpAssignShared (w x : N)
| WpMoveAssign (w v : N)
| WpReset (w : N)
| WpSwap (w v : N)
| WpLock (x w : N).

Definition exec (o : op) : M unit :=
  match o with
  | SpDefault x => shared_ptr_default x
  | SpAdopt x p d r => shared_ptr_adopt x p d r
  | SpAdoptDefault x p r => shared_ptr_adopt_default x p r
  | SpMake x args r => make_shared x args r
  | SpAlias x y p => shared_ptr_alias x y p
  | SpCopy x y => shared_ptr_copy x y
  | SpMove x y => shared_ptr_move x y
  | SpDtor x => shared_ptr_dtor x
  | SpAssign x y => shared_ptr_assign x y
  | SpMoveAssign x y => shared_ptr_move_assign x y
  | SpReset x => shared_ptr_reset x
  | SpResetPtr x p r => shared_ptr_reset_ptr x p r
  | SpResetDel x p d r => shared_ptr_reset_del x p d r
  | SpSwap x y => shared_ptr_swap x y
  | WpDefault w => weak_ptr_default w
  | WpCopy w v => weak_ptr_copy w v
  | WpFromShared w x => weak_ptr_from_shared w x
  | WpMove w v => weak_ptr_move w v
  | WpDtor w => weak_ptr_dtor w
  | WpAssign w v => weak_ptr_assign w v
  | WpAssignShared w x => weak_ptr_assign_shared w x
  | WpMoveAssign w v => weak_ptr_move_assign w v
  | WpReset w => weak_ptr_reset w
  | WpSwap w v => weak_ptr_swap w v
  | WpLock x w => lock x w
  end.

(** One statement of the caller.  An exception that leaves the operation
    is caught by the caller, who goes on; a failed assert or undefined
    behaviour ends the program. *)
Definition step (o : op) (s : state) : option state :=
  match exec o s with
  | Ret _ s' => Some s'
  | Throw s' => Some s'
  | Abort => None
  | Undefined => None
  end.

Fixpoint run (ops : list op) (s : state) : option state :=
  match ops with
  | [] => Some s
  | o :: ops' =>
      match step o s with
      | Some s' => run ops' s'
      | None => None
      end
  end.

(** ** Deleters and destructors that use the library

    The deleter and the destructor of the managed object are code of the
    caller.  [delete_object] and the catch block of [shared_ptr_adopt]
    above are the calls of a deleter or destructor that performs no
    operation on owning pointers and observers.  Below that code is any
    [user h], run at the place of the call; the members that reach such a
    call are given again with it. *)

Section Running.

Variable user : hook → M unit.

(** The virtual [delete_object]: the assert, then the call of the deleter
    or of the destructor of the embedded object. *)
Definition delete_object_running (c : addr) : M unit :=
  do b <- load_cb c;
  do n <- get_shared_cnt c;
  assert (n =? 0) ;;
  emit (EvHook c (hook_of c (variant b))) ;;
  user (hook_of c (variant b)).

(** [shared_ptr(Y* ptr, Deleter d)]; the catch block calls [d(ptr)]. *)
Definition shared_ptr_adopt_running (this : N) (ptr : addr) (d : deleter)
    (r : new_result) : M unit :=
  try_catch
    (do c <- new_cb (cb_separate ptr d) r;
     init_sp this {| sp_ptr := ptr; sp_cb := c |} ;;
     inc_shared c)
    (emit (EvCleanup d ptr) ;; user (run_deleter d ptr) ;; throw).

(** [~shared_ptr()]. *)
Definition shared_ptr_dtor_running (this : N) : M unit :=
  do p <- load_sp this;
  (if decide (sp_cb p = nullptr) then ret ()
   else
     let cb := sp_cb p in
     store_sp this {| sp_ptr := nullptr; sp_cb := cb |} ;;
     release_shared cb ;;
     (do n <- get_shared_cnt cb;
      if n =? 0 then delete_object_running cb else ret ()) ;;
     (do n <- get_shared_cnt cb;
      if n =? 0 then
        do w <- get_weak_cnt cb;
        if w =? 0 then
          delete_cb cb ;;
          store_sp this {| sp_ptr := nullptr; sp_cb := nullptr |}
        else ret ()
      else ret ())) ;;
  end_sp this.

(** A temporary owning pointer in a member function of [*this]. *)
Definition with_temp_sp_running (this : N) (ctor : N → M unit)
    (body : N → M unit) : M unit :=
  λ s, let tmp := fresh ({[this]} ∪ dom (sps s)) in
       (ctor tmp ;; body tmp ;; shared_ptr_dtor_running tmp) s.

(** The public operations; those that call no deleter and no destructor
    are as in [exec]. *)
Definition exec_running (o : op) : M unit :=
  match o with
  | SpAdopt x p d r => shared_ptr_adopt_running x p d r
  | SpAdoptDefault x p r => shared_ptr_adopt_running x p default_delete r
  | SpDtor x => shared_ptr_dtor_running x
  | SpAssign x y =>
      if decide (x = y) then ret ()
      else with_temp_sp_running x (λ tmp, shared_ptr_copy tmp y)
                                (λ tmp, shared_ptr_swap tmp x)
  | SpMoveAssign x y =>
      if decide (x = y) then ret ()
      else with_temp_sp_running x (λ tmp, shared_ptr_move tmp y)
                                (λ tmp, shared_ptr_swap tmp x)
  | SpReset x =>
      with_temp_sp_running x shared_ptr_default (λ tmp, shared_ptr_swap tmp x)
  | SpResetPtr x p r =>
      with_temp_sp_running x
        (λ tmp, shared_ptr_adopt_running tmp p default_delete r)
        (λ tmp, shared_ptr_swap tmp x)
  | SpResetDel x p d r =>
      with_temp_sp_running x (λ tmp, shared_ptr_adopt_running tmp p d r)
                           (λ tmp, shared_ptr_swap tmp x)
  | _ => exec o
  end.

Definition step_running (o : op) (s : state) : option state :=
  match exec_running o s with
  | Ret _ s' => Some s'
  | Throw s' => Some s'
  | Abort => None
  | Undefined => None
  end.

Fixpoint run_running (ops : list op) (s : state) : option state :=
  match ops with
  | [] => Some s
  | o :: ops' =>
      match step_running o s with
      | Some s' => run_running ops' s'
      | None => None
      end
  end.

End Running.

(** ** Specification vocabulary *)

(** Number of objects in a store that satisfy [P]. *)
Definition cnt {A} (P : A → Prop) `{!∀ a, Decision (P a)} (m : gmap N A)
    : nat :=
  size (filter (λ kv, P kv.2) m).

(** Number of live [shared_ptr] objects whose control-block link is [c]. *)
Definition owners (m : gmap N shared_ptr) (c : addr) : nat :=
  cnt (λ p, sp_cb p = c) m.

(** Number of live [weak_ptr] objects whose control-block link is [c]. *)
Definition observers (m : gmap N weak_ptr) (c : addr) : nat :=
  cnt (λ p, wp_cb p = c) m.

Definition is_hook (c : addr) (e : event) : bool :=
  match e with EvHook c' _ => bool_decide (c' = c) | _ => false end.

Definition is_free (c : addr) (e : event) : bool :=
  match e with EvFree c' => bool_decide (c' = c) | _ => false end.

Fixpoint count (f : event → bool) (t : list event) : nat :=
  match t with
  | [] => 0
  | e :: t' => ((if f e then 1 else 0) + count f t')%nat
  end.

(** How often [delete_object] ran on block [c], and how often [c] was
    deleted. *)
Definition hooks (c : addr) (t : list event) : nat := count (is_hook c) t.
Definition frees (c : addr) (t : list event) : nat := count (is_free c) t.

(** The shared count of [c] as stored; 0 when [c] is no block. *)
Definition shared_of (s : state) (c : addr) : N :=
  match cbs s !! c with Some b => shared_cnt b | None => 0 end.

(** Block [c] has been created at some time up to now. *)
Definition born (s : state) (c : addr) : Prop := 0 < c ≤ brk s.

(** The states reached by the programs of a caller. *)
Definition reachable (s : state) : Prop :=
  ∃ ops, N.of_nat (length ops) < SIZE_MAX ∧ run ops init = Some s.

(** The deleters and destructors [user] perform no operation on owning
    pointers and observers: they return and leave every pointer and every
    control block as it is. *)
Definition inert (user : hook → M unit) : Prop := ∀ h s, user h s = Ret () s.

(** The states reached by the programs of a caller whose deleters and
    destructors are [user]. *)
Definition reachable_running (user : hook → M unit) (s : state) : Prop :=
  ∃ ops, N.of_nat (length ops) < SIZE_MAX ∧ run_running user ops init = Some s.

(** *** The invariant *)

(** Events [evs] do not concern block [c]. *)
Definition silent (c : addr) (evs : list event) : Prop :=
  hooks c evs = 0%nat ∧ frees c evs = 0%nat ∧ ∀ v, EvNew c v ∉ evs.

(** What holds of address [c], given the number of owners and observers
    linked to it, and the block stored there, if any. *)
Definition addr_inv (own obs : nat) (k : N) (t : list event) (c : addr)
    (ob : option control_block) : Prop :=
  match ob with
  | Some b =>
      0 < c ≤ k ∧
      shared_cnt b = N.of_nat own ∧ weak_cnt b = N.of_nat obs ∧
      (0 < own + obs)%nat ∧
      EvNew c (variant b) ∈ t ∧
      hooks c t = (if decide (own = 0%nat) then 1 else 0)%nat ∧
      frees c t = 0%nat
  | None =>
      (c ≠ 0 → own = 0%nat ∧ obs = 0%nat) ∧
      if decide (0 < c ≤ k) then hooks c t = 1%nat ∧ frees c t = 1%nat
      else silent c t
  end.

(** Every [delete cb] comes after the one [delete_object] of that block. *)
Definition free_after_hook (t : list event) : Prop :=
  ∀ t1 t2 c, t = t1 ++ EvFree c :: t2 → hooks c t1 = 1%nat.

(** Every [delete_object] runs the hook of the block as it was created. *)
Definition hook_origin (t : list event) : Prop :=
  ∀ c h, EvHook c h ∈ t → ∃ v, EvNew c v ∈ t ∧ h = hook_of c v.

Definition new_unique (t : list event) : Prop :=
  ∀ c v v', EvNew c v ∈ t → EvNew c v' ∈ t → v = v'.

Record Inv (s : state) : Prop := {
  inv_addr : ∀ c, addr_inv (owners (sps s) c) (observers (wps s) c)
                           (brk s) (trace s) c (cbs s !! c);
  inv_order : free_after_hook (trace s);
  inv_origin : hook_origin (trace s);
  inv_unique : new_unique (trace s)
}.

(** *** Specifications of calls *)

(** A call neither fails an assert nor, when [pre] holds, has undefined
    behaviour; it returns in a state that satisfies [post] or throws in a
    state that satisfies [exn]. *)
Definition spec {A} (m : M A) (s : state) (pre : Prop)
    (post : A → state → Prop) (exn : state → Prop) : Prop :=
  match m s with
  | Ret a s' => pre ∧ post a s'
  | Throw s' => exn s'
  | Abort => False
  | Undefined => ¬ pre
  end.

(** From [s] to [s'] the trace grew, and [delete_object] ran on no block
    but [c0], if any. *)
Definition quiet_but (c0 : option addr) (s s' : state) : Prop :=
  ∃ evs, trace s' = trace s ++ evs ∧ ∀ c, Some c ≠ c0 → hooks c evs = 0%nat.

Record step_post (s s' : state) (msp : gmap N shared_ptr)
    (mwp : gmap N weak_ptr) (c0 : option addr) : Prop := {
  post_inv : Inv s';
  post_sps : sps s' = msp;
  post_wps : wps s' = mwp;
  post_brk : brk s ≤ brk s';
  post_quiet : quiet_but c0 s s'
}.

Definition room (k : N) (s : state) : Prop :=
  N.of_nat (size (sps s) + size (wps s)) + k ≤ SIZE_MAX.

(** What the constructor of the temporary at [tmp] establishes: the
    temporary holds [q], the other owning pointers are [m], and [evs] was
    emitted. *)
Definition temp_post_sp (x tmp : N) (s s1 : state) (q : shared_ptr)
    (m : gmap N shared_ptr) (evs : list event) : Prop :=
  step_post s s1 (<[tmp := q]> m) (wps s) None ∧
  m !! tmp = None ∧ m !! x = sps s !! x ∧ size m = size (sps s) ∧
  trace s1 = trace s ++ evs.

Definition temp_post_wp (x tmp : N) (s s1 : state) (q : weak_ptr)
    (m : gmap N weak_ptr) : Prop :=
  step_post s s1 (sps s) (<[tmp := q]> m) None ∧
  m !! tmp = None ∧ m !! x = wps s !! x ∧ size m = size (wps s).

Definition null_sp : shared_ptr := {| sp_ptr := nullptr; sp_cb := nullptr |}.
Definition null_wp : weak_ptr := {| wp_ptr := nullptr; wp_cb := nullptr |}.

(** The value of the owning pointer at [y]. *)
Definition sp_at (s : state) (y : N) : shared_ptr := default null_sp (sps s !! y).
Definition wp_at (s : state) (y : N) : weak_ptr := default null_wp (wps s !! y).

(** *** Pairing of the two fields *)

Definition coupled_sp (p : shared_ptr) : Prop :=
  sp_ptr p ≠ nullptr ↔ sp_cb p ≠ nullptr.
Definition coupled_wp (p : weak_ptr) : Prop :=
  wp_ptr p ≠ nullptr ↔ wp_cb p ≠ nullptr.

(** Every live pointer has both fields null or both non-null. *)
Definition paired (s : state) : Prop :=
  map_Forall (λ _, coupled_sp) (sps s) ∧ map_Forall (λ _, coupled_wp) (wps s).

(** *** Programs: when an operation is well formed, and what it ensures *)

(** The objects an operation names are alive, and the object it constructs
    is not.  A self-assignment touches nothing. *)
Definition wf (o : op) (s : state) : Prop :=
  match o with
  | SpDefault x | SpAdopt x _ _ _ | SpAdoptDefault x _ _ | SpMake x _ _ =>
      sps s !! x = None
  | SpAlias x y _ | SpCopy x y | SpMove x y =>
      is_Some (sps s !! y) ∧ sps s !! x = None
  | SpDtor x | SpReset x | SpResetPtr x _ _ | SpResetDel x _ _ _ =>
      is_Some (sps s !! x)
  | SpAssign x y | SpMoveAssign x y =>
      x = y ∨ (is_Some (sps s !! y) ∧ is_Some (sps s !! x))
  | SpSwap x y => is_Some (sps s !! x) ∧ is_Some (sps s !! y)
  | WpDefault w => wps s !! w = None
  | WpCopy w v | WpMove w v => is_Some (wps s !! v) ∧ wps s !! w = None
  | WpFromShared w x => is_Some (sps s !! x) ∧ wps s !! w = None
  | WpDtor w | WpReset w => is_Some (wps s !! w)
  | WpAssign w v | WpMoveAssign w v =>
      w = v ∨ (is_Some (wps s !! v) ∧ is_Some (wps s !! w))
  | WpAssignShared w x => is_Some (sps s !! x) ∧ is_Some (wps s !! w)
  | WpSwap w v => is_Some (wps s !! w) ∧ is_Some (wps s !! v)
  | WpLock x w => is_Some (wps s !! w) ∧ sps s !! x = None
  end.

(** The operations that run [~shared_ptr] on an owning pointer that may
    hold a reference: the destructor itself, and the assignments and
    resets, which destroy a temporary holding the old value. *)
Definition releases_owner (o : op) : bool :=
  match o with
  | SpDtor _ | SpAssign _ _ | SpMoveAssign _ _ | SpReset _
  | SpResetPtr _ _ _ | SpResetDel _ _ _ _ => true
  | _ => false
  end.

Definition op_post (o : op) (s s' : state) : Prop :=
  Inv s' ∧ brk s ≤ brk s' ∧
  (size (sps s') + size (wps s') ≤ S (size (sps s) + size (wps s)))%nat ∧
  ∃ c0, quiet_but c0 s s' ∧
        ∀ c, c0 = Some c → c ≤ brk s ∧ releases_owner o = true.

(** The operations that keep the two fields paired: all but the adoption
    of a null pointer and an aliasing construction whose raw pointer is
    null while the source has a control block, or the reverse. *)
Definition keeps_pairing (o : op) (s : state) : Prop :=
  match o with
  | SpAlias _ y p => coupled_sp {| sp_ptr := p; sp_cb := sp_cb (sp_at s y) |}
  | SpAdopt _ p _ _ | SpAdoptDefault _ p _
  | SpResetPtr _ p _ | SpResetDel _ p _ _ => p ≠ nullptr
  | _ => True
  end.

(** *** Classes of operations *)

(** The new-expression of the operation, if it has one, throws. *)
Definition allocation_fails (o : op) : bool :=
  match o with
  | SpAdopt _ _ _ new_throws | SpAdoptDefault _ _ new_throws
  | SpMake _ _ new_throws | SpResetPtr _ _ new_throws
  | SpResetDel _ _ _ new_throws => true
  | _ => false
  end.

(** The operations of [weak_ptr] that produce no owning pointer. *)
Definition observer_op (o : op) : bool :=
  match o with
  | WpDefault _ | WpCopy _ _ | WpFromShared _ _ | WpMove _ _ | WpDtor _
  | WpAssign _ _ | WpAssignShared _ _ | WpMoveAssign _ _ | WpReset _
  | WpSwap _ _ => true
  | _ => false
  end.


(** *** A small program, for examples *)

(** An object at address 100 is adopted with a custom deleter by the owning
    pointer 1, observed by the observer 1; then the owner is destroyed and
    then the observer. *)
Definition demo_deleter : deleter := custom_deleter 7.
Definition demo_ops : list op :=
  [SpAdopt 1 100 demo_deleter new_ok; WpFromShared 1 1].
Definition demo_state : state :=
  Eval vm_compute in default init (run demo_ops init).
Definition demo_released : state :=
  Eval vm_compute in default init (step (SpDtor 1) demo_state).
Definition demo_freed : state :=
  Eval vm_compute in default init (step (WpDtor 1) demo_released).
Definition demo_adopted : state :=
  Eval vm_compute in default init (step (SpAdopt 1 100 demo_deleter new_ok) init).
Definition demo_empty : state :=
  Eval vm_compute in default init (step (SpDefault 1) init).

(** Two owning pointers 1 and 2, each the only owner of a block of its
    own, with the observers 1 and 2 of these blocks; and the state after
    the program of [demo_state] has destroyed its two pointers. *)
Definition demo_two_ops : list op :=
  demo_ops ++ [SpAdopt 2 200 default_delete new_ok; WpFromShared 2 2].
Definition demo_two : state :=
  Eval vm_compute in default init (run demo_two_ops init).
Definition demo_end_ops : list op := demo_ops ++ [SpDtor 1; WpDtor 1].

(** An object at address 100 that has an observer as a member, [self],
    the observer 1.  The object is adopted by the owning pointer 1 and
    [self] is assigned from that pointer; the destructor of the object
    destroys [self]. *)
Definition node_ops : list op :=
  [WpDefault 1; SpAdoptDefault 1 100 new_ok; WpAssignShared 1 1].
Definition node_state : state :=
  Eval vm_compute in default init (run node_ops init).
Definition node_dtor : hook → M unit := λ _, weak_ptr_dtor 1.

(** Deleters and destructors that do nothing to pointers. *)
Definition no_user : hook → M unit := λ _, ret ().

(** ** Counting lemmas *)

Section Counting.
Context {A : Type} (P : A → Prop) `{!∀ a, Decision (P a)}.

Lemma cnt_empty : cnt P (∅ : gmap N A) = 0%nat.
Proof. unfold cnt. by rewrite map_filter_empty, map_size_empty. Qed.

Lemma cnt_insert_fresh m x v :
  m !! x = None →
  cnt P (<[x := v]> m) = (cnt P m + if decide (P v) then 1 else 0)%nat.
Proof.
  intros Hx. unfold cnt. rewrite map_filter_insert. simpl.
  destruct (decide (P v)).
  - rewrite map_size_insert_None; [lia|].
    apply map_lookup_filter_None. by left.
  - rewrite delete_id by done. lia.
Qed.

Lemma cnt_delete m x v :
  m !! x = Some v →
  cnt P m = (cnt P (delete x m) + if decide (P v) then 1 else 0)%nat.
Proof.
  intros Hx.
  rewrite <-(insert_id m x v) at 1 by done.
  rewrite <-insert_delete_eq.
  apply cnt_insert_fresh, lookup_delete_eq.
Qed.

Lemma cnt_insert m x v :
  cnt P (<[x := v]> m)
  = (cnt P (delete x m) + if decide (P v) then 1 else 0)%nat.
Proof.
  rewrite <-insert_delete_eq. apply cnt_insert_fresh, lookup_delete_eq.
Qed.

Lemma cnt_le_size (m : gmap N A) : (cnt P m ≤ size m)%nat.
Proof. apply map_subseteq_size, map_filter_subseteq. Qed.

End Counting.

(** ** Trace lemmas *)

Lemma count_app f t1 t2 : count f (t1 ++ t2) = (count f t1 + count f t2)%nat.
Proof. induction t1 as [|e t1 IH]; simpl; [done|]. rewrite IH. lia. Qed.

Lemma hooks_app c t1 t2 : hooks c (t1 ++ t2) = (hooks c t1 + hooks c t2)%nat.
Proof. apply count_app. Qed.

Lemma frees_app c t1 t2 : frees c (t1 ++ t2) = (frees c t1 + frees c t2)%nat.
Proof. apply count_app. Qed.

Lemma silent_nil c : silent c [].
Proof. split; [done|split; [done|]]. intros v. apply not_elem_of_nil. Qed.

Lemma silent_app c t1 t2 : silent c t1 → silent c t2 → silent c (t1 ++ t2).
Proof.
  intros (H1 & H2 & H3) (H4 & H5 & H6). split; [|split].
  - rewrite hooks_app. lia.
  - rewrite frees_app. lia.
  - intros v [?|?]%elem_of_app; [by eapply H3 | by eapply H6].
Qed.

Lemma silent_cleanup c d p : silent c [EvCleanup d p].
Proof.
  split; [done|split; [done|]].
  intros v Hv%list_elem_of_singleton. discriminate.
Qed.

Lemma silent_other c c' evs :
  c ≠ c' →
  (∀ e, e ∈ evs →
        (∃ v, e = EvNew c' v) ∨ (∃ h, e = EvHook c' h) ∨ e = EvFree c') →
  silent c evs.
Proof.
  intros Hne. induction evs as [|e evs IH]; intros Hall; [apply silent_nil|].
  destruct IH as (H1 & H2 & H3).
  { intros e' He'. apply Hall. by right. }
  assert (He : (∃ v, e = EvNew c' v) ∨ (∃ h, e = EvHook c' h) ∨ e = EvFree c')
    by (apply Hall; by left).
  unfold silent, hooks, frees in *. simpl.
  destruct He as [[v ->]|[[h ->]| ->]]; simpl;
    rewrite ?bool_decide_eq_false_2 by congruence; simpl;
    (split; [done|split; [done|]]);
    (intros v' [Hv|Hv]%elem_of_cons; [congruence | by eapply H3]).
Qed.

Lemma addr_inv_frame own obs k k' t evs c ob :
  addr_inv own obs k t c ob →
  silent c evs → k ≤ k' → (c ≤ k ∨ k' < c) →
  addr_inv own obs k' (t ++ evs) c ob.
Proof.
  intros Hinv (Hh & Hf & Hn) Hk Hc. unfold addr_inv in *.
  destruct ob as [b|].
  - destruct Hinv as (? & ? & ? & ? & ? & ? & ?).
    rewrite hooks_app, frees_app, Hh, Hf, !Nat.add_0_r.
    repeat split; try done; try lia. apply elem_of_app; by left.
  - destruct Hinv as [? Hrest]. split; [done|].
    destruct (decide (0 < c ≤ k)) as [Hb|Hb].
    + rewrite decide_True by lia.
      rewrite hooks_app, frees_app, Hh, Hf, !Nat.add_0_r. done.
    + rewrite decide_False by lia.
      apply silent_app; [done|]. by repeat split.
Qed.

Lemma free_after_hook_snoc t e :
  free_after_hook t →
  (∀ c, e = EvFree c → hooks c t = 1%nat) →
  free_after_hook (t ++ [e]).
Proof.
  intros Ht He t1 t2 c Heq.
  destruct t2 as [|e2 t2 _] using rev_ind.
  - change (t1 ++ [EvFree c]) with (t1 ++ [EvFree c]) in Heq.
    apply app_inj_tail in Heq as [-> ->]. by apply He.
  - rewrite app_comm_cons, app_assoc in Heq.
    apply app_inj_tail in Heq as [-> _]. by eapply Ht.
Qed.

Lemma hook_origin_snoc t e :
  hook_origin t →
  (∀ c h, e = EvHook c h → ∃ v, EvNew c v ∈ t ∧ h = hook_of c v) →
  hook_origin (t ++ [e]).
Proof.
  intros Ht He c h [Hin|Hin%list_elem_of_singleton]%elem_of_app.
  - destruct (Ht c h Hin) as (v & ? & ?). exists v. split; [|done].
    apply elem_of_app; by left.
  - destruct (He c h (eq_sym Hin)) as (v & ? & ?). exists v. split; [|done].
    apply elem_of_app; by left.
Qed.

Lemma new_unique_snoc t e :
  new_unique t →
  (∀ c v, e = EvNew c v → ∀ v', EvNew c v' ∉ t) →
  new_unique (t ++ [e]).
Proof.
  intros Ht He c v v'
    [H1|H1%list_elem_of_singleton]%elem_of_app
    [H2|H2%list_elem_of_singleton]%elem_of_app.
  - by eapply Ht.
  - exfalso. by eapply (He c v').
  - exfalso. by eapply (He c v).
  - congruence.
Qed.

(** ** Preservation of the invariant by state changes *)

Lemma size_incr_small n : n < SIZE_MAX → size_incr n = n + 1.
Proof.
  unfold size_incr, SIZE_MAX. intros Hn. apply N.mod_small. lia.
Qed.

Lemma size_decr_pos n : 0 < n → n < SIZE_MOD → size_decr n = n - 1.
Proof.
  unfold size_decr, SIZE_MAX. intros H0 Hn.
  replace (n + (SIZE_MOD - 1)) with ((n - 1) + 1 * SIZE_MOD).
  - rewrite N.Div0.mod_add. apply N.mod_small. lia.
  - assert (0 < SIZE_MOD) by done. lia.
Qed.

Lemma Inv_init : Inv init.
Proof.
  split; simpl.
  - intros c. unfold addr_inv. rewrite lookup_empty. split.
    + intros _. unfold owners, observers. by rewrite !cnt_empty.
    + rewrite decide_False by lia. apply silent_nil.
  - intros t1 t2 c Heq. by destruct t1.
  - intros c h Hin. by apply elem_of_nil in Hin.
  - intros c v v' Hin. by apply elem_of_nil in Hin.
Qed.

Lemma addr_inv_null_1 own obs k t : addr_inv own obs k t 0 None → silent 0 t.
Proof.
  unfold addr_inv. destruct (decide (0 < 0 ≤ k)); [lia|]. by intros [_ ?].
Qed.

Lemma addr_inv_null_2 own obs k t : silent 0 t → addr_inv own obs k t 0 None.
Proof.
  unfold addr_inv. destruct (decide (0 < 0 ≤ k)); [lia|]. by split.
Qed.

Lemma Inv_null s : Inv s → cbs s !! 0 = None.
Proof.
  intros HI. pose proof (inv_addr s HI 0) as H.
  destruct (cbs s !! 0); [|done]. simpl in H. lia.
Qed.

Lemma Inv_update s s' c0 evs :
  Inv s →
  trace s' = trace s ++ evs →
  brk s ≤ brk s' →
  (∀ c, c ≠ c0 → cbs s' !! c = cbs s !! c) →
  (∀ c, c ≠ c0 → c ≠ 0 → owners (sps s') c = owners (sps s) c) →
  (∀ c, c ≠ c0 → c ≠ 0 → observers (wps s') c = observers (wps s) c) →
  (∀ c, c ≠ c0 → silent c evs) →
  (∀ c, c ≠ c0 → c ≤ brk s ∨ brk s' < c) →
  addr_inv (owners (sps s') c0) (observers (wps s') c0) (brk s') (trace s')
           c0 (cbs s' !! c0) →
  free_after_hook (trace s') → hook_origin (trace s') →
  new_unique (trace s') →
  Inv s'.
Proof.
  intros HI Ht Hk Hcb Hown Hobs Hsil Hborn H0 Hf Hh Hn.
  split; try done. intros c.
  destruct (decide (c = c0)) as [->|Hne]; [done|].
  rewrite Hcb, Ht by done.
  destruct (decide (c = 0)) as [->|Hc].
  - rewrite (Inv_null s HI). pose proof (inv_addr s HI 0) as H.
    rewrite (Inv_null s HI) in H. apply addr_inv_null_1 in H.
    apply addr_inv_null_2, silent_app; [done | by apply Hsil].
  - rewrite Hown, Hobs by done.
    eapply addr_inv_frame; [apply (inv_addr s HI) | auto..].
Qed.

(** Only pointer objects change, and no link to a block is added or lost. *)
Lemma Inv_objects s s' :
  Inv s →
  cbs s' = cbs s → brk s' = brk s → trace s' = trace s →
  (∀ c, c ≠ 0 → owners (sps s') c = owners (sps s) c) →
  (∀ c, c ≠ 0 → observers (wps s') c = observers (wps s) c) →
  Inv s'.
Proof.
  intros HI Hcb Hk Ht Hown Hobs.
  apply (Inv_update s s' 0 []); rewrite ?Hcb, ?Hk, ?Ht, ?app_nil_r;
    auto using silent_nil; try apply HI; try lia.
  pose proof (inv_addr s HI 0) as H. rewrite (Inv_null s HI) in *.
  apply addr_inv_null_1 in H. by apply addr_inv_null_2.
Qed.

(** A block is created and gets its first owner. *)
Lemma Inv_new_block s s' x p v :
  Inv s → sps s !! x = None →
  cbs s' !! N.succ (brk s)
    = Some {| shared_cnt := 1; weak_cnt := 0; variant := v |} →
  (∀ c, c ≠ N.succ (brk s) → cbs s' !! c = cbs s !! c) →
  sps s' = <[x := {| sp_ptr := p; sp_cb := N.succ (brk s) |}]> (sps s) →
  wps s' = wps s → brk s' = N.succ (brk s) →
  trace s' = trace s ++ [EvNew (N.succ (brk s)) v] →
  Inv s'.
Proof.
  intros HI Hx Hc Hcb Hsp Hwp Hk Ht. set (c := N.succ (brk s)) in *.
  pose proof (inv_addr s HI c) as Hold.
  assert (cbs s !! c = None) as Hnone.
  { destruct (cbs s !! c) eqn:E; [|done]. simpl in Hold. lia. }
  rewrite Hnone in Hold. simpl in Hold. destruct Hold as [Hzero Hsil].
  rewrite decide_False in Hsil by lia. destruct Hsil as (Hh & Hf & Hn).
  destruct Hzero as [Hown Hobs]; [lia|].
  apply (Inv_update s s' c [EvNew c v]); auto.
  - lia.
  - intros c' ? ?. rewrite Hsp. unfold owners.
    rewrite cnt_insert_fresh by done. simpl.
    rewrite decide_False by done. lia.
  - intros c' ? ?. by rewrite Hwp.
  - intros c' ?. apply (silent_other c' c); [done|].
    intros e ->%list_elem_of_singleton. left. by eexists.
  - intros c' ?. rewrite Hk. lia.
  - rewrite Hc, Hsp, Hwp, Hk, Ht. unfold owners in *.
    rewrite cnt_insert_fresh by done. simpl.
    rewrite decide_True by done. rewrite Hown. fold (observers (wps s) c).
    rewrite Hobs. simpl. rewrite hooks_app, frees_app, Hh, Hf.
    unfold hooks, frees. simpl.
    repeat split; try done; try lia.
    apply elem_of_app. right. by apply list_elem_of_singleton.
  - rewrite Ht. apply free_after_hook_snoc; [apply HI|]. intros; discriminate.
  - rewrite Ht. apply hook_origin_snoc; [apply HI|]. intros; discriminate.
  - rewrite Ht. apply new_unique_snoc; [apply HI|].
    intros c' v0 [= <- <-]. apply Hn.
Qed.

Lemma Inv_add_owner s s' x p c b :
  Inv s → sps s !! x = None → cbs s !! c = Some b →
  shared_cnt b ≠ 0 → N.of_nat (size (sps s)) < SIZE_MAX →
  cbs s' !! c = Some {| shared_cnt := size_incr (shared_cnt b);
                        weak_cnt := weak_cnt b; variant := variant b |} →
  (∀ c', c' ≠ c → cbs s' !! c' = cbs s !! c') →
  sps s' = <[x := {| sp_ptr := p; sp_cb := c |}]> (sps s) →
  wps s' = wps s → brk s' = brk s → trace s' = trace s →
  Inv s'.
Proof.
  intros HI Hx Hb Hpos Hsz Hc Hcb Hsp Hwp Hk Ht.
  pose proof (inv_addr s HI c) as Hold. rewrite Hb in Hold.
  destruct Hold as (Hborn & Hsh & Hwk & Hsome & Hnew & Hh & Hf).
  pose proof (cnt_le_size (λ q, sp_cb q = c) (sps s)) as Hle.
  fold (owners (sps s) c) in Hle.
  apply (Inv_update s s' c []); rewrite ?Ht, ?Hk, ?app_nil_r;
    auto using silent_nil; try apply HI; try lia.
  - intros c' ? ?. rewrite Hsp. unfold owners.
    rewrite cnt_insert_fresh by done. simpl.
    rewrite decide_False by done. lia.
  - intros c' ? ?. by rewrite Hwp.
  - rewrite Hc, Hsp, Hwp. unfold owners in *.
    rewrite cnt_insert_fresh by done. simpl.
    rewrite decide_True by done.
    rewrite size_incr_small by lia.
    rewrite decide_False in Hh by lia. rewrite decide_False by lia.
    repeat split; try done; try lia.
Qed.

Lemma owners_pos m x p :
  m !! x = Some p → owners m (sp_cb p) = S (owners (delete x m) (sp_cb p)).
Proof.
  intros Hx. unfold owners. rewrite (cnt_delete _ m x p Hx).
  rewrite decide_True by done. lia.
Qed.

Lemma observers_pos m x p :
  m !! x = Some p →
  observers m (wp_cb p) = S (observers (delete x m) (wp_cb p)).
Proof.
  intros Hx. unfold observers. rewrite (cnt_delete _ m x p Hx).
  rewrite decide_True by done. lia.
Qed.

Lemma owners_delete_ne m x p c :
  m !! x = Some p → sp_cb p ≠ c → owners (delete x m) c = owners m c.
Proof.
  intros Hx Hne. unfold owners. rewrite (cnt_delete _ m x p Hx).
  rewrite decide_False by done. lia.
Qed.

Lemma observers_delete_ne m x p c :
  m !! x = Some p → wp_cb p ≠ c → observers (delete x m) c = observers m c.
Proof.
  intros Hx Hne. unfold observers. rewrite (cnt_delete _ m x p Hx).
  rewrite decide_False by done. lia.
Qed.

Lemma Inv_drop_owner_keep s s' x p b :
  Inv s → sps s !! x = Some p → sp_cb p ≠ 0 →
  cbs s !! sp_cb p = Some b →
  N.of_nat (size (sps s)) ≤ SIZE_MAX →
  size_decr (shared_cnt b) ≠ 0 →
  cbs s' !! sp_cb p
    = Some {| shared_cnt := size_decr (shared_cnt b);
              weak_cnt := weak_cnt b; variant := variant b |} →
  (∀ c', c' ≠ sp_cb p → cbs s' !! c' = cbs s !! c') →
  sps s' = delete x (sps s) →
  wps s' = wps s → brk s' = brk s → trace s' = trace s →
  Inv s'.
Proof.
  intros HI Hx Hnz Hb Hsz Hpos Hc Hcb Hsp Hwp Hk Ht. set (c := sp_cb p) in *.
  pose proof (inv_addr s HI c) as Hold. rewrite Hb in Hold.
  destruct Hold as (Hborn & Hsh & Hwk & Hsome & Hnew & Hh & Hf).
  pose proof (cnt_le_size (λ q, sp_cb q = c) (sps s)) as Hle.
  fold (owners (sps s) c) in Hle.
  pose proof (owners_pos _ _ _ Hx) as Hown. fold c in Hown.
  assert (SIZE_MAX < SIZE_MOD) by done.
  rewrite size_decr_pos in Hpos, Hc by lia.
  apply (Inv_update s s' c []); rewrite ?Ht, ?Hk, ?app_nil_r;
    auto using silent_nil; try apply HI; try lia.
  - intros c' ? ?. rewrite Hsp. by apply (owners_delete_ne _ _ p).
  - intros c' ? ?. by rewrite Hwp.
  - rewrite Hc, Hsp, Hwp. rewrite Hown in *. unfold addr_inv. simpl.
    rewrite decide_False in Hh by lia. rewrite decide_False by lia.
    repeat split; try done; try lia.
Qed.

Lemma Inv_drop_owner_expire s s' x p b :
  Inv s → sps s !! x = Some p → sp_cb p ≠ 0 →
  cbs s !! sp_cb p = Some b →
  N.of_nat (size (sps s)) ≤ SIZE_MAX →
  size_decr (shared_cnt b) = 0 → weak_cnt b ≠ 0 →
  cbs s' !! sp_cb p
    = Some {| shared_cnt := size_decr (shared_cnt b);
              weak_cnt := weak_cnt b; variant := variant b |} →
  (∀ c', c' ≠ sp_cb p → cbs s' !! c' = cbs s !! c') →
  sps s' = delete x (sps s) →
  wps s' = wps s → brk s' = brk s →
  trace s' = trace s ++ [EvHook (sp_cb p) (hook_of (sp_cb p) (variant b))] →
  Inv s'.
Proof.
  intros HI Hx Hnz Hb Hsz Hzero Hw Hc Hcb Hsp Hwp Hk Ht.
  set (c := sp_cb p) in *.
  pose proof (inv_addr s HI c) as Hold. rewrite Hb in Hold.
  destruct Hold as (Hborn & Hsh & Hwk & Hsome & Hnew & Hh & Hf).
  pose proof (cnt_le_size (λ q, sp_cb q = c) (sps s)) as Hle.
  fold (owners (sps s) c) in Hle.
  pose proof (owners_pos _ _ _ Hx) as Hown. fold c in Hown.
  assert (SIZE_MAX < SIZE_MOD) by done.
  rewrite size_decr_pos in Hzero, Hc by lia.
  apply (Inv_update s s' c [EvHook c (hook_of c (variant b))]);
    rewrite ?Hk; auto; try lia.
  - intros c' ? ?. rewrite Hsp. by apply (owners_delete_ne _ _ p).
  - intros c' ? ?. by rewrite Hwp.
  - intros c' ?. apply (silent_other c' c); [done|].
    intros e ->%list_elem_of_singleton. right; left. by eexists.
  - rewrite Hc, Hsp, Hwp, Ht. rewrite Hown in *. unfold addr_inv. simpl.
    rewrite decide_False in Hh by lia.
    assert (owners (delete x (sps s)) c = 0%nat) as -> by lia.
    rewrite hooks_app, frees_app, Hh, Hf. unfold hooks, frees. simpl.
    rewrite bool_decide_eq_true_2 by done.
    repeat split; try done; try lia.
    apply elem_of_app; by left.
  - rewrite Ht. apply free_after_hook_snoc; [apply HI|]. intros; discriminate.
  - rewrite Ht. apply hook_origin_snoc; [apply HI|].
    intros c' h [= <- <-]. by exists (variant b).
  - rewrite Ht. apply new_unique_snoc; [apply HI|]. intros; discriminate.
Qed.

Lemma Inv_drop_owner_free s s' x p b :
  Inv s → sps s !! x = Some p → sp_cb p ≠ 0 →
  cbs s !! sp_cb p = Some b →
  N.of_nat (size (sps s)) ≤ SIZE_MAX →
  size_decr (shared_cnt b) = 0 → weak_cnt b = 0 →
  cbs s' !! sp_cb p = None →
  (∀ c', c' ≠ sp_cb p → cbs s' !! c' = cbs s !! c') →
  sps s' = delete x (sps s) →
  wps s' = wps s → brk s' = brk s →
  trace s' = trace s ++ [EvHook (sp_cb p) (hook_of (sp_cb p) (variant b));
                         EvFree (sp_cb p)] →
  Inv s'.
Proof.
  intros HI Hx Hnz Hb Hsz Hzero Hw Hc Hcb Hsp Hwp Hk Ht.
  set (c := sp_cb p) in *.
  pose proof (inv_addr s HI c) as Hold. rewrite Hb in Hold.
  destruct Hold as (Hborn & Hsh & Hwk & Hsome & Hnew & Hh & Hf).
  pose proof (cnt_le_size (λ q, sp_cb q = c) (sps s)) as Hle.
  fold (owners (sps s) c) in Hle.
  pose proof (owners_pos _ _ _ Hx) as Hown. fold c in Hown.
  assert (SIZE_MAX < SIZE_MOD) by done.
  rewrite size_decr_pos in Hzero by lia.
  rewrite Hown in *. rewrite decide_False in Hh by lia.
  assert (hooks c (trace s ++ [EvHook c (hook_of c (variant b))]) = 1%nat)
    as Hh1.
  { rewrite hooks_app, Hh. unfold hooks. simpl.
    by rewrite bool_decide_eq_true_2. }
  apply (Inv_update s s' c [EvHook c (hook_of c (variant b)); EvFree c]);
    rewrite ?Hk; auto; try lia.
  - intros c' ? ?. rewrite Hsp. by apply (owners_delete_ne _ _ p).
  - intros c' ? ?. by rewrite Hwp.
  - intros c' ?. apply (silent_other c' c); [done|].
    intros e [->| ->%list_elem_of_singleton]%elem_of_cons.
    + right; left. by eexists.
    + by right; right.
  - rewrite Hc, Hsp, Hwp, Ht. unfold addr_inv.
    rewrite decide_True by done.
    rewrite hooks_app, frees_app, Hh, Hf. unfold hooks, frees. simpl.
    rewrite !bool_decide_eq_true_2 by done.
    repeat split; try done; try lia.
  - rewrite Ht. change [EvHook c (hook_of c (variant b)); EvFree c]
      with ([EvHook c (hook_of c (variant b))] ++ [EvFree c]).
    rewrite app_assoc. apply free_after_hook_snoc.
    + apply free_after_hook_snoc; [apply HI|]. intros; discriminate.
    + by intros c' [= <-].
  - rewrite Ht. change [EvHook c (hook_of c (variant b)); EvFree c]
      with ([EvHook c (hook_of c (variant b))] ++ [EvFree c]).
    rewrite app_assoc. apply hook_origin_snoc; [|intros; discriminate].
    apply hook_origin_snoc; [apply HI|].
    intros c' h [= <- <-]. by exists (variant b).
  - rewrite Ht. change [EvHook c (hook_of c (variant b)); EvFree c]
      with ([EvHook c (hook_of c (variant b))] ++ [EvFree c]).
    rewrite app_assoc. apply new_unique_snoc; [|intros; discriminate].
    apply new_unique_snoc; [apply HI|]. intros; discriminate.
Qed.

Lemma Inv_add_observer s s' x p c b :
  Inv s → wps s !! x = None → cbs s !! c = Some b →
  N.of_nat (size (wps s)) < SIZE_MAX →
  cbs s' !! c = Some {| shared_cnt := shared_cnt b;
                        weak_cnt := size_incr (weak_cnt b);
                        variant := variant b |} →
  (∀ c', c' ≠ c → cbs s' !! c' = cbs s !! c') →
  sps s' = sps s →
  wps s' = <[x := {| wp_ptr := p; wp_cb := c |}]> (wps s) →
  brk s' = brk s → trace s' = trace s →
  Inv s'.
Proof.
  intros HI Hx Hb Hsz Hc Hcb Hsp Hwp Hk Ht.
  pose proof (inv_addr s HI c) as Hold. rewrite Hb in Hold.
  destruct Hold as (Hborn & Hsh & Hwk & Hsome & Hnew & Hh & Hf).
  pose proof (cnt_le_size (λ q, wp_cb q = c) (wps s)) as Hle.
  fold (observers (wps s) c) in Hle.
  apply (Inv_update s s' c []); rewrite ?Ht, ?Hk, ?app_nil_r;
    auto using silent_nil; try apply HI; try lia.
  - intros c' ? ?. by rewrite Hsp.
  - intros c' ? ?. rewrite Hwp. unfold observers.
    rewrite cnt_insert_fresh by done. simpl.
    rewrite decide_False by done. lia.
  - rewrite Hc, Hsp, Hwp. unfold observers in *.
    rewrite cnt_insert_fresh by done. simpl.
    rewrite decide_True by done.
    rewrite size_incr_small by lia.
    repeat split; try done; try lia.
Qed.

Lemma Inv_drop_observer_keep s s' x p b :
  Inv s → wps s !! x = Some p → wp_cb p ≠ 0 →
  cbs s !! wp_cb p = Some b →
  N.of_nat (size (wps s)) ≤ SIZE_MAX →
  ¬ (shared_cnt b = 0 ∧ size_decr (weak_cnt b) = 0) →
  cbs s' !! wp_cb p
    = Some {| shared_cnt := shared_cnt b;
              weak_cnt := size_decr (weak_cnt b); variant := variant b |} →
  (∀ c', c' ≠ wp_cb p → cbs s' !! c' = cbs s !! c') →
  sps s' = sps s → wps s' = delete x (wps s) →
  brk s' = brk s → trace s' = trace s →
  Inv s'.
Proof.
  intros HI Hx Hnz Hb Hsz Hpos Hc Hcb Hsp Hwp Hk Ht. set (c := wp_cb p) in *.
  pose proof (inv_addr s HI c) as Hold. rewrite Hb in Hold.
  destruct Hold as (Hborn & Hsh & Hwk & Hsome & Hnew & Hh & Hf).
  pose proof (cnt_le_size (λ q, wp_cb q = c) (wps s)) as Hle.
  fold (observers (wps s) c) in Hle.
  pose proof (observers_pos _ _ _ Hx) as Hobs. fold c in Hobs.
  assert (SIZE_MAX < SIZE_MOD) by done.
  rewrite size_decr_pos in Hpos, Hc by lia.
  apply (Inv_update s s' c []); rewrite ?Ht, ?Hk, ?app_nil_r;
    auto using silent_nil; try apply HI; try lia.
  - intros c' ? ?. by rewrite Hsp.
  - intros c' ? ?. rewrite Hwp. by apply (observers_delete_ne _ _ p).
  - rewrite Hc, Hsp, Hwp. rewrite Hobs in *. unfold addr_inv. simpl.
    repeat split; try done; try lia.
Qed.

Lemma Inv_drop_observer_free s s' x p b :
  Inv s → wps s !! x = Some p → wp_cb p ≠ 0 →
  cbs s !! wp_cb p = Some b →
  N.of_nat (size (wps s)) ≤ SIZE_MAX →
  shared_cnt b = 0 → size_decr (weak_cnt b) = 0 →
  cbs s' !! wp_cb p = None →
  (∀ c', c' ≠ wp_cb p → cbs s' !! c' = cbs s !! c') →
  sps s' = sps s → wps s' = delete x (wps s) →
  brk s' = brk s → trace s' = trace s ++ [EvFree (wp_cb p)] →
  Inv s'.
Proof.
  intros HI Hx Hnz Hb Hsz Hsh0 Hzero Hc Hcb Hsp Hwp Hk Ht.
  set (c := wp_cb p) in *.
  pose proof (inv_addr s HI c) as Hold. rewrite Hb in Hold.
  destruct Hold as (Hborn & Hsh & Hwk & Hsome & Hnew & Hh & Hf).
  pose proof (cnt_le_size (λ q, wp_cb q = c) (wps s)) as Hle.
  fold (observers (wps s) c) in Hle.
  pose proof (observers_pos _ _ _ Hx) as Hobs. fold c in Hobs.
  assert (SIZE_MAX < SIZE_MOD) by done.
  rewrite size_decr_pos in Hzero by lia.
  rewrite Hobs in *. rewrite decide_True in Hh by lia.
  apply (Inv_update s s' c [EvFree c]); rewrite ?Hk; auto; try lia.
  - intros c' ? ?. by rewrite Hsp.
  - intros c' ? ?. rewrite Hwp. by apply (observers_delete_ne _ _ p).
  - intros c' ?. apply (silent_other c' c); [done|].
    intros e ->%list_elem_of_singleton. by right; right.
  - rewrite Hc, Hsp, Hwp, Ht. unfold addr_inv.
    rewrite decide_True by done.
    rewrite hooks_app, frees_app, Hh, Hf. unfold hooks, frees. simpl.
    rewrite !bool_decide_eq_true_2 by done.
    repeat split; try done; try lia.
  - rewrite Ht. apply free_after_hook_snoc; [apply HI|]. by intros c' [= <-].
  - rewrite Ht. apply hook_origin_snoc; [apply HI|]. intros; discriminate.
  - rewrite Ht. apply new_unique_snoc; [apply HI|]. intros; discriminate.
Qed.

(** ** The operations preserve the invariant *)

Lemma quiet_but_refl c0 s s' : trace s' = trace s → quiet_but c0 s s'.
Proof. intros H. exists []. by rewrite app_nil_r. Qed.

Lemma Inv_owner_live s x p :
  Inv s → sps s !! x = Some p → sp_cb p ≠ 0 →
  ∃ b, cbs s !! sp_cb p = Some b ∧ shared_cnt b ≠ 0 ∧ sp_cb p ≤ brk s.
Proof.
  intros HI Hx Hnz. pose proof (inv_addr s HI (sp_cb p)) as H.
  pose proof (owners_pos _ _ _ Hx) as Hown.
  destruct (cbs s !! sp_cb p) as [b|]; simpl in H.
  - exists b. split; [done|]. lia.
  - destruct H as [H _]. destruct (H Hnz). lia.
Qed.

Lemma Inv_observer_live s x p :
  Inv s → wps s !! x = Some p → wp_cb p ≠ 0 →
  ∃ b, cbs s !! wp_cb p = Some b ∧ weak_cnt b ≠ 0 ∧ wp_cb p ≤ brk s.
Proof.
  intros HI Hx Hnz. pose proof (inv_addr s HI (wp_cb p)) as H.
  pose proof (observers_pos _ _ _ Hx) as Hown.
  destruct (cbs s !! wp_cb p) as [b|]; simpl in H.
  - exists b. split; [done|]. lia.
  - destruct H as [H _]. destruct (H Hnz). lia.
Qed.

Lemma shared_ptr_default_spec x s :
  Inv s →
  spec (shared_ptr_default x) s (sps s !! x = None)
    (λ _ s', brk s' = brk s ∧ step_post s s'
       (<[x := {| sp_ptr := nullptr; sp_cb := nullptr |}]> (sps s)) (wps s) None)
    (λ _, False).
Proof.
  intros HI. unfold spec, shared_ptr_default, init_sp.
  destruct (sps s !! x) eqn:Hx; [by intros ?|]. do 2 (split; [done|]).
  split; simpl; try done; [|by apply quiet_but_refl].
  eapply Inv_objects; try done; simpl.
  intros c Hc. unfold owners. rewrite cnt_insert_fresh by done. simpl.
  unfold nullptr. rewrite decide_False by done. lia.
Qed.

Lemma Inv_cleanup s s' d p :
  Inv s → cbs s' = cbs s → sps s' = sps s → wps s' = wps s →
  brk s' = brk s → trace s' = trace s ++ [EvCleanup d p] →
  Inv s'.
Proof.
  intros HI Hcb Hsp Hwp Hk Ht.
  apply (Inv_update s s' 0 [EvCleanup d p]);
    rewrite ?Hcb, ?Hsp, ?Hwp, ?Hk; auto using silent_cleanup; try lia.
  - rewrite Ht, (Inv_null s HI).
    pose proof (inv_addr s HI 0) as H. rewrite (Inv_null s HI) in H.
    apply addr_inv_null_1 in H.
    apply addr_inv_null_2, silent_app; auto using silent_cleanup.
  - rewrite Ht. apply free_after_hook_snoc; [apply HI|]. intros; discriminate.
  - rewrite Ht. apply hook_origin_snoc; [apply HI|]. intros; discriminate.
  - rewrite Ht. apply new_unique_snoc; [apply HI|]. intros; discriminate.
Qed.

Lemma quiet_but_new c0 s s' c v :
  trace s' = trace s ++ [EvNew c v] → quiet_but c0 s s'.
Proof. intros H. by exists [EvNew c v]. Qed.

Lemma shared_ptr_adopt_spec x p d r s :
  Inv s →
  spec (shared_ptr_adopt x p d r) s (sps s !! x = None)
    (λ _ s', r = new_ok ∧ brk s' = N.succ (brk s) ∧
       step_post s s'
         (<[x := {| sp_ptr := p; sp_cb := N.succ (brk s) |}]> (sps s))
         (wps s) None)
    (λ s', r = new_throws ∧ brk s' = brk s ∧ cbs s' = cbs s ∧
       trace s' = trace s ++ [EvCleanup d p] ∧
       step_post s s' (sps s) (wps s) None).
Proof.
  intros HI. unfold spec, shared_ptr_adopt, try_catch, bind, new_cb.
  destruct r; simpl.
  - unfold init_sp; simpl.
    destruct (sps s !! x) eqn:Hx; [by intros ?|].
    unfold inc_shared, bind, load_cb, store_cb; simpl.
    rewrite lookup_insert_eq. simpl.
    split; [done|]. split; [done|]. split; [done|].
    split; simpl; try done; try lia.
    + eapply (Inv_new_block s _ x p (cb_separate p d)); simpl; try done.
      * by rewrite lookup_insert_eq.
      * intros c Hc. by rewrite !lookup_insert_ne.
    + by eapply quiet_but_new.
  - split; [done|]. split; [done|]. split; [done|]. split; [done|].
    split; simpl; try done.
    + by eapply Inv_cleanup.
    + by exists [EvCleanup d p].
Qed.

Lemma make_shared_spec x args r s :
  Inv s →
  spec (make_shared x args r) s (sps s !! x = None)
    (λ _ s', r = new_ok ∧ brk s' = N.succ (brk s) ∧
       step_post s s'
         (<[x := {| sp_ptr := cb_inplace_get (N.succ (brk s));
                    sp_cb := N.succ (brk s) |}]> (sps s))
         (wps s) None)
    (λ s', r = new_throws ∧ s' = s).
Proof.
  intros HI. unfold spec, make_shared, bind, new_cb.
  destruct r; simpl; [|done].
  unfold inc_shared, bind, load_cb, store_cb; simpl.
  rewrite lookup_insert_eq. simpl.
  unfold shared_ptr_raw, init_sp; simpl.
  destruct (sps s !! x) eqn:Hx; [by intros ?|].
  split; [done|]. split; [done|]. split; [done|].
  split; simpl; try done; try lia.
  - eapply (Inv_new_block s _ x); simpl; try done.
    + by rewrite lookup_insert_eq.
    + intros c Hc. by rewrite !lookup_insert_ne.
  - by eapply quiet_but_new.
Qed.

Lemma room_sps k s : room k s → N.of_nat (size (sps s)) + k ≤ SIZE_MAX.
Proof. unfold room. lia. Qed.

Lemma room_wps k s : room k s → N.of_nat (size (wps s)) + k ≤ SIZE_MAX.
Proof. unfold room. lia. Qed.

Lemma shared_ptr_alias_spec x y p s :
  Inv s → room 1 s →
  spec (shared_ptr_alias x y p) s
    (is_Some (sps s !! y) ∧ sps s !! x = None)
    (λ _ s', ∃ q, sps s !! y = Some q ∧ brk s' = brk s ∧
       step_post s s'
         (<[x := {| sp_ptr := p; sp_cb := sp_cb q |}]> (sps s)) (wps s) None)
    (λ _, False).
Proof.
  intros HI Hroom. apply room_sps in Hroom.
  unfold spec, shared_ptr_alias, bind, load_sp.
  destruct (sps s !! y) as [q|] eqn:Hy; [|by intros [[? ?] _]].
  unfold init_sp. destruct (sps s !! x) eqn:Hx; [by intros [_ ?]|].
  destruct (decide (sp_cb q = nullptr)) as [Hq|Hq]; simpl.
  - split; [by eauto|]. exists q. split; [done|]. split; [done|].
    split; simpl; try done; [|by apply quiet_but_refl].
    eapply Inv_objects; try done; simpl.
    intros c Hc. unfold owners. rewrite cnt_insert_fresh by done. simpl.
    rewrite Hq. unfold nullptr. rewrite decide_False by done. lia.
  - destruct (Inv_owner_live s y q HI Hy Hq) as (b & Hb & Hpos & _).
    unfold inc_shared, bind, load_cb, store_cb; simpl. rewrite Hb.
    split; [by eauto|]. exists q. split; [done|]. split; [done|].
    split; simpl; try done; [|by apply quiet_but_refl].
    eapply (Inv_add_owner s _ x p (sp_cb q) b); simpl; try done; try lia.
    + by rewrite lookup_insert_eq.
    + intros c Hc. by rewrite lookup_insert_ne.
Qed.

Lemma shared_ptr_copy_spec x y s :
  Inv s → room 1 s →
  spec (shared_ptr_copy x y) s
    (is_Some (sps s !! y) ∧ sps s !! x = None)
    (λ _ s', ∃ q, sps s !! y = Some q ∧ brk s' = brk s ∧
       step_post s s' (<[x := q]> (sps s)) (wps s) None)
    (λ _, False).
Proof.
  intros HI Hroom. pose proof (shared_ptr_alias_spec x y) as H.
  unfold spec, shared_ptr_copy, bind, load_sp in *.
  destruct (sps s !! y) as [q|] eqn:Hy; [|by intros [[? ?] _]].
  specialize (H (sp_ptr q) s HI Hroom). rewrite Hy in H.
  destruct (shared_ptr_alias x y (sp_ptr q) s); try done.
  destruct H as (? & q' & [= <-] & ? & ?). split; [done|]. exists q.
  by destruct q.
Qed.

Section Permute.
Context {A : Type} (P : A → Prop) `{!∀ a, Decision (P a)}.

Lemma cnt_swap (m : gmap N A) x y a b :
  m !! x = Some a → m !! y = Some b →
  cnt P (<[y := a]> (<[x := b]> m)) = cnt P m.
Proof.
  intros Hx Hy. destruct (decide (x = y)) as [->|Hne].
  - rewrite insert_insert_eq. assert (a = b) as -> by congruence.
    by rewrite insert_id.
  - rewrite cnt_insert, delete_insert_ne by done.
    rewrite cnt_insert.
    rewrite (cnt_delete P m y b Hy).
    rewrite (cnt_delete P (delete y m) x a); [lia|].
    by rewrite lookup_delete_ne.
Qed.

Lemma cnt_move (m : gmap N A) x y a b :
  m !! x = None → m !! y = Some a → ¬ P b →
  cnt P (<[y := b]> (<[x := a]> m)) = cnt P m.
Proof.
  intros Hx Hy Hb. assert (x ≠ y) by congruence.
  rewrite cnt_insert, delete_insert_ne by done.
  rewrite cnt_insert_fresh by (by rewrite lookup_delete_ne).
  rewrite (cnt_delete P m y a Hy). rewrite (decide_False (P:=P b)) by done.
  lia.
Qed.

End Permute.

Lemma shared_ptr_move_spec x y s :
  Inv s →
  spec (shared_ptr_move x y) s
    (is_Some (sps s !! y) ∧ sps s !! x = None)
    (λ _ s', ∃ q, sps s !! y = Some q ∧ brk s' = brk s ∧
       step_post s s'
         (<[y := {| sp_ptr := nullptr; sp_cb := nullptr |}]>
            (<[x := q]> (sps s))) (wps s) None)
    (λ _, False).
Proof.
  intros HI. unfold spec, shared_ptr_move, bind, load_sp.
  destruct (sps s !! y) as [q|] eqn:Hy; [|by intros [[? ?] _]].
  unfold init_sp. destruct (sps s !! x) eqn:Hx; [by intros [_ ?]|].
  assert (x ≠ y) by congruence.
  unfold store_sp; simpl. rewrite lookup_insert_ne, Hy by done. simpl.
  rewrite lookup_insert_eq.
  split; [by eauto|]. exists q. split; [done|]. split; [done|].
  assert ({| sp_ptr := sp_ptr q; sp_cb := sp_cb q |} = q) as -> by by destruct q.
  split; simpl; try done; [|by rewrite insert_insert_eq|by apply quiet_but_refl].
  eapply Inv_objects; try done; simpl.
  intros c Hc. rewrite insert_insert_eq. by apply cnt_move.
Qed.

Lemma shared_ptr_swap_spec x y s :
  Inv s →
  spec (shared_ptr_swap x y) s
    (is_Some (sps s !! x) ∧ is_Some (sps s !! y))
    (λ _ s', ∃ a b, sps s !! x = Some a ∧ sps s !! y = Some b ∧
       brk s' = brk s ∧
       step_post s s' (<[y := a]> (<[x := b]> (sps s))) (wps s) None)
    (λ _, False).
Proof.
  intros HI. unfold spec, shared_ptr_swap, bind, load_sp.
  destruct (sps s !! x) as [a|] eqn:Hx; [|by intros [[? ?] _]].
  destruct (sps s !! y) as [b|] eqn:Hy; [|by intros [_ [? ?]]].
  unfold store_sp; simpl. rewrite Hx. simpl.
  destruct (<[x:=b]> (sps s) !! y) eqn:Hy'.
  2:{ exfalso. apply lookup_insert_None in Hy' as [? ?]. congruence. }
  split; [by eauto|]. exists a, b. do 3 (split; [done|]).
  split; simpl; try done; [|by apply quiet_but_refl].
  eapply Inv_objects; try done; simpl.
  intros c Hc. by apply cnt_swap.
Qed.

Lemma shared_ptr_dtor_spec x s :
  Inv s → room 0 s →
  spec (shared_ptr_dtor x) s (is_Some (sps s !! x))
    (λ _ s', ∃ p, sps s !! x = Some p ∧ brk s' = brk s ∧
       step_post s s' (delete x (sps s)) (wps s) (Some (sp_cb p)))
    (λ _, False).
Proof.
  intros HI Hroom. apply room_sps in Hroom.
  unfold spec, shared_ptr_dtor, bind, load_sp.
  destruct (sps s !! x) as [p|] eqn:Hx; [|by intros [? ?]].
  destruct (decide (sp_cb p = nullptr)) as [Hp|Hp].
  - unfold ret, end_sp. rewrite Hx. split; [by eauto|].
    exists p. do 2 (split; [done|]).
    split; simpl; try done; [|by apply quiet_but_refl].
    eapply Inv_objects; try done; simpl.
    intros c Hc. apply (owners_delete_ne _ _ p); [done|].
    rewrite Hp. unfold nullptr. congruence.
  - destruct (Inv_owner_live s x p HI Hx Hp) as (b & Hb & Hpos & _).
    unfold store_sp, release_shared, bind, load_cb; simpl.
    rewrite Hx; simpl. rewrite Hb; simpl.
    unfold assert. destruct (0 <? shared_cnt b) eqn:Hlt;
      [|apply N.ltb_ge in Hlt; lia].
    unfold store_cb, get_shared_cnt, bind, load_cb, ret; simpl.
    rewrite !lookup_insert_eq; simpl.
    destruct (size_decr (shared_cnt b) =? 0) eqn:Hz.
    + apply N.eqb_eq in Hz.
      unfold delete_object, get_shared_cnt, bind, load_cb, ret, assert, emit;
        simpl.
      rewrite !lookup_insert_eq; simpl. rewrite Hz; simpl.
      repeat (rewrite lookup_insert_eq; simpl).
      unfold get_weak_cnt, bind, load_cb, ret; simpl.
      repeat (rewrite lookup_insert_eq; simpl).
      destruct (weak_cnt b =? 0) eqn:Hw.
      * apply N.eqb_eq in Hw.
        unfold delete_cb, bind, store_sp, end_sp; simpl.
        repeat (rewrite lookup_insert_eq; simpl).
        split; [by eauto|]. exists p. do 2 (split; [done|]).
        split; simpl; try done.
        -- eapply (Inv_drop_owner_free s _ x p b); simpl; try done; try lia.
           ++ by rewrite lookup_delete_eq.
           ++ intros c Hc. by rewrite lookup_delete_ne, lookup_insert_ne.
           ++ by rewrite !insert_insert_eq, delete_insert_eq.
           ++ by rewrite <-app_assoc.
        -- by rewrite !insert_insert_eq, delete_insert_eq.
        -- eexists. split; [by rewrite <-app_assoc|].
           intros c Hc. unfold hooks. simpl.
           by rewrite bool_decide_eq_false_2 by congruence.
      * apply N.eqb_neq in Hw. unfold end_sp; simpl.
        rewrite !lookup_insert_eq; simpl.
        split; [by eauto|]. exists p. do 2 (split; [done|]).
        split; simpl; try done.
        -- eapply (Inv_drop_owner_expire s _ x p b); simpl; try done; try lia.
           ++ by rewrite lookup_insert_eq, Hz.
           ++ intros c Hc. by rewrite lookup_insert_ne.
           ++ by rewrite delete_insert_eq.
        -- by rewrite delete_insert_eq.
        -- eexists. split; [done|].
           intros c Hc. unfold hooks. simpl.
           by rewrite bool_decide_eq_false_2 by congruence.
    + apply N.eqb_neq in Hz. simpl.
      rewrite !lookup_insert_eq; simpl.
      destruct (size_decr (shared_cnt b) =? 0) eqn:Hz'; 
        [apply N.eqb_eq in Hz'; done|].
      unfold end_sp; simpl. rewrite !lookup_insert_eq; simpl.
      split; [by eauto|]. exists p. do 2 (split; [done|]).
      split; simpl; try done.
      * eapply (Inv_drop_owner_keep s _ x p b); simpl; try done; try lia.
        -- by rewrite lookup_insert_eq.
        -- intros c Hc. by rewrite lookup_insert_ne.
        -- by rewrite delete_insert_eq.
      * by rewrite delete_insert_eq.
      * by apply quiet_but_refl.
Qed.

Lemma weak_ptr_default_spec x s :
  Inv s →
  spec (weak_ptr_default x) s (wps s !! x = None)
    (λ _ s', brk s' = brk s ∧ step_post s s' (sps s)
       (<[x := {| wp_ptr := nullptr; wp_cb := nullptr |}]> (wps s)) None)
    (λ _, False).
Proof.
  intros HI. unfold spec, weak_ptr_default, init_wp.
  destruct (wps s !! x) eqn:Hx; [by intros ?|]. do 2 (split; [done|]).
  split; simpl; try done; [|by apply quiet_but_refl].
  eapply Inv_objects; try done; simpl.
  intros c Hc. unfold observers. rewrite cnt_insert_fresh by done. simpl.
  unfold nullptr. rewrite decide_False by done. lia.
Qed.

Lemma weak_ptr_copy_spec x y s :
  Inv s → room 1 s →
  spec (weak_ptr_copy x y) s
    (is_Some (wps s !! y) ∧ wps s !! x = None)
    (λ _ s', ∃ q, wps s !! y = Some q ∧ brk s' = brk s ∧
       step_post s s' (sps s) (<[x := q]> (wps s)) None)
    (λ _, False).
Proof.
  intros HI Hroom. apply room_wps in Hroom.
  unfold spec, weak_ptr_copy, bind, load_wp.
  destruct (wps s !! y) as [q|] eqn:Hy; [|by intros [[? ?] _]].
  unfold init_wp. destruct (wps s !! x) eqn:Hx; [by intros [_ ?]|].
  assert ({| wp_ptr := wp_ptr q; wp_cb := wp_cb q |} = q) as ->
    by by destruct q.
  destruct (decide (wp_cb q = nullptr)) as [Hq|Hq]; simpl.
  - split; [by eauto|]. exists q. do 2 (split; [done|]).
    split; simpl; try done; [|by apply quiet_but_refl].
    eapply Inv_objects; try done; simpl.
    intros c Hc. unfold observers. rewrite cnt_insert_fresh by done. simpl.
    rewrite Hq. unfold nullptr. rewrite decide_False by done. lia.
  - destruct (Inv_observer_live s y q HI Hy Hq) as (b & Hb & Hpos & _).
    unfold inc_weak, bind, load_cb, store_cb; simpl. rewrite Hb.
    split; [by eauto|]. exists q. do 2 (split; [done|]).
    split; simpl; try done; [|by apply quiet_but_refl].
    eapply (Inv_add_observer s _ x (wp_ptr q) (wp_cb q) b);
      simpl; try done; try lia.
    + by rewrite lookup_insert_eq.
    + intros c Hc. by rewrite lookup_insert_ne.
    + by destruct q.
Qed.

Lemma weak_ptr_from_shared_spec x y s :
  Inv s → room 1 s →
  spec (weak_ptr_from_shared x y) s
    (is_Some (sps s !! y) ∧ wps s !! x = None)
    (λ _ s', ∃ q, sps s !! y = Some q ∧ brk s' = brk s ∧
       step_post s s' (sps s)
         (<[x := {| wp_ptr := sp_ptr q; wp_cb := sp_cb q |}]> (wps s)) None)
    (λ _, False).
Proof.
  intros HI Hroom. apply room_wps in Hroom.
  unfold spec, weak_ptr_from_shared, bind, load_sp.
  destruct (sps s !! y) as [q|] eqn:Hy; [|by intros [[? ?] _]].
  unfold init_wp. destruct (wps s !! x) eqn:Hx; [by intros [_ ?]|].
  destruct (decide (sp_cb q = nullptr)) as [Hq|Hq]; simpl.
  - split; [by eauto|]. exists q. do 2 (split; [done|]).
    split; simpl; try done; [|by apply quiet_but_refl].
    eapply Inv_objects; try done; simpl.
    intros c Hc. unfold observers. rewrite cnt_insert_fresh by done. simpl.
    rewrite Hq. unfold nullptr. rewrite decide_False by done. lia.
  - destruct (Inv_owner_live s y q HI Hy Hq) as (b & Hb & Hpos & _).
    unfold inc_weak, bind, load_cb, store_cb; simpl. rewrite Hb.
    split; [by eauto|]. exists q. do 2 (split; [done|]).
    split; simpl; try done; [|by apply quiet_but_refl].
    eapply (Inv_add_observer s _ x (sp_ptr q) (sp_cb q) b);
      simpl; try done; try lia.
    + by rewrite lookup_insert_eq.
    + intros c Hc. by rewrite lookup_insert_ne.
Qed.

Lemma weak_ptr_move_spec x y s :
  Inv s →
  spec (weak_ptr_move x y) s
    (is_Some (wps s !! y) ∧ wps s !! x = None)
    (λ _ s', ∃ q, wps s !! y = Some q ∧ brk s' = brk s ∧
       step_post s s' (sps s)
         (<[y := {| wp_ptr := nullptr; wp_cb := nullptr |}]>
            (<[x := q]> (wps s))) None)
    (λ _, False).
Proof.
  intros HI. unfold spec, weak_ptr_move, bind, load_wp.
  destruct (wps s !! y) as [q|] eqn:Hy; [|by intros [[? ?] _]].
  unfold init_wp. destruct (wps s !! x) eqn:Hx; [by intros [_ ?]|].
  assert (x ≠ y) by congruence.
  unfold store_wp; simpl. rewrite lookup_insert_ne, Hy by done. simpl.
  rewrite lookup_insert_eq.
  split; [by eauto|]. exists q. do 2 (split; [done|]).
  assert ({| wp_ptr := wp_ptr q; wp_cb := wp_cb q |} = q) as ->
    by by destruct q.
  split; simpl; try done;
    [|by rewrite insert_insert_eq|by apply quiet_but_refl].
  eapply Inv_objects; try done; simpl.
  intros c Hc. rewrite insert_insert_eq. by apply cnt_move.
Qed.

Lemma weak_ptr_swap_spec x y s :
  Inv s →
  spec (weak_ptr_swap x y) s
    (is_Some (wps s !! x) ∧ is_Some (wps s !! y))
    (λ _ s', ∃ a b, wps s !! x = Some a ∧ wps s !! y = Some b ∧
       brk s' = brk s ∧
       step_post s s' (sps s) (<[y := a]> (<[x := b]> (wps s))) None)
    (λ _, False).
Proof.
  intros HI. unfold spec, weak_ptr_swap, bind, load_wp.
  destruct (wps s !! x) as [a|] eqn:Hx; [|by intros [[? ?] _]].
  destruct (wps s !! y) as [b|] eqn:Hy; [|by intros [_ [? ?]]].
  unfold store_wp; simpl. rewrite Hx. simpl.
  destruct (<[x:=b]> (wps s) !! y) eqn:Hy'.
  2:{ exfalso. apply lookup_insert_None in Hy' as [? ?]. congruence. }
  split; [by eauto|]. exists a, b. do 3 (split; [done|]).
  split; simpl; try done; [|by apply quiet_but_refl].
  eapply Inv_objects; try done; simpl.
  intros c Hc. by apply cnt_swap.
Qed.

Lemma weak_ptr_dtor_spec x s :
  Inv s → room 0 s →
  spec (weak_ptr_dtor x) s (is_Some (wps s !! x))
    (λ _ s', brk s' = brk s ∧
       step_post s s' (sps s) (delete x (wps s)) None)
    (λ _, False).
Proof.
  intros HI Hroom. apply room_wps in Hroom.
  unfold spec, weak_ptr_dtor, bind, load_wp.
  destruct (wps s !! x) as [p|] eqn:Hx; [|by intros [? ?]].
  destruct (decide (wp_cb p = nullptr)) as [Hp|Hp].
  - unfold ret, end_wp. rewrite Hx. do 2 (split; [by eauto|]).
    split; simpl; try done; [|by apply quiet_but_refl].
    eapply Inv_objects; try done; simpl.
    intros c Hc. apply (observers_delete_ne _ _ p); [done|].
    rewrite Hp. unfold nullptr. congruence.
  - destruct (Inv_observer_live s x p HI Hx Hp) as (b & Hb & Hpos & _).
    unfold store_wp, release_weak, bind, load_cb; simpl.
    rewrite Hx; simpl. rewrite Hb; simpl.
    unfold assert. destruct (0 <? weak_cnt b) eqn:Hlt;
      [|apply N.ltb_ge in Hlt; lia].
    unfold store_cb, get_shared_cnt, bind, load_cb, ret; simpl.
    repeat (rewrite lookup_insert_eq; simpl).
    destruct (shared_cnt b =? 0) eqn:Hz.
    + apply N.eqb_eq in Hz.
      unfold get_weak_cnt, bind, load_cb, ret; simpl.
      repeat (rewrite lookup_insert_eq; simpl).
      destruct (size_decr (weak_cnt b) =? 0) eqn:Hw.
      * apply N.eqb_eq in Hw.
        unfold delete_cb, bind, store_wp, end_wp; simpl.
        repeat (rewrite lookup_insert_eq; simpl).
        do 2 (split; [by eauto|]).
        split; simpl; try done.
        -- eapply (Inv_drop_observer_free s _ x p b);
             simpl; try done; try lia.
           ++ by rewrite lookup_delete_eq.
           ++ intros c Hc. by rewrite lookup_delete_ne, lookup_insert_ne.
           ++ by rewrite !insert_insert_eq, delete_insert_eq.
        -- by rewrite !insert_insert_eq, delete_insert_eq.
        -- by eexists.
      * apply N.eqb_neq in Hw. unfold end_wp; simpl.
        repeat (rewrite lookup_insert_eq; simpl).
        do 2 (split; [by eauto|]).
        split; simpl; try done.
        -- eapply (Inv_drop_observer_keep s _ x p b);
             simpl; try done; try lia.
           ++ by rewrite lookup_insert_eq.
           ++ intros c Hc. by rewrite lookup_insert_ne.
           ++ by rewrite delete_insert_eq.
        -- by rewrite delete_insert_eq.
        -- by apply quiet_but_refl.
    + apply N.eqb_neq in Hz. unfold end_wp; simpl.
      repeat (rewrite lookup_insert_eq; simpl).
      do 2 (split; [by eauto|]).
      split; simpl; try done.
      * eapply (Inv_drop_observer_keep s _ x p b); simpl; try done; try lia.
        -- by rewrite lookup_insert_eq.
        -- intros c Hc. by rewrite lookup_insert_ne.
        -- by rewrite delete_insert_eq.
      * by rewrite delete_insert_eq.
      * by apply quiet_but_refl.
Qed.

Lemma lock_spec x w s :
  Inv s → room 1 s →
  spec (lock x w) s
    (is_Some (wps s !! w) ∧ sps s !! x = None)
    (λ _ s', ∃ p q, wps s !! w = Some p ∧
       (q = null_sp ∨ q = {| sp_ptr := wp_ptr p; sp_cb := wp_cb p |}) ∧
       brk s' = brk s ∧
       step_post s s' (<[x := q]> (sps s)) (wps s) None)
    (λ _, False).
Proof.
  intros HI Hroom. apply room_sps in Hroom.
  pose proof (shared_ptr_default_spec x s HI) as Hdef.
  unfold spec, lock, bind, load_wp in *.
  destruct (wps s !! w) as [p|] eqn:Hw; [|by intros [[? ?] _]].
  destruct (decide (wp_cb p = nullptr)) as [Hp|Hp].
  { destruct (shared_ptr_default x s); try done.
    - destruct Hdef as [? [? []]]. split; [by eauto|].
      exists p, null_sp. split; [done|]. split; [by left|]. by split.
    - by intros [_ ?]. }
  destruct (Inv_observer_live s w p HI Hw Hp) as (b & Hb & Hpos & _).
  unfold get_shared_cnt, bind, load_cb, ret; simpl. rewrite Hb; simpl.
  destruct (shared_cnt b =? 0) eqn:Hz.
  { destruct (shared_ptr_default x s); try done.
    - destruct Hdef as [? [? []]]. split; [by eauto|].
      exists p, null_sp. split; [done|]. split; [by left|]. by split.
    - by intros [_ ?]. }
  apply N.eqb_neq in Hz.
  unfold inc_shared, bind, load_cb, store_cb, shared_ptr_raw, init_sp; simpl.
  rewrite Hb; simpl.
  destruct (sps s !! x) eqn:Hx; [by intros [_ ?]|].
  split; [by eauto|]. eexists p, _. split; [done|]. split; [by right|].
  split; [done|].
  split; simpl; try done; [|by apply quiet_but_refl].
  eapply (Inv_add_owner s _ x (wp_ptr p) (wp_cb p) b);
    simpl; try done; try lia.
  - by rewrite lookup_insert_eq.
  - intros c Hc. by rewrite lookup_insert_ne.
Qed.

Lemma step_post_trans s s1 s2 m1 w1 m2 w2 c0 :
  step_post s s1 m1 w1 None → step_post s1 s2 m2 w2 c0 →
  step_post s s2 m2 w2 c0.
Proof.
  intros [? ? ? ? (e1 & Ht1 & Hq1)] [? ? ? ? (e2 & Ht2 & Hq2)].
  split; try done; [lia|].
  exists (e1 ++ e2). split.
  - by rewrite Ht2, Ht1, app_assoc.
  - intros c Hc. rewrite hooks_app, Hq1, Hq2 by done. done.
Qed.

Lemma room_step k s s' :
  room (k + 1) s → (size (sps s') + size (wps s') ≤
                    S (size (sps s) + size (wps s)))%nat →
  room k s'.
Proof. unfold room. lia. Qed.

Lemma temp_fresh_sp x s :
  let tmp := fresh ({[x]} ∪ dom (sps s)) in tmp ≠ x ∧ sps s !! tmp = None.
Proof.
  intros tmp. pose proof (is_fresh ({[x]} ∪ dom (sps s))) as H.
  fold tmp in H. split.
  - set_solver.
  - apply not_elem_of_dom. set_solver.
Qed.

Lemma temp_fresh_wp x s :
  let tmp := fresh ({[x]} ∪ dom (wps s)) in tmp ≠ x ∧ wps s !! tmp = None.
Proof.
  intros tmp. pose proof (is_fresh ({[x]} ∪ dom (wps s))) as H.
  fold tmp in H. split.
  - set_solver.
  - apply not_elem_of_dom. set_solver.
Qed.

(** *** What the constructors and [swap] emit *)

Lemma shared_ptr_swap_trace x y s :
  match shared_ptr_swap x y s with
  | Ret _ s' => trace s' = trace s
  | _ => True
  end.
Proof.
  unfold shared_ptr_swap, bind, load_sp, store_sp.
  repeat (case_match; simpl; try done); by simplify_eq.
Qed.

Lemma shared_ptr_default_trace x s :
  match shared_ptr_default x s with
  | Ret _ s' => trace s' = trace s
  | _ => True
  end.
Proof. unfold shared_ptr_default, init_sp. by destruct (sps s !! x). Qed.

Lemma shared_ptr_alias_trace x y p s :
  match shared_ptr_alias x y p s with
  | Ret _ s' => trace s' = trace s
  | _ => True
  end.
Proof.
  unfold shared_ptr_alias, bind, load_sp, init_sp, inc_shared, bind,
    load_cb, store_cb, ret.
  repeat (case_match; simpl; try done); by simplify_eq.
Qed.

Lemma shared_ptr_copy_trace x y s :
  match shared_ptr_copy x y s with
  | Ret _ s' => trace s' = trace s
  | _ => True
  end.
Proof.
  unfold shared_ptr_copy, bind, load_sp.
  destruct (sps s !! y) as [q|]; [|done]. apply shared_ptr_alias_trace.
Qed.

Lemma shared_ptr_move_trace x y s :
  match shared_ptr_move x y s with
  | Ret _ s' => trace s' = trace s
  | _ => True
  end.
Proof.
  unfold shared_ptr_move, bind, load_sp, init_sp, store_sp.
  repeat (case_match; simpl in *; try done); by simplify_eq.
Qed.

Lemma shared_ptr_adopt_trace x p d s :
  match shared_ptr_adopt x p d new_ok s with
  | Ret _ s' => trace s' = trace s ++ [EvNew (N.succ (brk s)) (cb_separate p d)]
  | _ => True
  end.
Proof.
  unfold shared_ptr_adopt, try_catch, bind, new_cb, init_sp, inc_shared,
    bind, load_cb, store_cb. simpl.
  repeat (case_match; simpl in *; try done); by simplify_eq.
Qed.

(** [~shared_ptr] emits events of the block it is linked to only. *)
Lemma shared_ptr_dtor_trace x s :
  match shared_ptr_dtor x s with
  | Ret _ s' =>
      ∃ evs, trace s' = trace s ++ evs ∧
        ∀ e, e ∈ evs →
             (∃ h, e = EvHook (sp_cb (sp_at s x)) h) ∨
             e = EvFree (sp_cb (sp_at s x))
  | _ => True
  end.
Proof.
  unfold sp_at, shared_ptr_dtor, bind, load_sp.
  destruct (sps s !! x) as [p|]; [|done]. simpl.
  destruct (decide (sp_cb p = nullptr)).
  { unfold ret, end_sp. destruct (sps s !! x); [|done].
    exists []. split; [by rewrite app_nil_r|]. by intros ev ?%elem_of_nil. }
  unfold store_sp, release_shared, get_shared_cnt, get_weak_cnt,
    delete_object, delete_cb, end_sp, get_shared_cnt, bind, load_cb,
    store_cb, assert, emit, ret.
  repeat (case_match; simplify_eq; simpl in *; try done); simplify_eq;
    simpl.
  all: try (eexists [_; _]; split; [by rewrite <-app_assoc|];
    intros ev [->|[->|[]%elem_of_nil]%elem_of_cons]%elem_of_cons;
      [left; by eexists|by right]).
  all: try (eexists [_]; split; [done|];
    intros ev ->%list_elem_of_singleton;
    first [left; by eexists | by right]).
  all: try (exists []; split; [by rewrite app_nil_r|]; by intros ev ?%elem_of_nil).
Qed.


Lemma with_temp_sp_spec x ctor s prec exn q m evs :
  Inv s → room 1 s →
  (∀ tmp, tmp ≠ x → sps s !! tmp = None →
     spec (ctor tmp) s prec (λ _ s1, temp_post_sp x tmp s s1 q m evs) exn) →
  spec (with_temp_sp x ctor (λ tmp, shared_ptr_swap tmp x)) s
    (prec ∧ is_Some (sps s !! x))
    (λ _ s', ∃ px evs', sps s !! x = Some px ∧ size m = size (sps s) ∧
       m !! x = Some px ∧ trace s' = trace s ++ evs ++ evs' ∧
       (∀ e, e ∈ evs' → (∃ h, e = EvHook (sp_cb px) h) ∨ e = EvFree (sp_cb px)) ∧
       step_post s s' (<[x := q]> m) (wps s) (Some (sp_cb px)))
    exn.
Proof.
  intros HI Hroom Hctor. unfold spec, with_temp_sp, bind. cbv beta zeta.
  destruct (temp_fresh_sp x s) as [Hne Hfresh].
  set (tmp := fresh ({[x]} ∪ dom (sps s))) in *.
  specialize (Hctor tmp Hne Hfresh). unfold spec in Hctor.
  destruct (ctor tmp s) as [[] s1| | |]; try done; [|by intros [? _]].
  destruct Hctor as (Hprec & Hpost & Hmt & Hmx & Hsz & Ht1).
  destruct Hpost as [HI1 Hsp1 Hwp1 Hk1 Hq1].
  assert (room 0 s1) as Hroom1.
  { apply (room_step 0 s); [done|]. rewrite Hsp1, Hwp1.
    rewrite map_size_insert_None by done. lia. }
  pose proof (shared_ptr_swap_spec tmp x s1 HI1) as Hswap.
  pose proof (shared_ptr_swap_trace tmp x s1) as Ht2.
  unfold spec in Hswap.
  destruct (shared_ptr_swap tmp x s1) as [[] s2| | |]; try done.
  2:{ intros [_ Hx]. apply Hswap. rewrite Hsp1. split.
      - rewrite lookup_insert_eq. by eexists.
      - by rewrite lookup_insert_ne, Hmx. }
  destruct Hswap as (_ & a & px & Ha & Hpx & Hk2 & Hpost2).
  rewrite Hsp1, lookup_insert_eq in Ha. injection Ha as <-.
  rewrite Hsp1, lookup_insert_ne, Hmx in Hpx by done.
  destruct Hpost2 as [HI2 Hsp2 Hwp2 _ Hq2].
  assert (room 0 s2) as Hroom2.
  { unfold room in *. rewrite Hsp2, Hwp2.
    rewrite !map_size_insert_Some; [done|..].
    - rewrite Hsp1, lookup_insert_eq. by eexists.
    - rewrite lookup_insert_ne by done. rewrite Hsp1, lookup_insert_ne by done.
      rewrite Hmx, Hpx. by eexists. }
  pose proof (shared_ptr_dtor_spec tmp s2 HI2 Hroom2) as Hd.
  pose proof (shared_ptr_dtor_trace tmp s2) as Hdt.
  unfold spec in Hd.
  assert (sps s2 !! tmp = Some px) as Htmp2.
  { rewrite Hsp2, lookup_insert_ne by done. by rewrite lookup_insert_eq. }
  unfold sp_at in Hdt. rewrite Htmp2 in Hdt. simpl in Hdt.
  destruct (shared_ptr_dtor tmp s2) as [[] s3| | |]; try done.
  2:{ exfalso. apply Hd. by eexists. }
  destruct Hd as (_ & p' & Hp' & Hk3 & Hpost3).
  rewrite Htmp2 in Hp'. injection Hp' as <-.
  destruct Hdt as (evs' & Ht3 & Hevs').
  destruct Hpost3 as [HI3 Hsp3 Hwp3 Hk3' Hq3].
  split; [done|]. exists px, evs'. split; [done|]. split; [done|].
  split; [by rewrite Hmx|].
  split; [by rewrite Ht3, Ht2, Ht1, app_assoc|]. split; [done|].
  assert (delete tmp (sps s2) = <[x := q]> m) as Hfinal.
  { rewrite Hsp2, Hsp1, insert_insert_eq.
    rewrite insert_insert_ne by done. rewrite delete_insert_eq.
    rewrite delete_insert_ne by done. by rewrite delete_id. }
  eapply (step_post_trans s s1); [by split|].
  eapply (step_post_trans s1 s2); [split; try done; lia|].
  split; try done.
  - by rewrite Hsp3.
  - by rewrite Hwp3, Hwp2.
Qed.

Lemma with_temp_wp_spec x ctor s prec exn q m :
  Inv s → room 1 s →
  (∀ tmp, tmp ≠ x → wps s !! tmp = None →
     spec (ctor tmp) s prec (λ _ s1, temp_post_wp x tmp s s1 q m) exn) →
  spec (with_temp_wp x ctor (λ tmp, weak_ptr_swap tmp x)) s
    (prec ∧ is_Some (wps s !! x))
    (λ _ s', size m = size (wps s) ∧ is_Some (m !! x) ∧
       step_post s s' (sps s) (<[x := q]> m) None)
    exn.
Proof.
  intros HI Hroom Hctor. unfold spec, with_temp_wp, bind. cbv beta zeta.
  destruct (temp_fresh_wp x s) as [Hne Hfresh].
  set (tmp := fresh ({[x]} ∪ dom (wps s))) in *.
  specialize (Hctor tmp Hne Hfresh). unfold spec in Hctor.
  destruct (ctor tmp s) as [[] s1| | |]; try done; [|by intros [? _]].
  destruct Hctor as (Hprec & Hpost & Hmt & Hmx & Hsz).
  destruct Hpost as [HI1 Hsp1 Hwp1 Hk1 Hq1].
  assert (room 0 s1) as Hroom1.
  { apply (room_step 0 s); [done|]. rewrite Hsp1, Hwp1.
    rewrite map_size_insert_None by done. lia. }
  pose proof (weak_ptr_swap_spec tmp x s1 HI1) as Hswap.
  unfold spec in Hswap.
  destruct (weak_ptr_swap tmp x s1) as [[] s2| | |]; try done.
  2:{ intros [_ Hx]. apply Hswap. rewrite Hwp1. split.
      - rewrite lookup_insert_eq. by eexists.
      - by rewrite lookup_insert_ne, Hmx. }
  destruct Hswap as (_ & a & px & Ha & Hpx & Hk2 & Hpost2).
  rewrite Hwp1, lookup_insert_eq in Ha. injection Ha as <-.
  rewrite Hwp1, lookup_insert_ne, Hmx in Hpx by done.
  destruct Hpost2 as [HI2 Hsp2 Hwp2 _ Hq2].
  assert (room 0 s2) as Hroom2.
  { unfold room in *. rewrite Hsp2, Hwp2.
    rewrite !map_size_insert_Some; [done|..].
    - rewrite Hwp1, lookup_insert_eq. by eexists.
    - rewrite lookup_insert_ne by done. rewrite Hwp1, lookup_insert_ne by done.
      rewrite Hmx, Hpx. by eexists. }
  pose proof (weak_ptr_dtor_spec tmp s2 HI2 Hroom2) as Hd.
  unfold spec in Hd.
  assert (wps s2 !! tmp = Some px) as Htmp2.
  { rewrite Hwp2, lookup_insert_ne by done. by rewrite lookup_insert_eq. }
  destruct (weak_ptr_dtor tmp s2) as [[] s3| | |]; try done.
  2:{ exfalso. apply Hd. by eexists. }
  destruct Hd as (_ & Hk3 & Hpost3).
  split; [done|]. split; [done|].
  split; [by rewrite Hmx, Hpx|].
  assert (delete tmp (wps s2) = <[x := q]> m) as Hfinal.
  { rewrite Hwp2, Hwp1, insert_insert_eq.
    rewrite insert_insert_ne by done. rewrite delete_insert_eq.
    rewrite delete_insert_ne by done. by rewrite delete_id. }
  eapply (step_post_trans s s1); [by split|].
  eapply (step_post_trans s1 s2); [split; try done; lia|].
  destruct Hpost3 as [HI3 Hsp3 Hwp3 Hk3' Hq3].
  split; try done.
  - by rewrite Hsp3, Hsp2.
  - by rewrite Hwp3.
Qed.

(** The temporaries of the assignments and of [reset]. *)

Lemma temp_default_sp x tmp s :
  Inv s → sps s !! tmp = None →
  spec (shared_ptr_default tmp) s True
       (λ _ s1, temp_post_sp x tmp s s1 null_sp (sps s) []) (λ _, False).
Proof.
  intros HI Hfresh. pose proof (shared_ptr_default_spec tmp s HI) as H.
  pose proof (shared_ptr_default_trace tmp s) as Ht.
  unfold spec in *. destruct (shared_ptr_default tmp s); try done.
  destruct H as (_ & _ & H). split; [done|]. split; [done|].
  by rewrite app_nil_r.
Qed.

Lemma temp_copy_sp x y tmp s :
  Inv s → room 1 s → sps s !! tmp = None →
  spec (shared_ptr_copy tmp y) s (is_Some (sps s !! y))
       (λ _ s1, temp_post_sp x tmp s s1 (sp_at s y) (sps s) []) (λ _, False).
Proof.
  intros HI Hroom Hfresh.
  pose proof (shared_ptr_copy_spec tmp y s HI Hroom) as H.
  pose proof (shared_ptr_copy_trace tmp y s) as Ht.
  unfold spec in *. destruct (shared_ptr_copy tmp y s); try done.
  - destruct H as ([? _] & q & Hy & _ & H). split; [done|].
    unfold sp_at. rewrite Hy. simpl. split; [done|]. by rewrite app_nil_r.
  - intros ?. by apply H.
Qed.

Lemma temp_move_sp x y tmp s :
  Inv s → sps s !! tmp = None → x ≠ y →
  spec (shared_ptr_move tmp y) s (is_Some (sps s !! y))
       (λ _ s1, temp_post_sp x tmp s s1 (sp_at s y)
                  (<[y := null_sp]> (sps s)) [])
       (λ _, False).
Proof.
  intros HI Hfresh Hne.
  pose proof (shared_ptr_move_spec tmp y s HI) as H.
  pose proof (shared_ptr_move_trace tmp y s) as Ht.
  unfold spec in *. destruct (shared_ptr_move tmp y s); try done.
  - destruct H as ([? _] & q & Hy & _ & H). split; [done|].
    assert (tmp ≠ y) by congruence.
    rewrite insert_insert_ne in H by done.
    unfold sp_at. rewrite Hy. simpl. split; [done|].
    rewrite !lookup_insert_ne by done. split; [done|]. split; [done|].
    split; [|by rewrite app_nil_r].
    apply map_size_insert_Some. by eexists.
  - intros ?. by apply H.
Qed.

Lemma temp_adopt_sp x p d r tmp s :
  Inv s → sps s !! tmp = None →
  spec (shared_ptr_adopt tmp p d r) s True
       (λ _ s1, temp_post_sp x tmp s s1
                  {| sp_ptr := p; sp_cb := N.succ (brk s) |} (sps s)
                  [EvNew (N.succ (brk s)) (cb_separate p d)])
       (λ s', r = new_throws ∧ brk s' = brk s ∧ cbs s' = cbs s ∧
          trace s' = trace s ++ [EvCleanup d p] ∧
          step_post s s' (sps s) (wps s) None).
Proof.
  intros HI Hfresh. pose proof (shared_ptr_adopt_spec tmp p d r s HI) as H.
  destruct r.
  - pose proof (shared_ptr_adopt_trace tmp p d s) as Ht.
    unfold spec in *.
    destruct (shared_ptr_adopt tmp p d new_ok s); try done.
    destruct H as (_ & _ & _ & H). by split.
  - unfold spec in *.
    destruct (shared_ptr_adopt tmp p d new_throws s); try done.
    by destruct H as (_ & ? & _).
Qed.

Lemma temp_default_wp x tmp s :
  Inv s → wps s !! tmp = None →
  spec (weak_ptr_default tmp) s True
       (λ _ s1, temp_post_wp x tmp s s1 null_wp (wps s)) (λ _, False).
Proof.
  intros HI Hfresh. pose proof (weak_ptr_default_spec tmp s HI) as H.
  unfold spec in *. destruct (weak_ptr_default tmp s); try done.
  destruct H as (_ & _ & H). by split.
Qed.

Lemma temp_copy_wp x y tmp s :
  Inv s → room 1 s → wps s !! tmp = None →
  spec (weak_ptr_copy tmp y) s (is_Some (wps s !! y))
       (λ _ s1, temp_post_wp x tmp s s1 (wp_at s y) (wps s)) (λ _, False).
Proof.
  intros HI Hroom Hfresh.
  pose proof (weak_ptr_copy_spec tmp y s HI Hroom) as H.
  unfold spec in *. destruct (weak_ptr_copy tmp y s); try done.
  - destruct H as ([? _] & q & Hy & _ & H). split; [done|].
    unfold wp_at. rewrite Hy. by split.
  - intros ?. by apply H.
Qed.

Lemma temp_from_shared_wp x y tmp s :
  Inv s → room 1 s → wps s !! tmp = None →
  spec (weak_ptr_from_shared tmp y) s (is_Some (sps s !! y))
       (λ _ s1, temp_post_wp x tmp s s1
                  {| wp_ptr := sp_ptr (sp_at s y); wp_cb := sp_cb (sp_at s y) |}
                  (wps s))
       (λ _, False).
Proof.
  intros HI Hroom Hfresh.
  pose proof (weak_ptr_from_shared_spec tmp y s HI Hroom) as H.
  unfold spec in *. destruct (weak_ptr_from_shared tmp y s); try done.
  - destruct H as ([? _] & q & Hy & _ & H). split; [done|].
    unfold sp_at. rewrite Hy. by split.
  - intros ?. by apply H.
Qed.

Lemma temp_move_wp x y tmp s :
  Inv s → wps s !! tmp = None → x ≠ y →
  spec (weak_ptr_move tmp y) s (is_Some (wps s !! y))
       (λ _ s1, temp_post_wp x tmp s s1 (wp_at s y)
                  (<[y := null_wp]> (wps s)))
       (λ _, False).
Proof.
  intros HI Hfresh Hne.
  pose proof (weak_ptr_move_spec tmp y s HI) as H.
  unfold spec in *. destruct (weak_ptr_move tmp y s); try done.
  - destruct H as ([? _] & q & Hy & _ & H). split; [done|].
    assert (tmp ≠ y) by congruence.
    rewrite insert_insert_ne in H by done.
    unfold wp_at. rewrite Hy. simpl. split; [done|].
    rewrite !lookup_insert_ne by done. split; [done|]. split; [done|].
    apply map_size_insert_Some. by eexists.
  - intros ?. by apply H.
Qed.

Lemma spec_mono {A} (m : M A) s (pre pre' : Prop) post post' exn exn' :
  spec m s pre post exn →
  (pre' → pre) →
  (∀ a s', pre → post a s' → pre' ∧ post' a s') →
  (∀ s', exn s' → exn' s') →
  spec m s pre' post' exn'.
Proof.
  unfold spec. intros H Hpre Hpost Hexn.
  destruct (m s); try done.
  - destruct H. by apply Hpost.
  - by apply Hexn.
  - intros ?. by apply H, Hpre.
Qed.

Lemma size_insert_le {A} (m : gmap N A) x v : (size (<[x := v]> m) ≤ S (size m))%nat.
Proof. rewrite map_size_insert. destruct (m !! x); simpl; lia. Qed.

Lemma size_delete_le {A} (m : gmap N A) x : (size (delete x m) ≤ size m)%nat.
Proof. rewrite map_size_delete. destruct (m !! x); simpl; lia. Qed.

Lemma op_post_intro o s s' msp mwp c0 :
  step_post s s' msp mwp c0 →
  (size msp + size mwp ≤ S (size (sps s) + size (wps s)))%nat →
  (∀ c, c0 = Some c → c ≤ brk s ∧ releases_owner o = true) →
  op_post o s s'.
Proof.
  intros [? <- <- ? ?] ? ?. split; [done|]. split; [done|]. split; [done|].
  by exists c0.
Qed.

Lemma owner_born s x p :
  Inv s → sps s !! x = Some p → sp_cb p ≤ brk s.
Proof.
  intros HI Hx. destruct (decide (sp_cb p = 0)) as [->|Hnz]; [lia|].
  by destruct (Inv_owner_live s x p HI Hx Hnz) as (? & ? & ? & ?).
Qed.

Lemma op_post_refl o s : Inv s → op_post o s s.
Proof.
  intros HI. split; [done|]. split; [lia|]. split; [lia|].
  exists None. split; [by apply quiet_but_refl|done].
Qed.

Lemma op_post_temp_sp o s s' x q m evs :
  Inv s → releases_owner o = true →
  (∃ px evs', sps s !! x = Some px ∧ size m = size (sps s) ∧
     m !! x = Some px ∧ trace s' = trace s ++ evs ++ evs' ∧
     (∀ e, e ∈ evs' →
           (∃ h, e = EvHook (sp_cb px) h) ∨ e = EvFree (sp_cb px)) ∧
     step_post s s' (<[x := q]> m) (wps s) (Some (sp_cb px))) →
  op_post o s s'.
Proof.
  intros HI Hrel (px & evs' & Hx & Hsz & Hmx & _ & _ & Hpost).
  eapply op_post_intro; [done| |].
  - rewrite map_size_insert_Some by (by eexists). lia.
  - intros c [= <-]. split; [by eapply owner_born|done].
Qed.

Lemma op_post_temp_wp o s s' x q m :
  size m = size (wps s) ∧ is_Some (m !! x) ∧
    step_post s s' (sps s) (<[x := q]> m) None →
  op_post o s s'.
Proof.
  intros (Hsz & Hmx & Hpost).
  eapply op_post_intro; [done| |done].
  rewrite map_size_insert_Some by done. lia.
Qed.

Lemma exec_adopt o x p d r s :
  Inv s →
  spec (shared_ptr_adopt x p d r) s (sps s !! x = None)
       (λ _ s', op_post o s s') (λ s', op_post o s s').
Proof.
  intros HI.
  eapply spec_mono; [by apply shared_ptr_adopt_spec|done| |].
  - intros _ s' Hpre (_ & _ & H). split; [done|].
    eapply op_post_intro; [done| |done].
    pose proof (size_insert_le (sps s) x
                  {| sp_ptr := p; sp_cb := N.succ (brk s) |}). lia.
  - intros s' (_ & _ & _ & _ & H).
    eapply op_post_intro; [done|lia|done].
Qed.

Lemma exec_reset_del o x p d r s :
  Inv s → room 1 s → releases_owner o = true →
  spec (shared_ptr_reset_del x p d r) s (is_Some (sps s !! x))
       (λ _ s', op_post o s s') (λ s', op_post o s s').
Proof.
  intros HI Hroom Hrel. unfold shared_ptr_reset_del.
  eapply spec_mono.
  - eapply with_temp_sp_spec; [done..|].
    intros tmp _ Hfresh. by apply temp_adopt_sp.
  - by intros ?.
  - intros _ s' [_ Hx] H. split; [done|]. by eapply op_post_temp_sp.
  - intros s' (_ & _ & _ & _ & H).
    eapply op_post_intro; [done|lia|done].
Qed.

Lemma exec_spec o s :
  Inv s → room 1 s →
  spec (exec o) s (wf o s) (λ _ s', op_post o s s') (λ s', op_post o s s').
Proof.
  intros HI Hroom. assert (room 0 s) as Hroom0 by (unfold room in *; lia).
  destruct o; simpl.
  - (* SpDefault *)
    eapply spec_mono; [by apply shared_ptr_default_spec|done| |done].
    intros _ s' Hpre [_ H]. split; [done|].
    eapply op_post_intro; [done| |done].
    pose proof (size_insert_le (sps s) x
                  {| sp_ptr := nullptr; sp_cb := nullptr |}). lia.
  - (* SpAdopt *) by apply exec_adopt.
  - (* SpAdoptDefault *) by apply exec_adopt.
  - (* SpMake *)
    eapply spec_mono; [by apply make_shared_spec|done| |].
    + intros _ s' Hpre (_ & _ & H). split; [done|].
      eapply op_post_intro; [done| |done].
      pose proof (size_insert_le (sps s) x
        {| sp_ptr := cb_inplace_get (N.succ (brk s));
           sp_cb := N.succ (brk s) |}). lia.
    + intros s' [_ ->]. by apply op_post_refl.
  - (* SpAlias *)
    eapply spec_mono; [by apply shared_ptr_alias_spec|done| |done].
    intros _ s' Hpre (q & _ & _ & H). split; [done|].
    eapply op_post_intro; [done| |done].
    pose proof (size_insert_le (sps s) x
                  {| sp_ptr := ptr; sp_cb := sp_cb q |}). lia.
  - (* SpCopy *)
    eapply spec_mono; [by apply shared_ptr_copy_spec|done| |done].
    intros _ s' Hpre (q & _ & _ & H). split; [done|].
    eapply op_post_intro; [done| |done].
    pose proof (size_insert_le (sps s) x q). lia.
  - (* SpMove *)
    eapply spec_mono; [by apply shared_ptr_move_spec|done| |done].
    intros _ s' Hpre (q & Hy & _ & H). split; [done|].
    eapply op_post_intro; [done| |done].
    destruct Hpre as [_ Hx]. assert (x ≠ y) as Hxy by congruence.
    rewrite map_size_insert_Some
      by (rewrite lookup_insert_ne by done; by eexists).
    pose proof (size_insert_le (sps s) x q). lia.
  - (* SpDtor *)
    eapply spec_mono; [by apply shared_ptr_dtor_spec|done| |done].
    intros _ s' Hpre (p & Hx & _ & H). split; [done|].
    eapply op_post_intro; [done| |].
    + pose proof (size_delete_le (sps s) x). lia.
    + intros c [= <-]. split; [by eapply owner_born|done].
  - (* SpAssign *)
    unfold shared_ptr_assign. destruct (decide (x = y)) as [->|Hne].
    { unfold spec, ret. split; [by left|by apply op_post_refl]. }
    eapply spec_mono.
    + eapply with_temp_sp_spec; [done..|].
      intros tmp _ Hfresh. by apply temp_copy_sp.
    + by intros [?|?].
    + intros _ s' [Hy Hx] H. split; [by right|]. by eapply op_post_temp_sp.
    + done.
  - (* SpMoveAssign *)
    unfold shared_ptr_move_assign. destruct (decide (x = y)) as [->|Hne].
    { unfold spec, ret. split; [by left|by apply op_post_refl]. }
    eapply spec_mono.
    + eapply with_temp_sp_spec; [done..|].
      intros tmp _ Hfresh. by apply temp_move_sp.
    + by intros [?|?].
    + intros _ s' [Hy Hx] H. split; [by right|]. by eapply op_post_temp_sp.
    + done.
  - (* SpReset *)
    unfold shared_ptr_reset. eapply spec_mono.
    + eapply with_temp_sp_spec; [done..|].
      intros tmp _ Hfresh. by apply temp_default_sp.
    + by intros ?.
    + intros _ s' [_ Hx] H. split; [done|]. by eapply op_post_temp_sp.
    + done.
  - (* SpResetPtr *) by apply exec_reset_del.
  - (* SpResetDel *) by apply exec_reset_del.
  - (* SpSwap *)
    eapply spec_mono; [by apply shared_ptr_swap_spec|done| |done].
    intros _ s' Hpre (a & b & Hx & Hy & _ & H). split; [done|].
    eapply op_post_intro; [done| |done].
    rewrite !map_size_insert_Some; [lia|by eexists|].
    destruct (decide (x = y)) as [->|?].
    * rewrite lookup_insert_eq. by eexists.
    * rewrite lookup_insert_ne by done. by eexists.
  - (* WpDefault *)
    eapply spec_mono; [by apply weak_ptr_default_spec|done| |done].
    intros _ s' Hpre [_ H]. split; [done|].
    eapply op_post_intro; [done| |done].
    pose proof (size_insert_le (wps s) w
                  {| wp_ptr := nullptr; wp_cb := nullptr |}). lia.
  - (* WpCopy *)
    eapply spec_mono; [by apply weak_ptr_copy_spec|done| |done].
    intros _ s' Hpre (q & _ & _ & H). split; [done|].
    eapply op_post_intro; [done| |done].
    pose proof (size_insert_le (wps s) w q). lia.
  - (* WpFromShared *)
    eapply spec_mono; [by apply weak_ptr_from_shared_spec|done| |done].
    intros _ s' Hpre (q & _ & _ & H). split; [done|].
    eapply op_post_intro; [done| |done].
    pose proof (size_insert_le (wps s) w
                  {| wp_ptr := sp_ptr q; wp_cb := sp_cb q |}). lia.
  - (* WpMove *)
    eapply spec_mono; [by apply weak_ptr_move_spec|done| |done].
    intros _ s' Hpre (q & Hy & _ & H). split; [done|].
    eapply op_post_intro; [done| |done].
    destruct Hpre as [_ Hx]. assert (w ≠ v) as Hxy by congruence.
    rewrite map_size_insert_Some
      by (rewrite lookup_insert_ne by done; by eexists).
    pose proof (size_insert_le (wps s) w q). lia.
  - (* WpDtor *)
    eapply spec_mono; [by apply weak_ptr_dtor_spec|done| |done].
    intros _ s' Hpre (_ & H). split; [done|].
    eapply op_post_intro; [done| |done].
    pose proof (size_delete_le (wps s) w). lia.
  - (* WpAssign *)
    unfold weak_ptr_assign. destruct (decide (w = v)) as [->|Hne].
    { unfold spec, ret. split; [by left|by apply op_post_refl]. }
    eapply spec_mono.
    + eapply with_temp_wp_spec; [done..|].
      intros tmp _ Hfresh. by apply temp_copy_wp.
    + by intros [?|?].
    + intros _ s' [Hy Hx] H. split; [by right|]. by eapply op_post_temp_wp.
    + done.
  - (* WpAssignShared *)
    unfold weak_ptr_assign_shared. eapply spec_mono.
    + eapply with_temp_wp_spec; [done..|].
      intros tmp _ Hfresh. by apply temp_from_shared_wp.
    + done.
    + intros [] s' Hp H. split; [done|]. by eapply op_post_temp_wp.
    + done.
  - (* WpMoveAssign *)
    unfold weak_ptr_move_assign. destruct (decide (w = v)) as [->|Hne].
    { unfold spec, ret. split; [by left|by apply op_post_refl]. }
    eapply spec_mono.
    + eapply with_temp_wp_spec; [done..|].
      intros tmp _ Hfresh. by apply temp_move_wp.
    + by intros [?|?].
    + intros _ s' [Hy Hx] H. split; [by right|]. by eapply op_post_temp_wp.
    + done.
  - (* WpReset *)
    unfold weak_ptr_reset. eapply spec_mono.
    + eapply with_temp_wp_spec; [done..|].
      intros tmp _ Hfresh. by apply temp_default_wp.
    + by intros ?.
    + intros _ s' [_ Hx] H. split; [done|]. by eapply op_post_temp_wp.
    + done.
  - (* WpSwap *)
    eapply spec_mono; [by apply weak_ptr_swap_spec|done| |done].
    intros _ s' Hpre (a & b & Hx & Hy & _ & H). split; [done|].
    eapply op_post_intro; [done| |done].
    rewrite !map_size_insert_Some; [lia|by eexists|].
    destruct (decide (w = v)) as [->|?].
    * rewrite lookup_insert_eq. by eexists.
    * rewrite lookup_insert_ne by done. by eexists.
  - (* WpLock *)
    eapply spec_mono; [by apply lock_spec|done| |done].
    intros _ s' Hpre (p & q & _ & _ & _ & H). split; [done|].
    eapply op_post_intro; [done| |done].
    pose proof (size_insert_le (sps s) x q). lia.
Qed.

(** ** Programs preserve the invariant *)

Lemma step_spec o s s' :
  Inv s → room 1 s → step o s = Some s' → op_post o s s'.
Proof.
  intros HI Hroom Hstep. pose proof (exec_spec o s HI Hroom) as H.
  unfold step, spec in *. destruct (exec o s); try done.
  - injection Hstep as <-. by destruct H.
  - by injection Hstep as <-.
Qed.

(** A well-formed operation goes through: it neither fails an assert nor
    has undefined behaviour. *)
Lemma step_progress o s :
  Inv s → room 1 s → wf o s → is_Some (step o s).
Proof.
  intros HI Hroom Hwf. pose proof (exec_spec o s HI Hroom) as H.
  unfold step, spec in *. destruct (exec o s); try done.
Qed.

Lemma run_app ops1 ops2 s :
  run (ops1 ++ ops2) s = match run ops1 s with
                         | Some s' => run ops2 s'
                         | None => None
                         end.
Proof.
  revert s. induction ops1 as [|o ops1 IH]; intros s; simpl; [done|].
  destruct (step o s); [apply IH|done].
Qed.

Lemma run_inv ops s s' n :
  Inv s → N.of_nat (size (sps s) + size (wps s)) ≤ n →
  n + N.of_nat (length ops) ≤ SIZE_MAX →
  run ops s = Some s' →
  Inv s' ∧ N.of_nat (size (sps s') + size (wps s')) ≤ n + N.of_nat (length ops).
Proof.
  revert s n. induction ops as [|o ops IH]; intros s n HI Hn Hlen Hrun.
  - injection Hrun as <-. split; [done|]. simpl. lia.
  - simpl in Hrun. destruct (step o s) as [s1|] eqn:Hstep; [|done].
    simpl length in *.
    assert (room 1 s) as Hroom by (unfold room; lia).
    destruct (step_spec o s s1 HI Hroom Hstep) as (HI1 & _ & Hsz & _).
    destruct (IH s1 (n + 1) HI1) as [HI' Hn']; try done; try lia.
    split; [done|lia].
Qed.

Lemma reachable_inv s : reachable s → Inv s ∧ room 1 s.
Proof.
  intros (ops & Hlen & Hrun).
  destruct (run_inv ops init s 0 Inv_init) as [HI Hn]; try done; [lia|].
  split; [done|]. unfold room. lia.
Qed.

Lemma Inv_hooks s c :
  Inv s →
  hooks c (trace s)
  = if decide (born s c ∧ shared_of s c = 0) then 1%nat else 0%nat.
Proof.
  intros HI. pose proof (inv_addr s HI c) as H.
  unfold born, shared_of. destruct (cbs s !! c) as [b|]; simpl in H.
  - destruct H as (? & Hsh & _ & _ & _ & -> & _).
    destruct (decide (owners (sps s) c = 0%nat)).
    + rewrite decide_True; [done|]. split; [done|]. lia.
    + rewrite decide_False; [done|]. intros [_ ?]. lia.
  - destruct H as [_ H]. destruct (decide (0 < c ≤ brk s)).
    + rewrite decide_True by done. by destruct H.
    + rewrite decide_False by (by intros [? _]). by destruct H.
Qed.

Lemma Inv_frees s c :
  Inv s →
  frees c (trace s)
  = if decide (born s c ∧ cbs s !! c = None) then 1%nat else 0%nat.
Proof.
  intros HI. pose proof (inv_addr s HI c) as H.
  unfold born. destruct (cbs s !! c) as [b|]; simpl in H.
  - destruct H as (_ & _ & _ & _ & _ & _ & ->).
    by rewrite decide_False by (by intros [_ ?]).
  - destruct H as [_ H]. destruct (decide (0 < c ≤ brk s)).
    + rewrite decide_True by done. by destruct H.
    + rewrite decide_False by (by intros [? _]). by destruct H as (_ & ? & _).
Qed.

Lemma unborn_not_live s c : Inv s → ¬ born s c → cbs s !! c = None.
Proof.
  intros HI Hb. pose proof (inv_addr s HI c) as H.
  destruct (cbs s !! c); [|done]. simpl in H. by destruct H as [? _].
Qed.

(** A block created by an operation is still owned when the operation
    returns. *)
Lemma newborn_owned o s s' c :
  Inv s → op_post o s s' → ¬ born s c → born s' c →
  hooks c (trace s') = 0%nat ∧ is_Some (cbs s' !! c) ∧ shared_of s' c ≠ 0.
Proof.
  intros HI (HI' & Hk & _ & c0 & (evs & Ht & Hq) & Hc0) Hnb Hb'.
  assert (hooks c (trace s') = 0%nat) as Hh.
  { rewrite Ht, hooks_app, (Inv_hooks s c HI).
    rewrite decide_False by (by intros [? _]).
    rewrite Hq; [done|]. intros <-. destruct (Hc0 c eq_refl) as [? _].
    unfold born in *. lia. }
  split; [done|]. rewrite (Inv_hooks s' c HI') in Hh.
  unfold shared_of in *. destruct (cbs s' !! c).
  - split; [by eexists|]. intros ?. by rewrite decide_True in Hh.
  - by rewrite decide_True in Hh.
Qed.

(** ** Properties of whole programs *)

Lemma born_mono o s s' c : op_post o s s' → born s c → born s' c.
Proof. intros (_ & ? & _) ?. unfold born in *. lia. Qed.

(** C1. For every program of constructions, copies, moves, assignments,
    resets and destructions of owning and observer pointers, and every
    control block [c]: [delete_object] has run on [c] once if [c] was
    created and its shared count has reached zero, and not at all
    otherwise; an operation adds a run exactly when it takes the shared
    count of [c] from non-zero to zero; an operation that destroys no
    owning pointer (so every operation on observers alone) adds none; and
    what ran is the stored deleter on the pointer the block was created
    with ([cb_separate]) or the destructor of the embedded object
    ([cb_inplace]). *)
Theorem hook_exactly_once_at_last_owner s o s' c :
  reachable s → step o s = Some s' →
  hooks c (trace s')
    = (if decide (born s' c ∧ shared_of s' c = 0) then 1%nat else 0%nat) ∧
  hooks c (trace s')
    = (hooks c (trace s) +
       if decide (shared_of s c ≠ 0%N ∧ shared_of s' c = 0%N)
       then 1 else 0)%nat ∧
  (releases_owner o = false → hooks c (trace s') = hooks c (trace s)) ∧
  (∀ h, EvHook c h ∈ trace s' →
        match h with
        | run_deleter d p => EvNew c (cb_separate p d) ∈ trace s'
        | run_dtor p =>
            p = cb_inplace_get c ∧ ∃ args, EvNew c (cb_inplace args) ∈ trace s'
        end).
Proof.
  intros Hreach Hstep. destruct (reachable_inv s Hreach) as [HI Hroom].
  pose proof (step_spec o s s' HI Hroom Hstep) as Hpost.
  pose proof Hpost as (HI' & Hk & _ & c0 & (evs & Ht & Hq) & Hc0).
  split; [by apply Inv_hooks|]. split; [|split].
  - destruct (decide (born s c)) as [Hb|Hb].
    + pose proof (born_mono o s s' c Hpost Hb) as Hb'.
      pose proof (Inv_hooks s c HI) as H1.
      pose proof (Inv_hooks s' c HI') as H2.
      rewrite Ht, hooks_app in H2 |- *.
      repeat case_decide; first [lia | exfalso; tauto].
    + rewrite (Inv_hooks s c HI), decide_False by (by intros [? _]).
      assert (shared_of s c = 0) as Hz.
      { unfold shared_of. by rewrite (unborn_not_live s c HI Hb). }
      rewrite decide_False by (by intros [? _]).
      destruct (decide (born s' c)) as [Hb'|Hb'].
      * by destruct (newborn_owned o s s' c HI Hpost Hb Hb') as [-> _].
      * rewrite (Inv_hooks s' c HI'). by rewrite decide_False by (by intros [? _]).
  - intros Hrel. rewrite Ht, hooks_app, Hq; [lia|].
    intros <-. destruct (Hc0 c eq_refl) as [_ ?]. congruence.
  - intros h Hin. destruct (inv_origin s' HI' c h Hin) as (v & Hv & ->).
    destruct v; simpl; [done|]. split; [done|]. by eexists.
Qed.

(** Deletion of control blocks in the programs of [exec], whose deleters
    and destructors perform no pointer operation.  For every such program
    mixing owning and observer pointers, and every
    control block [c]: [c] has been deleted once if it was created and is
    no longer allocated, and not at all otherwise; an operation deletes
    [c] exactly when [c] is allocated before it and not after it; an
    allocated block has the number of owning pointers linked to it as its
    shared count and the number of observers as its weak count, not both
    zero, whereas a created block no pointer links to is deallocated; and
    every deletion of [c] comes after the one run of [delete_object] on
    [c]. *)
Theorem block_deleted_once_after_hook s o s' c :
  reachable s → step o s = Some s' →
  frees c (trace s')
    = (if decide (born s' c ∧ cbs s' !! c = None) then 1%nat else 0%nat) ∧
  frees c (trace s')
    = (frees c (trace s) +
       if decide (is_Some (cbs s !! c) ∧ cbs s' !! c = None)
       then 1 else 0)%nat ∧
  (∀ b, cbs s' !! c = Some b →
        shared_cnt b = N.of_nat (owners (sps s') c) ∧
        weak_cnt b = N.of_nat (observers (wps s') c) ∧
        ¬ (shared_cnt b = 0 ∧ weak_cnt b = 0)) ∧
  (born s' c → owners (sps s') c = 0%nat → observers (wps s') c = 0%nat →
   cbs s' !! c = None) ∧
  (∀ t1 t2, trace s' = t1 ++ EvFree c :: t2 → hooks c t1 = 1%nat).
Proof.
  intros Hreach Hstep. destruct (reachable_inv s Hreach) as [HI Hroom].
  pose proof (step_spec o s s' HI Hroom Hstep) as Hpost.
  pose proof Hpost as (HI' & Hk & _ & c0 & (evs & Ht & Hq) & Hc0).
  split; [by apply Inv_frees|]. split; [|split; [|split]].
  - destruct (decide (born s c)) as [Hb|Hb].
    + pose proof (born_mono o s s' c Hpost Hb) as Hb'.
      pose proof (Inv_frees s c HI) as H1.
      pose proof (Inv_frees s' c HI') as H2.
      rewrite Ht, frees_app in H2 |- *.
      assert (is_Some (cbs s !! c) ∨ cbs s !! c = None) as Hcase.
      { destruct (cbs s !! c); [left; by eexists|by right]. }
      assert (cbs s !! c = None → ¬ is_Some (cbs s !! c)) as Hno.
      { intros -> [? ?]. done. }
      repeat case_decide; first [lia | exfalso; tauto].
    + rewrite (Inv_frees s c HI), decide_False by (by intros [? _]).
      rewrite (unborn_not_live s c HI Hb).
      rewrite decide_False by (by intros [[? ?] _]).
      destruct (decide (born s' c)) as [Hb'|Hb'].
      * destruct (newborn_owned o s s' c HI Hpost Hb Hb') as (_ & [b Hc] & _).
        rewrite (Inv_frees s' c HI'), Hc.
        by rewrite decide_False by (by intros [_ ?]).
      * rewrite (Inv_frees s' c HI').
        by rewrite decide_False by (by intros [? _]).
  - intros b Hb. pose proof (inv_addr s' HI' c) as H. rewrite Hb in H.
    destruct H as (_ & ? & ? & ? & _). split; [done|]. split; [done|]. lia.
  - intros Hb Ho Hw. pose proof (inv_addr s' HI' c) as H.
    destruct (cbs s' !! c); [|done]. simpl in H. lia.
  - intros t1 t2 Heq. by eapply (inv_order s' HI').
Qed.

(** ** Deleters and destructors that perform no pointer operation *)

Lemma bind_ext {A B} (m m' : M A) (k k' : A → M B) s :
  (∀ s, m s = m' s) → (∀ a s, k a s = k' a s) → bind m k s = bind m' k' s.
Proof. intros Hm Hk. unfold bind. rewrite Hm. destruct (m' s); auto. Qed.

Section Inert.

Variable user : hook → M unit.
Hypothesis user_inert : inert user.

Lemma delete_object_inert c s :
  delete_object_running user c s = delete_object c s.
Proof.
  unfold delete_object_running, delete_object.
  apply bind_ext; [done|]. intros b s1. apply bind_ext; [done|]. intros n s2.
  apply bind_ext; [done|]. intros [] s3. unfold bind, emit.
  by rewrite user_inert.
Qed.

Lemma shared_ptr_dtor_inert x s :
  shared_ptr_dtor_running user x s = shared_ptr_dtor x s.
Proof.
  unfold shared_ptr_dtor_running, shared_ptr_dtor.
  apply bind_ext; [done|]. intros p s1. apply bind_ext; [|done]. intros s2.
  destruct (decide (sp_cb p = nullptr)) as [?|Hnz]; [done|]. cbv zeta.
  apply bind_ext; [done|]. intros [] s3. apply bind_ext; [done|]. intros [] s4.
  apply bind_ext; [|done]. intros s5. apply bind_ext; [done|]. intros k s6.
  destruct (k =? 0); [apply delete_object_inert|done].
Qed.

Lemma shared_ptr_adopt_inert x p d r s :
  shared_ptr_adopt_running user x p d r s = shared_ptr_adopt x p d r s.
Proof.
  unfold shared_ptr_adopt_running, shared_ptr_adopt, try_catch.
  match goal with |- match ?m with _ => _ end = _ => destruct m end;
    try done.
  unfold bind, emit, throw. by rewrite user_inert.
Qed.

Lemma with_temp_sp_inert x ctor ctor' body s :
  (∀ tmp s, ctor tmp s = ctor' tmp s) →
  with_temp_sp_running user x ctor body s = with_temp_sp x ctor' body s.
Proof.
  intros H. unfold with_temp_sp_running, with_temp_sp. cbv zeta.
  apply bind_ext; [apply H|]. intros [] s1.
  apply bind_ext; [done|]. intros [] s2. apply shared_ptr_dtor_inert.
Qed.

Lemma exec_inert o s : exec_running user o s = exec o s.
Proof.
  destruct o; simpl; try done.
  - apply shared_ptr_adopt_inert.
  - apply shared_ptr_adopt_inert.
  - apply shared_ptr_dtor_inert.
  - unfold shared_ptr_assign. destruct (decide (x = y)); [done|].
    by apply with_temp_sp_inert.
  - unfold shared_ptr_move_assign. destruct (decide (x = y)); [done|].
    by apply with_temp_sp_inert.
  - by apply with_temp_sp_inert.
  - apply with_temp_sp_inert. intros. apply shared_ptr_adopt_inert.
  - apply with_temp_sp_inert. intros. apply shared_ptr_adopt_inert.
Qed.

Lemma step_inert o s : step_running user o s = step o s.
Proof. unfold step_running, step. by rewrite exec_inert. Qed.

Lemma run_inert ops s : run_running user ops s = run ops s.
Proof.
  revert s. induction ops as [|o ops IH]; intros s; simpl; [done|].
  rewrite step_inert. destruct (step o s); [apply IH|done].
Qed.

Lemma reachable_inert s : reachable_running user s → reachable s.
Proof.
  intros (ops & Hlen & Hrun). exists ops. split; [done|].
  by rewrite <-run_inert.
Qed.

End Inert.

(** C2.  What the code does when the managed object holds the last
    observer of its own control block.  An owning pointer [x] is the only
    owner and an observer [w] the only observer of a block, and the deleter
    or destructor of the managed object destroys [w].  When [x] is
    destroyed, the shared count reaches zero and [delete_object] runs; the
    destructor of [w], called from inside it, finds both counts zero and
    deletes the block, so the block is deleted while the destruction hook
    is still running; [~shared_ptr] then asks the deleted block for its
    counts, which is undefined behaviour. *)
Theorem block_freed_inside_hook user x w p q b s :
  sps s !! x = Some p → sp_cb p ≠ nullptr →
  wps s !! w = Some q → wp_cb q = sp_cb p →
  cbs s !! sp_cb p = Some b → shared_cnt b = 1 → weak_cnt b = 1 →
  user (hook_of (sp_cb p) (variant b)) = weak_ptr_dtor w →
  (∃ s1,
     (store_sp x {| sp_ptr := nullptr; sp_cb := sp_cb p |} ;;
      release_shared (sp_cb p) ;;
      delete_object_running user (sp_cb p)) s = Ret () s1 ∧
     cbs s1 !! sp_cb p = None ∧ wps s1 = delete w (wps s) ∧
     trace s1 = trace s ++ [EvHook (sp_cb p) (hook_of (sp_cb p) (variant b));
                            EvFree (sp_cb p)] ∧
     get_shared_cnt (sp_cb p) s1 = Undefined) ∧
  shared_ptr_dtor_running user x s = Undefined.
Proof.
  intros Hx Hp Hw Hq Hb Hsh Hwk Huser.
  destruct b as [sh wk v]. simpl in *. subst sh wk.
  assert (size_decr 1 = 0) as Hdecr by by vm_compute.
  split.
  - unfold store_sp, release_shared, delete_object_running, get_shared_cnt,
      bind, load_cb, store_cb, assert, emit, ret.
    repeat (first [ rewrite lookup_insert_eq | rewrite Hx | rewrite Hb
                  | rewrite Hdecr | rewrite Huser ]; simpl).
    unfold weak_ptr_dtor, store_wp, release_weak, get_shared_cnt,
      get_weak_cnt, delete_cb, end_wp, bind, load_wp, load_cb, store_cb,
      assert, ret. simpl.
    repeat (first [ rewrite lookup_insert_eq | rewrite Hw | rewrite Hq
                  | rewrite Hdecr | rewrite decide_False by congruence ];
            simpl).
    eexists. split; [done|]. simpl.
    rewrite lookup_delete_eq. split; [done|].
    rewrite !insert_insert_eq, delete_insert_eq. split; [done|].
    by rewrite <-app_assoc.
  - unfold shared_ptr_dtor_running, store_sp, release_shared,
      delete_object_running, get_shared_cnt, bind, load_sp, load_cb,
      store_cb, assert, emit, ret.
    repeat (first [ rewrite lookup_insert_eq | rewrite Hx | rewrite Hb
                  | rewrite Hdecr | rewrite Huser
                  | rewrite decide_False by congruence ]; simpl).
    unfold weak_ptr_dtor, store_wp, release_weak, get_shared_cnt,
      get_weak_cnt, delete_cb, end_wp, bind, load_wp, load_cb, store_cb,
      assert, ret. simpl.
    repeat (first [ rewrite lookup_insert_eq | rewrite Hw | rewrite Hq
                  | rewrite Hdecr | rewrite decide_False by congruence ];
            simpl).
    by rewrite lookup_delete_eq.
Qed.

(** ** Properties of single operations *)

(** C3. When the control block cannot be allocated, the adopting
    constructor calls the supplied deleter once on the supplied pointer,
    then lets the exception leave; no owning pointer and no control block
    come to exist. *)
Theorem adopt_failure_runs_deleter x p d s :
  shared_ptr_adopt x p d new_throws s
  = Throw {| cbs := cbs s; sps := sps s; wps := wps s; brk := brk s;
             trace := trace s ++ [EvCleanup d p] |}.
Proof. reflexivity. Qed.

Lemma cb_inplace_ctor_named args :
  cb_inplace_ctor (map named_parameter args) = map (λ a, (a.1, lvalue)) args.
Proof.
  unfold cb_inplace_ctor. rewrite map_map. by apply map_ext.
Qed.

(** What [make_shared] does when the new-expression completes: one block
    is allocated, the object is constructed in it, the shared count is 1,
    and the result points at the embedded storage and is linked to the
    block.  Every argument reaches the constructor as an lvalue. *)
Lemma make_shared_steps dst args s :
  sps s !! dst = None →
  ∃ s', make_shared dst args new_ok s = Ret () s' ∧
    cbs s' !! N.succ (brk s)
      = Some {| shared_cnt := 1; weak_cnt := 0;
                variant := cb_inplace (map (λ a, (a.1, lvalue)) args) |} ∧
    sps s' = <[dst := {| sp_ptr := cb_inplace_get (N.succ (brk s));
                         sp_cb := N.succ (brk s) |}]> (sps s).
Proof.
  intros Hdst. unfold make_shared, bind, new_cb, inc_shared, bind, load_cb,
    store_cb, shared_ptr_raw, init_sp. simpl.
  rewrite lookup_insert_eq. simpl. rewrite Hdst. eexists. split; [done|].
  simpl. rewrite lookup_insert_eq, cb_inplace_ctor_named. done.
Qed.

(** C5, at an rvalue argument: [make_shared<Y>(std::move(v))] hands [v] to
    the constructor of [Y] as an lvalue. *)
Theorem make_shared_rvalue_arrives_as_lvalue :
  ∃ s', make_shared 1 [(7, rvalue)] new_ok init = Ret () s' ∧
        cbs s' !! 1 = Some {| shared_cnt := 1; weak_cnt := 0;
                              variant := cb_inplace [(7, lvalue)] |} ∧
        sps s' !! 1 = Some {| sp_ptr := cb_inplace_get 1; sp_cb := 1 |}.
Proof. eexists. split; [reflexivity|]. split; reflexivity. Qed.

(** C6, in the form that holds of the code.  Adopting a null pointer with
    a deleter allocates a control block: the control-block link is not
    null, the raw pointer is, the conversion to bool is false and
    [use_count] is 1, where a default-constructed pointer reports 0;
    destroying it calls the deleter on the null pointer and frees the
    block, where destroying a default-constructed pointer does nothing. *)
Theorem null_adopt_owns_a_block x d s :
  sps s !! x = None →
  (∃ s1 s2,
     shared_ptr_adopt x nullptr d new_ok s = Ret () s1 ∧
     sps s1 !! x = Some {| sp_ptr := nullptr; sp_cb := N.succ (brk s) |} ∧
     N.succ (brk s) ≠ nullptr ∧
     cbs s1 !! N.succ (brk s)
       = Some {| shared_cnt := 1; weak_cnt := 0;
                 variant := cb_separate nullptr d |} ∧
     operator_bool x s1 = Ret false s1 ∧
     use_count x s1 = Ret 1 s1 ∧
     shared_ptr_dtor x s1 = Ret () s2 ∧
     trace s2 = trace s1 ++ [EvHook (N.succ (brk s)) (run_deleter d nullptr);
                             EvFree (N.succ (brk s))]) ∧
  (∃ s1 s2,
     shared_ptr_default x s = Ret () s1 ∧
     sps s1 !! x = Some {| sp_ptr := nullptr; sp_cb := nullptr |} ∧
     operator_bool x s1 = Ret false s1 ∧
     use_count x s1 = Ret 0 s1 ∧
     shared_ptr_dtor x s1 = Ret () s2 ∧
     trace s2 = trace s1).
Proof.
  intros Hx. split.
  - unfold shared_ptr_adopt, try_catch, bind, new_cb, init_sp, inc_shared,
      bind, load_cb, store_cb. simpl. rewrite Hx. simpl.
    rewrite lookup_insert_eq. simpl.
    eexists _, _. split; [done|]. simpl.
    rewrite !lookup_insert_eq. split; [done|]. split; [unfold nullptr; lia|].
    split; [done|].
    unfold operator_bool, shared_ptr_get, use_count, get_shared_cnt, bind,
      load_sp, load_cb, ret. simpl. rewrite !lookup_insert_eq. simpl.
    rewrite decide_False by (unfold nullptr; lia). simpl.
    rewrite !lookup_insert_eq. simpl.
    split; [done|]. split; [done|].
    unfold shared_ptr_dtor, bind, load_sp. simpl.
    rewrite lookup_insert_eq. simpl.
    rewrite decide_False by (unfold nullptr; lia).
    unfold store_sp, release_shared, get_shared_cnt, get_weak_cnt,
      delete_object, delete_cb, end_sp, get_shared_cnt, bind, load_cb,
      store_cb, assert, emit, ret. simpl.
    repeat (rewrite lookup_insert_eq; simpl).
    split; [reflexivity|]. simpl. by rewrite <-app_assoc.
  - unfold shared_ptr_default, init_sp. rewrite Hx.
    eexists _, _. split; [done|]. simpl. rewrite lookup_insert_eq.
    split; [done|].
    unfold operator_bool, shared_ptr_get, use_count, shared_ptr_dtor, bind,
      load_sp, ret, end_sp. simpl. rewrite !lookup_insert_eq. simpl.
    rewrite lookup_insert_eq. done.
Qed.

(** C10. The aliasing constructor applied to a source without control
    block stores the given raw pointer with a null control-block link and
    touches nothing else; [use_count] is 0, the conversion to bool tells
    whether the raw pointer is non-null, and the destructor releases
    nothing: no event, no change of any control block. *)
Theorem alias_of_empty_source x y ptr q s :
  sps s !! y = Some q → sp_cb q = nullptr → sps s !! x = None →
  ∃ s1 s2,
    shared_ptr_alias x y ptr s = Ret () s1 ∧
    sps s1 = <[x := {| sp_ptr := ptr; sp_cb := nullptr |}]> (sps s) ∧
    cbs s1 = cbs s ∧ trace s1 = trace s ∧
    use_count x s1 = Ret 0 s1 ∧
    operator_bool x s1 = Ret (negb (ptr =? nullptr)) s1 ∧
    (ptr ≠ nullptr → operator_bool x s1 = Ret true s1) ∧
    shared_ptr_dtor x s1 = Ret () s2 ∧
    cbs s2 = cbs s ∧ trace s2 = trace s ∧ sps s2 = sps s ∧ wps s2 = wps s.
Proof.
  intros Hy Hq Hx.
  unfold shared_ptr_alias, bind, load_sp, init_sp. rewrite Hy, Hx, Hq.
  rewrite decide_True by done. unfold ret.
  eexists _, _. split; [done|]. simpl. do 3 (split; [done|]).
  unfold operator_bool, shared_ptr_get, use_count, shared_ptr_dtor, bind,
    load_sp, ret, end_sp. simpl. rewrite !lookup_insert_eq. simpl.
  rewrite lookup_insert_eq. do 2 (split; [done|]). split.
  { intros Hne. by apply N.eqb_neq in Hne as ->. }
  split; [done|]. simpl. by rewrite delete_insert_id.
Qed.

Lemma shared_of_null s : Inv s → shared_of s nullptr = 0.
Proof. intros HI. unfold shared_of, nullptr. by rewrite (Inv_null s HI). Qed.

Lemma shared_of_bound s c : Inv s → room 1 s → shared_of s c < SIZE_MAX.
Proof.
  intros HI Hroom. apply room_sps in Hroom. unfold shared_of.
  pose proof (inv_addr s HI c) as H.
  destruct (cbs s !! c) as [b|]; [|done]. simpl in H.
  destruct H as (_ & -> & _).
  pose proof (cnt_le_size (λ q, sp_cb q = c) (sps s)) as Hle.
  fold (owners (sps s) c) in Hle. lia.
Qed.

(** C4. In every state a program reaches, [lock] on a live observer
    returns, and does not throw.  When the observer has no control block
    or the shared count of its block is zero, the result is an empty
    owning pointer ([use_count] 0, conversion to bool false) and no count
    changes; otherwise the result has the observer's raw pointer and
    control block, and the shared count of the block is one more than
    before the call. *)
Theorem lock_empty_or_one_more dst w p s :
  reachable s → wps s !! w = Some p → sps s !! dst = None →
  ∃ s', lock dst w s = Ret () s' ∧
    wps s' = wps s ∧ trace s' = trace s ∧
    if decide (wp_cb p = nullptr ∨ shared_of s (wp_cb p) = 0) then
      sps s' = <[dst := {| sp_ptr := nullptr; sp_cb := nullptr |}]> (sps s) ∧
      cbs s' = cbs s ∧
      use_count dst s' = Ret 0 s' ∧ operator_bool dst s' = Ret false s'
    else
      sps s' = <[dst := {| sp_ptr := wp_ptr p; sp_cb := wp_cb p |}]> (sps s) ∧
      shared_of s' (wp_cb p) = shared_of s (wp_cb p) + 1 ∧
      use_count dst s' = Ret (shared_of s (wp_cb p) + 1) s'.
Proof.
  intros Hreach Hw Hdst. destruct (reachable_inv s Hreach) as [HI Hroom].
  assert (∃ s', shared_ptr_default dst s = Ret () s' ∧
    wps s' = wps s ∧ trace s' = trace s ∧
    sps s' = <[dst := {| sp_ptr := nullptr; sp_cb := nullptr |}]> (sps s) ∧
    cbs s' = cbs s ∧
    use_count dst s' = Ret 0 s' ∧ operator_bool dst s' = Ret false s')
    as (s0 & Hdef & Hfacts).
  { unfold shared_ptr_default, init_sp. rewrite Hdst. eexists.
    split; [done|]. simpl. do 4 (split; [done|]).
    unfold operator_bool, shared_ptr_get, use_count, bind, load_sp, ret.
    simpl. rewrite !lookup_insert_eq. simpl. by rewrite ?lookup_insert_eq. }
  unfold lock, bind, load_wp. rewrite Hw.
  destruct (decide (wp_cb p = nullptr)) as [Hp|Hp].
  { rewrite Hdef. exists s0. split; [done|].
    rewrite decide_True by (by left). naive_solver. }
  destruct (Inv_observer_live s w p HI Hw Hp) as (b & Hb & _ & _).
  pose proof (shared_of_bound s (wp_cb p) HI Hroom) as Hbound.
  unfold shared_of in *. rewrite Hb in *.
  unfold get_shared_cnt, bind, load_cb, ret. rewrite Hb. simpl.
  destruct (shared_cnt b =? 0) eqn:Hz.
  { apply N.eqb_eq in Hz. rewrite Hdef. exists s0. split; [done|].
    rewrite decide_True by (by right). naive_solver. }
  apply N.eqb_neq in Hz.
  unfold inc_shared, bind, load_cb, store_cb, shared_ptr_raw, init_sp.
  simpl. rewrite Hb. simpl. rewrite Hdst.
  eexists. split; [done|]. simpl. do 2 (split; [done|]).
  rewrite decide_False by (intros [?|?]; done).
  split; [done|]. rewrite lookup_insert_eq. simpl.
  rewrite size_incr_small by done. split; [done|].
  unfold use_count, get_shared_cnt, bind, load_sp, load_cb, ret.
  cbn [sps cbs]. rewrite lookup_insert_eq. cbn [sp_cb].
  rewrite decide_False by done. cbn [cbs]. by rewrite lookup_insert_eq.
Qed.

(** *** Counts after an assignment *)

Lemma Inv_shared_of s c :
  Inv s → c ≠ nullptr → shared_of s c = N.of_nat (owners (sps s) c).
Proof.
  intros HI Hc. pose proof (inv_addr s HI c) as H. unfold shared_of.
  destruct (cbs s !! c) as [b|]; simpl in H.
  - by destruct H as (_ & -> & _).
  - destruct H as [H _]. by destruct (H Hc) as [-> _].
Qed.






(** ** Pairing of raw pointer and control block *)

Lemma paired_intro s s' msp mwp c0 :
  step_post s s' msp mwp c0 →
  map_Forall (λ _, coupled_sp) msp → map_Forall (λ _, coupled_wp) mwp →
  paired s'.
Proof. intros [_ <- <- _ _] ? ?. by split. Qed.

Lemma coupled_null_sp : coupled_sp null_sp.
Proof. by split. Qed.

Lemma coupled_null_wp : coupled_wp null_wp.
Proof. by split. Qed.

Lemma coupled_fresh p k : p ≠ nullptr → coupled_sp {| sp_ptr := p; sp_cb := N.succ k |}.
Proof. intros Hp. split; simpl; intros _; [unfold nullptr; lia|done]. Qed.

Lemma paired_sp_at s y : paired s → coupled_sp (sp_at s y).
Proof.
  intros [Hsp _]. unfold sp_at. destruct (sps s !! y) as [q|] eqn:Hy; simpl.
  - by apply (map_Forall_lookup_1 _ _ _ _ Hsp Hy).
  - apply coupled_null_sp.
Qed.

Lemma paired_wp_at s y : paired s → coupled_wp (wp_at s y).
Proof.
  intros [_ Hwp]. unfold wp_at. destruct (wps s !! y) as [q|] eqn:Hy; simpl.
  - by apply (map_Forall_lookup_1 _ _ _ _ Hwp Hy).
  - apply coupled_null_wp.
Qed.

Lemma paired_sp_lookup s y q : paired s → sps s !! y = Some q → coupled_sp q.
Proof. intros [Hsp _] Hy. by apply (map_Forall_lookup_1 _ _ _ _ Hsp Hy). Qed.

Lemma paired_wp_lookup s y q : paired s → wps s !! y = Some q → coupled_wp q.
Proof. intros [_ Hwp] Hy. by apply (map_Forall_lookup_1 _ _ _ _ Hwp Hy). Qed.

Lemma exec_paired_adopt x p d r s :
  Inv s → paired s → p ≠ nullptr →
  spec (shared_ptr_adopt x p d r) s (sps s !! x = None)
       (λ _ s', paired s') (λ s', paired s').
Proof.
  intros HI [Hsp Hwp] Hp.
  eapply spec_mono; [by apply shared_ptr_adopt_spec|done| |].
  - intros _ s' Hpre (_ & _ & H). split; [done|].
    eapply paired_intro; [done| |done].
    apply map_Forall_insert_2; [by apply coupled_fresh|done].
  - intros s' (_ & _ & _ & _ & H). by eapply paired_intro.
Qed.

Lemma exec_paired_reset_del x p d r s :
  Inv s → room 1 s → paired s → p ≠ nullptr →
  spec (shared_ptr_reset_del x p d r) s (is_Some (sps s !! x))
       (λ _ s', paired s') (λ s', paired s').
Proof.
  intros HI Hroom [Hsp Hwp] Hp. unfold shared_ptr_reset_del.
  eapply spec_mono.
  - eapply with_temp_sp_spec; [done..|].
    intros tmp _ Hfresh. by apply temp_adopt_sp.
  - by intros ?.
  - intros _ s' [_ Hx] (px & evs' & _ & _ & _ & _ & _ & H). split; [done|].
    eapply paired_intro; [done| |done].
    apply map_Forall_insert_2; [by apply coupled_fresh|done].
  - intros s' (_ & _ & _ & _ & H). by eapply paired_intro.
Qed.

Lemma exec_paired o s :
  Inv s → room 1 s → paired s → keeps_pairing o s →
  spec (exec o) s (wf o s) (λ _ s', paired s') (λ s', paired s').
Proof.
  intros HI Hroom Hp Hkeep. pose proof Hp as [Hsp Hwp].
  assert (room 0 s) as Hroom0 by (unfold room in *; lia).
  destruct o; simpl in *.
  - (* SpDefault *)
    eapply spec_mono; [by apply shared_ptr_default_spec|done| |done].
    intros _ s' Hpre [_ H]. split; [done|].
    eapply paired_intro; [done| |done].
    apply map_Forall_insert_2; [apply coupled_null_sp|done].
  - (* SpAdopt *) by apply exec_paired_adopt.
  - (* SpAdoptDefault *) by apply exec_paired_adopt.
  - (* SpMake *)
    eapply spec_mono; [by apply make_shared_spec|done| |].
    + intros _ s' Hpre (_ & _ & H). split; [done|].
      eapply paired_intro; [done| |done].
      apply map_Forall_insert_2; [|done].
      unfold coupled_sp, cb_inplace_get, nullptr. simpl. lia.
    + by intros s' [_ ->].
  - (* SpAlias *)
    eapply spec_mono; [by apply shared_ptr_alias_spec|done| |done].
    intros _ s' Hpre (q & Hy & _ & H). split; [done|].
    eapply paired_intro; [done| |done].
    apply map_Forall_insert_2; [|done].
    unfold sp_at in Hkeep. by rewrite Hy in Hkeep.
  - (* SpCopy *)
    eapply spec_mono; [by apply shared_ptr_copy_spec|done| |done].
    intros _ s' Hpre (q & Hy & _ & H). split; [done|].
    eapply paired_intro; [done| |done].
    apply map_Forall_insert_2; [by eapply paired_sp_lookup|done].
  - (* SpMove *)
    eapply spec_mono; [by apply shared_ptr_move_spec|done| |done].
    intros _ s' Hpre (q & Hy & _ & H). split; [done|].
    eapply paired_intro; [done| |done].
    apply map_Forall_insert_2; [apply coupled_null_sp|].
    apply map_Forall_insert_2; [by eapply paired_sp_lookup|done].
  - (* SpDtor *)
    eapply spec_mono; [by apply shared_ptr_dtor_spec|done| |done].
    intros _ s' Hpre (p & Hx & _ & H). split; [done|].
    eapply paired_intro; [done| |done]. by apply map_Forall_delete.
  - (* SpAssign *)
    unfold shared_ptr_assign. destruct (decide (x = y)) as [->|Hne].
    { unfold spec, ret. split; [by left|done]. }
    eapply spec_mono.
    + eapply with_temp_sp_spec; [done..|].
      intros tmp _ Hfresh. by apply temp_copy_sp.
    + by intros [?|?].
    + intros _ s' [Hy Hx] (px & evs' & _ & _ & _ & _ & _ & H).
      split; [by right|]. eapply paired_intro; [done| |done].
      apply map_Forall_insert_2; [by apply paired_sp_at|done].
    + done.
  - (* SpMoveAssign *)
    unfold shared_ptr_move_assign. destruct (decide (x = y)) as [->|Hne].
    { unfold spec, ret. split; [by left|done]. }
    eapply spec_mono.
    + eapply with_temp_sp_spec; [done..|].
      intros tmp _ Hfresh. by apply temp_move_sp.
    + by intros [?|?].
    + intros _ s' [Hy Hx] (px & evs' & _ & _ & _ & _ & _ & H).
      split; [by right|]. eapply paired_intro; [done| |done].
      apply map_Forall_insert_2; [by apply paired_sp_at|].
      apply map_Forall_insert_2; [apply coupled_null_sp|done].
    + done.
  - (* SpReset *)
    unfold shared_ptr_reset. eapply spec_mono.
    + eapply with_temp_sp_spec; [done..|].
      intros tmp _ Hfresh. by apply temp_default_sp.
    + by intros ?.
    + intros _ s' [_ Hx] (px & evs' & _ & _ & _ & _ & _ & H).
      split; [done|]. eapply paired_intro; [done| |done].
      apply map_Forall_insert_2; [apply coupled_null_sp|done].
    + done.
  - (* SpResetPtr *) by apply exec_paired_reset_del.
  - (* SpResetDel *) by apply exec_paired_reset_del.
  - (* SpSwap *)
    eapply spec_mono; [by apply shared_ptr_swap_spec|done| |done].
    intros _ s' Hpre (a & b & Hx & Hy & _ & H). split; [done|].
    eapply paired_intro; [done| |done].
    apply map_Forall_insert_2; [by eapply paired_sp_lookup|].
    apply map_Forall_insert_2; [by eapply paired_sp_lookup|done].
  - (* WpDefault *)
    eapply spec_mono; [by apply weak_ptr_default_spec|done| |done].
    intros _ s' Hpre [_ H]. split; [done|].
    eapply paired_intro; [done|done|].
    apply map_Forall_insert_2; [apply coupled_null_wp|done].
  - (* WpCopy *)
    eapply spec_mono; [by apply weak_ptr_copy_spec|done| |done].
    intros _ s' Hpre (q & Hy & _ & H). split; [done|].
    eapply paired_intro; [done|done|].
    apply map_Forall_insert_2; [by eapply paired_wp_lookup|done].
  - (* WpFromShared *)
    eapply spec_mono; [by apply weak_ptr_from_shared_spec|done| |done].
    intros _ s' Hpre (q & Hy & _ & H). split; [done|].
    eapply paired_intro; [done|done|].
    apply map_Forall_insert_2; [|done].
    by apply (paired_sp_lookup s x q).
  - (* WpMove *)
    eapply spec_mono; [by apply weak_ptr_move_spec|done| |done].
    intros _ s' Hpre (q & Hy & _ & H). split; [done|].
    eapply paired_intro; [done|done|].
    apply map_Forall_insert_2; [apply coupled_null_wp|].
    apply map_Forall_insert_2; [by eapply paired_wp_lookup|done].
  - (* WpDtor *)
    eapply spec_mono; [by apply weak_ptr_dtor_spec|done| |done].
    intros _ s' Hpre (_ & H). split; [done|].
    eapply paired_intro; [done|done|]. by apply map_Forall_delete.
  - (* WpAssign *)
    unfold weak_ptr_assign. destruct (decide (w = v)) as [->|Hne].
    { unfold spec, ret. split; [by left|done]. }
    eapply spec_mono.
    + eapply with_temp_wp_spec; [done..|].
      intros tmp _ Hfresh. by apply temp_copy_wp.
    + by intros [?|?].
    + intros _ s' [Hy Hx] (_ & _ & H).
      split; [by right|]. eapply paired_intro; [done|done|].
      apply map_Forall_insert_2; [by apply paired_wp_at|done].
    + done.
  - (* WpAssignShared *)
    unfold weak_ptr_assign_shared. eapply spec_mono.
    + eapply with_temp_wp_spec; [done..|].
      intros tmp _ Hfresh. by apply temp_from_shared_wp.
    + done.
    + intros [] s' Hpre (_ & _ & H).
      split; [done|]. eapply paired_intro; [done|done|].
      apply map_Forall_insert_2; [|done].
      apply (paired_sp_at s x Hp).
    + done.
  - (* WpMoveAssign *)
    unfold weak_ptr_move_assign. destruct (decide (w = v)) as [->|Hne].
    { unfold spec, ret. split; [by left|done]. }
    eapply spec_mono.
    + eapply with_temp_wp_spec; [done..|].
      intros tmp _ Hfresh. by apply temp_move_wp.
    + by intros [?|?].
    + intros _ s' [Hy Hx] (_ & _ & H).
      split; [by right|]. eapply paired_intro; [done|done|].
      apply map_Forall_insert_2; [by apply paired_wp_at|].
      apply map_Forall_insert_2; [apply coupled_null_wp|done].
    + done.
  - (* WpReset *)
    unfold weak_ptr_reset. eapply spec_mono.
    + eapply with_temp_wp_spec; [done..|].
      intros tmp _ Hfresh. by apply temp_default_wp.
    + by intros ?.
    + intros _ s' [_ Hx] (_ & _ & H).
      split; [done|]. eapply paired_intro; [done|done|].
      apply map_Forall_insert_2; [apply coupled_null_wp|done].
    + done.
  - (* WpSwap *)
    eapply spec_mono; [by apply weak_ptr_swap_spec|done| |done].
    intros _ s' Hpre (a & b & Hx & Hy & _ & H). split; [done|].
    eapply paired_intro; [done|done|].
    apply map_Forall_insert_2; [by eapply paired_wp_lookup|].
    apply map_Forall_insert_2; [by eapply paired_wp_lookup|done].
  - (* WpLock *)
    eapply spec_mono; [by apply lock_spec|done| |done].
    intros _ s' Hpre (p & q & Hw' & Hq & _ & H). split; [done|].
    eapply paired_intro; [done| |done].
    apply map_Forall_insert_2; [|done].
    destruct Hq as [-> | ->]; [apply coupled_null_sp|].
    by apply (paired_wp_lookup s w p).
Qed.

Lemma paired_init : paired init.
Proof. split; apply map_Forall_empty. Qed.

(** C7, in the form that holds of the code.  A default-constructed owning
    pointer has both fields null; [make_shared] and the adoption of a
    non-null raw pointer give both fields non-null; the adoption of a null
    raw pointer gives a null raw pointer with a non-null control-block
    link.  Copy and move construction give the new pointer the two fields
    of the source, [lock] gives the two fields of the observer or both
    null, and the aliasing constructor stores the given raw pointer with
    the control-block link of the source, whatever they are.  When every
    live owning pointer and observer is paired (raw pointer non-null if
    and only if the control-block link is non-null), this still holds
    after every operation but the adoption of, or reset to, a null raw
    pointer and an aliasing construction with mismatched arguments. *)
Theorem pairing_preserved s o s' :
  reachable s → step o s = Some s' →
  (paired s → keeps_pairing o s → paired s') ∧
  match o with
  | SpDefault x => sps s' !! x = Some null_sp ∧ coupled_sp null_sp
  | SpAdopt x ptr _ new_ok | SpAdoptDefault x ptr new_ok =>
      ∃ c, c ≠ nullptr ∧
           sps s' !! x = Some {| sp_ptr := ptr; sp_cb := c |} ∧
           (coupled_sp {| sp_ptr := ptr; sp_cb := c |} ↔ ptr ≠ nullptr)
  | SpMake x _ new_ok =>
      ∃ q, sps s' !! x = Some q ∧ sp_ptr q ≠ nullptr ∧ sp_cb q ≠ nullptr
  | SpAlias x y ptr =>
      ∃ q, sps s !! y = Some q ∧
           sps s' !! x = Some {| sp_ptr := ptr; sp_cb := sp_cb q |}
  | SpCopy x y | SpMove x y =>
      ∃ q, sps s !! y = Some q ∧ sps s' !! x = Some q
  | WpLock x w =>
      ∃ p q, wps s !! w = Some p ∧ sps s' !! x = Some q ∧
             (q = null_sp ∨ q = {| sp_ptr := wp_ptr p; sp_cb := wp_cb p |})
  | _ => True
  end.
Proof.
  intros Hreach Hstep. destruct (reachable_inv s Hreach) as [HI Hroom].
  split.
  { intros Hp Hkeep. pose proof (exec_paired o s HI Hroom Hp Hkeep) as H.
    unfold step, spec in *. destruct (exec o s); try done.
    - injection Hstep as <-. by destruct H.
    - by injection Hstep as <-. }
  revert Hstep. unfold step.
  destruct o as [x|x ptr d r|x ptr r|x args r|x y ptr|x y|x y| | | | | | |
                 | | | | | | | | | | |x w]; try done; simpl.
  - (* SpDefault *)
    unfold shared_ptr_default, init_sp. destruct (sps s !! x); [done|].
    intros [= <-]. simpl. rewrite lookup_insert_eq.
    split; [done|apply coupled_null_sp].
  - (* SpAdopt *)
    destruct r; [|done].
    unfold shared_ptr_adopt, try_catch, bind, new_cb, init_sp, inc_shared,
      bind, load_cb, store_cb. simpl.
    destruct (sps s !! x); [done|]. simpl. rewrite lookup_insert_eq. simpl.
    intros [= <-]. simpl. exists (N.succ (brk s)).
    split; [unfold nullptr; lia|]. split; [by rewrite lookup_insert_eq|].
    unfold coupled_sp, nullptr. simpl. split.
    + intros [_ H]. apply H. lia.
    + intros ?. split; intros _; [lia|done].
  - (* SpAdoptDefault *)
    destruct r; [|done].
    unfold shared_ptr_adopt_default, shared_ptr_adopt, try_catch, bind,
      new_cb, init_sp, inc_shared, bind, load_cb, store_cb. simpl.
    destruct (sps s !! x); [done|]. simpl. rewrite lookup_insert_eq. simpl.
    intros [= <-]. simpl. exists (N.succ (brk s)).
    split; [unfold nullptr; lia|]. split; [by rewrite lookup_insert_eq|].
    unfold coupled_sp, nullptr. simpl. split.
    + intros [_ H]. apply H. lia.
    + intros ?. split; intros _; [lia|done].
  - (* SpMake *)
    destruct r; [|done].
    unfold make_shared, bind, new_cb, inc_shared, bind, load_cb,
      store_cb, shared_ptr_raw, init_sp. simpl.
    rewrite lookup_insert_eq. simpl. destruct (sps s !! x); [done|].
    intros [= <-]. simpl. eexists. split; [by rewrite lookup_insert_eq|].
    unfold cb_inplace_get, nullptr. simpl. lia.
  - (* SpAlias *)
    unfold shared_ptr_alias, bind, load_sp, init_sp.
    destruct (sps s !! y) as [q|]; [|done]. destruct (sps s !! x); [done|].
    destruct (decide (sp_cb q = nullptr)).
    + unfold ret. intros [= <-]. exists q. split; [done|]. simpl.
      by rewrite lookup_insert_eq.
    + unfold inc_shared, bind, load_cb, store_cb. simpl.
      destruct (cbs s !! sp_cb q); [|done]. intros [= <-].
      exists q. split; [done|]. simpl. by rewrite lookup_insert_eq.
  - (* SpCopy *)
    unfold shared_ptr_copy, shared_ptr_alias, bind, load_sp, init_sp.
    destruct (sps s !! y) as [q|] eqn:Hy; [|done]. simpl. rewrite Hy.
    destruct (sps s !! x); [done|].
    assert ({| sp_ptr := sp_ptr q; sp_cb := sp_cb q |} = q) as ->
      by by destruct q.
    destruct (decide (sp_cb q = nullptr)).
    + unfold ret. intros [= <-]. exists q. split; [done|]. simpl.
      by rewrite lookup_insert_eq.
    + unfold inc_shared, bind, load_cb, store_cb. simpl.
      destruct (cbs s !! sp_cb q); [|done]. intros [= <-].
      exists q. split; [done|]. simpl. by rewrite lookup_insert_eq.
  - (* SpMove *)
    unfold shared_ptr_move, bind, load_sp, init_sp, store_sp.
    destruct (sps s !! y) as [q|] eqn:Hy; [|done].
    destruct (sps s !! x) eqn:Hx; [done|]. simpl.
    assert (x ≠ y) as Hne by congruence.
    rewrite lookup_insert_ne, Hy by done. simpl. rewrite lookup_insert_eq.
    intros [= <-]. exists q. split; [done|]. simpl.
    rewrite insert_insert_eq, lookup_insert_ne, lookup_insert_eq by done.
    by destruct q.
  - (* WpLock *)
    pose proof (lock_spec x w s HI Hroom) as H. unfold spec in H.
    destruct (lock x w s) as [[] s1| | |]; try done.
    intros [= <-]. destruct H as (_ & p & q & Hw & Hq & _ & [_ Hsp _ _ _]).
    exists p, q. split; [done|]. split; [|done].
    by rewrite Hsp, lookup_insert_eq.
Qed.

(** ** [use_count] *)

Lemma use_count_owners s x p :
  Inv s → sps s !! x = Some p → sp_cb p ≠ nullptr →
  use_count x s = Ret (N.of_nat (owners (sps s) (sp_cb p))) s.
Proof.
  intros HI Hx Hp. destruct (Inv_owner_live s x p HI Hx Hp) as (b & Hb & _).
  pose proof (inv_addr s HI (sp_cb p)) as H. rewrite Hb in H.
  destruct H as (_ & Hsh & _).
  unfold use_count, get_shared_cnt, bind, load_sp, load_cb, ret.
  rewrite Hx. rewrite decide_False by done. by rewrite Hb, Hsh.
Qed.

Lemma dtor_decrements t z z' pz pz' :
  Inv t → room 1 t →
  sps t !! z = Some pz → sps t !! z' = Some pz' → z ≠ z' →
  sp_cb pz = sp_cb pz' → sp_cb pz ≠ nullptr →
  ∃ t' k, step (SpDtor z) t = Some t' ∧
          use_count z' t = Ret (k + 1) t ∧ use_count z' t' = Ret k t'.
Proof.
  intros HI Hroom Hz Hz' Hne Hcb Hnz.
  assert (room 0 t) as Hroom0 by (unfold room in *; lia).
  pose proof (shared_ptr_dtor_spec z t HI Hroom0) as H.
  unfold step, exec, spec in *.
  destruct (shared_ptr_dtor z t) as [[] t'| | |]; try done.
  2:{ exfalso. apply H. by eexists. }
  destruct H as (_ & p' & Hp' & _ & [HI' Hsp' _ _ _]).
  exists t', (N.of_nat (owners (delete z (sps t)) (sp_cb pz))).
  split; [done|]. split.
  - rewrite (use_count_owners t z' pz' HI Hz') by congruence.
    rewrite <-Hcb, (owners_pos _ _ _ Hz). f_equal. lia.
  - rewrite (use_count_owners t' z' pz' HI'); [by rewrite Hsp', Hcb| |congruence].
    by rewrite Hsp', lookup_delete_ne.
Qed.

Lemma copies_run x p ys : ∀ s,
  Inv s →
  N.of_nat (size (sps s) + size (wps s)) + N.of_nat (length ys) + 1
    ≤ SIZE_MAX →
  sps s !! x = Some p → NoDup ys → (∀ y, y ∈ ys → sps s !! y = None) →
  ∃ s', run (map (λ y, SpCopy y x) ys) s = Some s' ∧ Inv s' ∧
    (∀ z, sps s' !! z = if decide (z ∈ ys) then Some p else sps s !! z) ∧
    (size (sps s') + size (wps s')
     = size (sps s) + size (wps s) + length ys)%nat ∧
    owners (sps s') (sp_cb p) = (owners (sps s) (sp_cb p) + length ys)%nat.
Proof.
  induction ys as [|y ys IH]; intros s HI Hsz Hx Hnd Hfresh.
  - exists s. split; [done|]. split; [done|]. split; [|simpl; lia].
    intros z. rewrite decide_False; [done|]. apply not_elem_of_nil.
  - apply NoDup_cons in Hnd as [Hy Hnd]. simpl in Hsz.
    assert (room 1 s) as Hroom by (unfold room; lia).
    assert (sps s !! y = None) as Hyf by (apply Hfresh; by left).
    pose proof (shared_ptr_copy_spec y x s HI Hroom) as H.
    simpl. unfold step, exec, spec in *.
    destruct (shared_ptr_copy y x s) as [[] s1| | |]; try done.
    2:{ exfalso. apply H. split; [by eexists|done]. }
    destruct H as (_ & q & Hq & _ & [HI1 Hsp1 Hwp1 _ _]).
    rewrite Hx in Hq. injection Hq as <-.
    assert (x ≠ y) as Hxy by congruence.
    destruct (IH s1 HI1) as (s' & Hrun & HI' & Hlook & Hsize & Hown); try done.
    + rewrite Hsp1, Hwp1, map_size_insert_None by done. lia.
    + by rewrite Hsp1, lookup_insert_ne.
    + intros y' Hy'. rewrite Hsp1, lookup_insert_ne; [|by intros <-].
      apply Hfresh. by right.
    + exists s'. split; [done|]. split; [done|]. split; [|split].
      * intros z. rewrite Hlook, Hsp1.
        destruct (decide (z ∈ ys)).
        -- rewrite decide_True; [done|]. by right.
        -- destruct (decide (z = y)) as [->|Hzy].
           ++ rewrite lookup_insert_eq. rewrite decide_True; [done|]. by left.
           ++ rewrite lookup_insert_ne by done. rewrite decide_False; [done|].
              intros [?|?]%elem_of_cons; done.
      * rewrite Hsize, Hsp1, Hwp1, map_size_insert_None by done. simpl. lia.
      * rewrite Hown, Hsp1. unfold owners.
        rewrite cnt_insert_fresh by done. rewrite decide_True by done.
        simpl. lia.
Qed.

(** C8. [use_count] of a default-constructed owning pointer is 0; after a
    successful adoption it is 1; after [n] further copies it is [n + 1] on
    the original and on every copy; and in every state a program reaches,
    destroying one of several owning pointers that share a control block
    lowers the [use_count] the others report by exactly 1. *)
Theorem use_count_counts_owners ops0 s x p d ys :
  run ops0 init = Some s →
  N.of_nat (length ops0) + N.of_nat (length ys) + 2 ≤ SIZE_MAX →
  sps s !! x = None → NoDup (x :: ys) →
  (∀ y, y ∈ ys → sps s !! y = None) →
  (∃ s0, step (SpDefault x) s = Some s0 ∧ use_count x s0 = Ret 0 s0) ∧
  (∃ s1 s2,
     step (SpAdopt x p d new_ok) s = Some s1 ∧
     use_count x s1 = Ret 1 s1 ∧
     run (map (λ y, SpCopy y x) ys) s1 = Some s2 ∧
     ∀ z, z ∈ x :: ys →
          use_count z s2 = Ret (N.of_nat (length ys) + 1) s2) ∧
  (∀ t z z' pz pz',
     reachable t →
     sps t !! z = Some pz → sps t !! z' = Some pz' → z ≠ z' →
     sp_cb pz = sp_cb pz' → sp_cb pz ≠ nullptr →
     ∃ t' k, step (SpDtor z) t = Some t' ∧
             use_count z' t = Ret (k + 1) t ∧ use_count z' t' = Ret k t').
Proof.
  intros Hrun Hlen Hx Hnd Hfresh.
  destruct (run_inv ops0 init s 0 Inv_init) as [HI Hn]; try done; [lia|].
  assert (room 1 s) as Hroom by (unfold room; lia).
  apply NoDup_cons in Hnd as [Hxys Hnd].
  split; [|split].
  - unfold step, exec, shared_ptr_default, init_sp. rewrite Hx.
    eexists. split; [done|].
    unfold use_count, bind, load_sp, ret. simpl. by rewrite lookup_insert_eq.
  - pose proof (step_progress (SpAdopt x p d new_ok) s HI Hroom Hx)
      as [s1 Hstep].
    pose proof (step_spec _ _ _ HI Hroom Hstep) as (HI1 & _ & Hsz1 & _).
    assert (sps s1 !! x = Some {| sp_ptr := p; sp_cb := N.succ (brk s) |} ∧
            use_count x s1 = Ret 1 s1) as [Hx1 Huse1].
    { revert Hstep. unfold step, exec, shared_ptr_adopt, try_catch, bind,
        new_cb, init_sp, inc_shared, bind, load_cb, store_cb. simpl.
      rewrite Hx. simpl. rewrite lookup_insert_eq. simpl.
      intros [= <-]. simpl. rewrite lookup_insert_eq. split; [done|].
      unfold use_count, get_shared_cnt, bind, load_sp, load_cb, ret.
      cbn [sps cbs]. rewrite lookup_insert_eq. cbn [sp_cb].
      rewrite decide_False by (unfold nullptr; lia). cbn [cbs].
      by rewrite lookup_insert_eq. }
    set (p1 := {| sp_ptr := p; sp_cb := N.succ (brk s) |}) in *.
    assert (sp_cb p1 ≠ nullptr) as Hnz by (unfold nullptr; simpl; lia).
    assert (∀ y, y ∈ ys → sps s1 !! y = None) as Hfresh1.
    { intros y Hy. destruct (sps s1 !! y) as [q|] eqn:Hq; [|done].
      exfalso. revert Hstep Hq.
      unfold step, exec, shared_ptr_adopt, try_catch, bind,
        new_cb, init_sp, inc_shared, bind, load_cb, store_cb. simpl.
      rewrite Hx. simpl. rewrite lookup_insert_eq. simpl.
      intros [= <-]. simpl. rewrite lookup_insert_ne by (by intros <-).
      by rewrite (Hfresh y Hy). }
    destruct (copies_run x p1 ys s1 HI1) as (s2 & Hrun2 & HI2 & Hlook & _ & Hown);
      try done; [lia|].
    exists s1, s2. do 3 (split; [done|]).
    assert (owners (sps s1) (sp_cb p1) = 1%nat) as Hown1.
    { rewrite (use_count_owners s1 x p1 HI1 Hx1 Hnz) in Huse1.
      injection Huse1 as Huse1. change (sp_cb p1) with (N.succ (brk s)). lia. }
    intros z Hz.
    assert (sps s2 !! z = Some p1) as Hz2.
    { rewrite Hlook. apply elem_of_cons in Hz as [->|Hz].
      - by rewrite decide_False.
      - by rewrite decide_True. }
    rewrite (use_count_owners s2 z p1 HI2 Hz2 Hnz), Hown, Hown1.
    f_equal. lia.
  - intros t z z' pz pz' Hreach. destruct (reachable_inv t Hreach).
    by apply dtor_decrements.
Qed.

(** ** Further properties of the operations *)

Lemma state_eta s :
  {| cbs := cbs s; sps := sps s; wps := wps s; brk := brk s;
     trace := trace s |} = s.
Proof. by destruct s. Qed.

(** X1. [swap] exchanges the values of two live owning pointers, changes
    no control block and emits nothing; swapping twice restores the
    state. *)
Theorem swap_exchanges_and_is_involutive x y a b s :
  sps s !! x = Some a → sps s !! y = Some b →
  (∃ s1, shared_ptr_swap x y s = Ret () s1 ∧
         sps s1 !! x = Some b ∧ sps s1 !! y = Some a ∧
         (∀ z, z ≠ x → z ≠ y → sps s1 !! z = sps s !! z) ∧
         cbs s1 = cbs s ∧ wps s1 = wps s ∧ trace s1 = trace s) ∧
  (shared_ptr_swap x y ;; shared_ptr_swap x y) s = Ret () s.
Proof.
  intros Hx Hy.
  assert (is_Some (<[x:=b]> (sps s) !! y)) as [? Hy'].
  { destruct (decide (x = y)) as [->|?].
    - rewrite lookup_insert_eq. by eexists.
    - rewrite lookup_insert_ne by done. by eexists. }
  assert (is_Some (<[x:=a]> (<[y:=a]> (<[x:=b]> (sps s))) !! y)) as [? Hy''].
  { destruct (decide (x = y)) as [->|?].
    - rewrite lookup_insert_eq. by eexists.
    - rewrite lookup_insert_ne, lookup_insert_eq by done. by eexists. }
  split.
  - unfold shared_ptr_swap, bind, load_sp, store_sp. rewrite Hx, Hy. simpl.
    rewrite Hx. simpl. rewrite Hy'. eexists. split; [done|]. simpl.
    split; [|split; [by rewrite lookup_insert_eq|split; [|done]]].
    + destruct (decide (x = y)) as [->|?].
      * rewrite lookup_insert_eq. congruence.
      * by rewrite lookup_insert_ne, lookup_insert_eq.
    + intros z ? ?. by rewrite !lookup_insert_ne.
  - unfold shared_ptr_swap, bind, load_sp, store_sp. rewrite Hx, Hy. simpl.
    rewrite Hx. simpl. rewrite Hy'. simpl.
    assert (<[y:=a]> (<[x:=b]> (sps s)) !! x = Some b) as Hx1.
    { destruct (decide (x = y)) as [->|?].
      - rewrite lookup_insert_eq. congruence.
      - by rewrite lookup_insert_ne, lookup_insert_eq. }
    rewrite Hx1. simpl. rewrite lookup_insert_eq. simpl. rewrite Hx1. simpl.
    rewrite Hy''. simpl.
    assert (<[y:=b]> (<[x:=a]> (<[y:=a]> (<[x:=b]> (sps s)))) = sps s) as ->.
    { apply map_eq. intros z.
      destruct (decide (z = y)) as [->|?]; [by rewrite lookup_insert_eq|].
      rewrite lookup_insert_ne by done.
      destruct (decide (z = x)) as [->|?]; [by rewrite lookup_insert_eq|].
      by rewrite !lookup_insert_ne. }
    by rewrite state_eta.
Qed.

(** X2. The move constructor hands the raw pointer and the control-block
    link of the source to the new pointer and leaves the source null.  No
    control block is touched and nothing is emitted: the number of owners
    of every block is what it was, the new pointer reports the
    [use_count] the source reported, and the source reports 0 and converts
    to false. *)
Theorem move_transfers_ownership x y q s :
  sps s !! y = Some q → sps s !! x = None →
  ∃ s', shared_ptr_move x y s = Ret () s' ∧
    sps s' = <[y := null_sp]> (<[x := q]> (sps s)) ∧
    cbs s' = cbs s ∧ wps s' = wps s ∧ trace s' = trace s ∧
    (∀ c, c ≠ nullptr → owners (sps s') c = owners (sps s) c) ∧
    (∀ n, use_count y s = Ret n s → use_count x s' = Ret n s') ∧
    use_count y s' = Ret 0 s' ∧ operator_bool y s' = Ret false s'.
Proof.
  intros Hy Hx. assert (x ≠ y) as Hne by congruence.
  unfold shared_ptr_move, bind, load_sp, init_sp, store_sp.
  rewrite Hy, Hx. simpl. rewrite lookup_insert_ne, Hy by done. simpl.
  rewrite lookup_insert_eq. eexists. split; [done|]. simpl.
  assert ({| sp_ptr := sp_ptr q; sp_cb := sp_cb q |} = q) as ->
    by by destruct q.
  rewrite insert_insert_eq. do 4 (split; [done|]). split; [|split].
  - intros c Hc. by apply cnt_move.
  - unfold use_count, get_shared_cnt, bind, load_sp, load_cb, ret.
    rewrite Hy. cbn [sps cbs].
    rewrite lookup_insert_ne, lookup_insert_eq by done. intros n.
    destruct (decide (sp_cb q = nullptr)); simpl; [by intros [= <-]|].
    destruct (cbs s !! sp_cb q); simpl; [by intros [= <-]|done].
  - unfold use_count, operator_bool, shared_ptr_get, bind, load_sp, ret.
    cbn [sps]. by rewrite lookup_insert_eq.
Qed.

(** X3. The move constructor of [weak_ptr] likewise: the source is left
    without control block, no count changes, and nothing is emitted. *)
Theorem weak_move_transfers x y q s :
  wps s !! y = Some q → wps s !! x = None →
  ∃ s', weak_ptr_move x y s = Ret () s' ∧
    wps s' = <[y := null_wp]> (<[x := q]> (wps s)) ∧
    cbs s' = cbs s ∧ sps s' = sps s ∧ trace s' = trace s ∧
    (∀ c, c ≠ nullptr → observers (wps s') c = observers (wps s) c).
Proof.
  intros Hy Hx. assert (x ≠ y) as Hne by congruence.
  unfold weak_ptr_move, bind, load_wp, init_wp, store_wp.
  rewrite Hy, Hx. simpl. rewrite lookup_insert_ne, Hy by done. simpl.
  rewrite lookup_insert_eq. eexists. split; [done|]. simpl.
  assert ({| wp_ptr := wp_ptr q; wp_cb := wp_cb q |} = q) as ->
    by by destruct q.
  rewrite insert_insert_eq. do 4 (split; [done|]).
  intros c Hc. by apply cnt_move.
Qed.

Lemma size_decr_incr n : n < SIZE_MAX → size_decr (size_incr n) = n.
Proof.
  intros Hn. rewrite size_incr_small by done.
  assert (SIZE_MAX < SIZE_MOD) by done.
  rewrite size_decr_pos by lia. lia.
Qed.

Lemma size_incr_max : size_incr SIZE_MAX = 0.
Proof. reflexivity. Qed.

(** X4. The counters of a control block: incrementing and then releasing
    a count below [SIZE_MAX] restores the block; at [SIZE_MAX] the
    increment wraps to 0 and the release fails its assert; and releasing a
    count that is 0 fails the assert.  The same for the weak count. *)
Theorem counters_round_trip_and_bounds c b s :
  cbs s !! c = Some b →
  (shared_cnt b < SIZE_MAX → (inc_shared c ;; release_shared c) s = Ret () s) ∧
  (shared_cnt b = SIZE_MAX → (inc_shared c ;; release_shared c) s = Abort) ∧
  (shared_cnt b = 0 → release_shared c s = Abort) ∧
  (weak_cnt b < SIZE_MAX → (inc_weak c ;; release_weak c) s = Ret () s) ∧
  (weak_cnt b = SIZE_MAX → (inc_weak c ;; release_weak c) s = Abort) ∧
  (weak_cnt b = 0 → release_weak c s = Abort).
Proof.
  intros Hb.
  unfold inc_shared, release_shared, inc_weak, release_weak, bind, load_cb,
    store_cb, assert. rewrite Hb.
  split; [|split; [|split; [|split; [|split]]]].
  - intros Hn. simpl. rewrite lookup_insert_eq. simpl.
    rewrite size_incr_small by done.
    destruct (0 <? shared_cnt b + 1) eqn:E; [|apply N.ltb_ge in E; lia].
    simpl. rewrite <-(size_incr_small (shared_cnt b)) by done.
    rewrite size_decr_incr by done. rewrite insert_insert_eq.
    rewrite insert_id by (by destruct b). by rewrite state_eta.
  - intros Hn. simpl. rewrite lookup_insert_eq. simpl.
    by rewrite Hn, size_incr_max.
  - intros Hn. simpl. by rewrite Hn.
  - intros Hn. simpl. rewrite lookup_insert_eq. simpl.
    rewrite size_incr_small by done.
    destruct (0 <? weak_cnt b + 1) eqn:E; [|apply N.ltb_ge in E; lia].
    simpl. rewrite <-(size_incr_small (weak_cnt b)) by done.
    rewrite size_decr_incr by done. rewrite insert_insert_eq.
    rewrite insert_id by (by destruct b). by rewrite state_eta.
  - intros Hn. simpl. rewrite lookup_insert_eq. simpl.
    by rewrite Hn, size_incr_max.
  - intros Hn. simpl. by rewrite Hn.
Qed.

(** X5. When the deleters and destructors of the managed objects
    perform no operation on owning pointers and observers, no pointer
    dangles in any state a program reaches: the control block a live
    owning pointer is linked to is allocated and has a shared count of at
    least 1, and the control block a live observer is linked to is
    allocated and has a weak count of at least 1. *)
Theorem no_dangling_control_block user s :
  inert user → reachable_running user s →
  (∀ x p, sps s !! x = Some p → sp_cb p ≠ nullptr →
          ∃ b, cbs s !! sp_cb p = Some b ∧ 1 ≤ shared_cnt b) ∧
  (∀ w p, wps s !! w = Some p → wp_cb p ≠ nullptr →
          ∃ b, cbs s !! wp_cb p = Some b ∧ 1 ≤ weak_cnt b).
Proof.
  intros Hi Hreach. apply (reachable_inert user Hi) in Hreach.
  destruct (reachable_inv s Hreach) as [HI _]. split.
  - intros x p Hx Hp.
    destruct (Inv_owner_live s x p HI Hx Hp) as (b & Hb & ? & _).
    exists b. split; [done|]. lia.
  - intros w p Hw Hp.
    destruct (Inv_observer_live s w p HI Hw Hp) as (b & Hb & ? & _).
    exists b. split; [done|]. lia.
Qed.

(** X6. When the deleters and destructors of the managed objects
    perform no operation on owning pointers and observers, nothing leaks:
    in a state a program reaches in which every owning pointer and every
    observer has been destroyed, no control block is allocated, and for
    every block that was created [delete_object] has run once and the
    block has been deleted once. *)
Theorem no_leak_when_all_destroyed user s :
  inert user → reachable_running user s → sps s = ∅ → wps s = ∅ →
  cbs s = ∅ ∧
  ∀ c, born s c → hooks c (trace s) = 1%nat ∧ frees c (trace s) = 1%nat.
Proof.
  intros Hi Hreach Hsp Hwp. apply (reachable_inert user Hi) in Hreach.
  destruct (reachable_inv s Hreach) as [HI _].
  assert (∀ c, cbs s !! c = None) as Hnone.
  { intros c. pose proof (inv_addr s HI c) as H.
    destruct (cbs s !! c) as [b|]; [|done]. simpl in H.
    destruct H as (_ & _ & _ & Hpos & _).
    rewrite Hsp, Hwp in Hpos. unfold owners, observers in Hpos.
    rewrite !cnt_empty in Hpos. lia. }
  split.
  - apply map_eq. intros c. by rewrite Hnone, lookup_empty.
  - intros c Hb. rewrite (Inv_hooks s c HI), (Inv_frees s c HI).
    unfold shared_of. rewrite Hnone. by rewrite !decide_True.
Qed.

Lemma use_count_shared_of s x p :
  Inv s → sps s !! x = Some p → use_count x s = Ret (shared_of s (sp_cb p)) s.
Proof.
  intros HI Hx. destruct (decide (sp_cb p = nullptr)) as [Hp|Hp].
  - unfold use_count, bind, load_sp. rewrite Hx.
    rewrite decide_True by done. by rewrite Hp, shared_of_null.
  - rewrite (use_count_owners s x p HI Hx Hp). by rewrite Inv_shared_of.
Qed.




(** X10. Comparison looks at the raw pointers only.  After the aliasing
    constructor has built [x] from a source [y] that has a control block,
    both share that block and report the same [use_count], at least 2, yet
    [x == y] holds exactly when the given pointer is the raw pointer of
    [y]; [!=] is the negation, and comparison with [nullptr] tells whether
    the given pointer is null. *)
Theorem comparison_ignores_ownership x y p q s :
  reachable s → sps s !! y = Some q → sp_cb q ≠ nullptr → sps s !! x = None →
  ∃ s' n, shared_ptr_alias x y p s = Ret () s' ∧
    use_count x s' = Ret n s' ∧ use_count y s' = Ret n s' ∧ 2 ≤ n ∧
    operator_eq x y s' = Ret (p =? sp_ptr q) s' ∧
    operator_ne x y s' = Ret (negb (p =? sp_ptr q)) s' ∧
    operator_eq_nullptr x s' = Ret (p =? nullptr) s' ∧
    operator_ne_nullptr x s' = Ret (negb (p =? nullptr)) s'.
Proof.
  intros Hreach Hy Hq Hx. destruct (reachable_inv s Hreach) as [HI Hroom].
  pose proof (shared_ptr_alias_spec x y p s HI Hroom) as H. unfold spec in H.
  destruct (shared_ptr_alias x y p s) as [[] s'| | |]; try done.
  2:{ exfalso. apply H. split; [by eexists|done]. }
  destruct H as (_ & q' & Hq' & _ & [HI' Hsp' _ _ _]).
  rewrite Hy in Hq'. injection Hq' as <-.
  assert (x ≠ y) as Hne by congruence.
  set (a := {| sp_ptr := p; sp_cb := sp_cb q |}) in *.
  assert (sps s' !! x = Some a) as Hx' by by rewrite Hsp', lookup_insert_eq.
  assert (sps s' !! y = Some q) as Hy' by by rewrite Hsp', lookup_insert_ne.
  exists s', (shared_of s' (sp_cb q)). split; [done|].
  split; [by rewrite (use_count_shared_of s' x a HI' Hx')|].
  split; [by apply use_count_shared_of|]. split.
  { rewrite Inv_shared_of, Hsp' by done. unfold owners.
    rewrite cnt_insert_fresh by done. rewrite decide_True by done.
    pose proof (owners_pos _ _ _ Hy) as Hpos. unfold owners in Hpos. lia. }
  unfold operator_eq, operator_ne, operator_eq_nullptr, operator_ne_nullptr,
    operator_bool, shared_ptr_get, bind, load_sp, ret.
  rewrite Hx'. simpl. rewrite Hy'. simpl. by rewrite negb_involutive.
Qed.

(** X11. Downgrading and locking again recovers the owning pointer: an
    observer built from a live owning pointer that has a control block,
    when locked, yields an owning pointer with the same raw pointer and
    the same control block; the shared count of the block is one more than
    before, and nothing is emitted. *)
Theorem downgrade_then_lock_recovers x w z q s :
  reachable s → sps s !! x = Some q → sp_cb q ≠ nullptr →
  wps s !! w = None → sps s !! z = None →
  ∃ s1 s2, weak_ptr_from_shared w x s = Ret () s1 ∧ lock z w s1 = Ret () s2 ∧
    sps s2 = <[z := q]> (sps s) ∧
    wps s2 = <[w := {| wp_ptr := sp_ptr q; wp_cb := sp_cb q |}]> (wps s) ∧
    trace s2 = trace s ∧
    shared_of s2 (sp_cb q) = shared_of s (sp_cb q) + 1 ∧
    use_count z s2 = Ret (shared_of s (sp_cb q) + 1) s2 ∧
    operator_eq z x s2 = Ret true s2.
Proof.
  intros Hreach Hx Hq Hw Hz. destruct (reachable_inv s Hreach) as [HI Hroom].
  destruct (Inv_owner_live s x q HI Hx Hq) as (b & Hb & Hpos & _).
  pose proof (shared_of_bound s (sp_cb q) HI Hroom) as Hbound.
  assert (x ≠ z) as Hne by congruence.
  unfold shared_of in *. rewrite Hb in *.
  unfold weak_ptr_from_shared, lock, bind, load_sp, load_wp, init_wp.
  rewrite Hx, Hw. rewrite decide_False by done.
  unfold inc_weak, inc_shared, get_shared_cnt, shared_ptr_raw, init_sp, bind,
    load_cb, store_cb, ret. simpl. rewrite Hb. simpl.
  eexists _, _. split; [done|]. simpl. rewrite lookup_insert_eq. simpl.
  rewrite decide_False by done. simpl. rewrite lookup_insert_eq. simpl.
  destruct (shared_cnt b =? 0) eqn:E; [apply N.eqb_eq in E; done|].
  simpl. rewrite lookup_insert_eq. simpl. rewrite Hz.
  split; [done|]. simpl.
  assert ({| sp_ptr := sp_ptr q; sp_cb := sp_cb q |} = q) as ->
    by by destruct q.
  do 3 (split; [done|]). rewrite lookup_insert_eq. simpl.
  rewrite size_incr_small by done. split; [done|].
  split.
  - unfold use_count, get_shared_cnt, bind, load_sp, load_cb, ret.
    cbn [sps cbs]. rewrite lookup_insert_eq.
    rewrite decide_False by done. cbn [cbs]. by rewrite lookup_insert_eq.
  - unfold operator_eq, shared_ptr_get, bind, load_sp, ret. cbn [sps].
    rewrite lookup_insert_eq. cbn [sps].
    rewrite lookup_insert_ne, Hx by done. by rewrite N.eqb_refl.
Qed.

(** X12. An object made by [make_shared] lives in its control block:
    [get()] is the address of the embedded storage and is not null,
    [use_count] is 1, and destroying the only owner runs the destructor of
    the object at that address and then deletes the block; every store is
    as before the two calls.  [shared_ptr(ptr)] adopts with
    [std::default_delete]: destroying the only owner deletes [ptr] with it
    and then deletes the block. *)
Theorem sole_owner_round_trip x args p s :
  reachable s → sps s !! x = None →
  (∃ s1 s2, make_shared x args new_ok s = Ret () s1 ∧
     shared_ptr_get x s1 = Ret (cb_inplace_get (N.succ (brk s))) s1 ∧
     operator_bool x s1 = Ret true s1 ∧ use_count x s1 = Ret 1 s1 ∧
     shared_ptr_dtor x s1 = Ret () s2 ∧
     cbs s2 = cbs s ∧ sps s2 = sps s ∧ wps s2 = wps s ∧
     trace s2
     = trace s ++
       [EvNew (N.succ (brk s)) (cb_inplace (map (λ a, (a.1, lvalue)) args));
        EvHook (N.succ (brk s)) (run_dtor (cb_inplace_get (N.succ (brk s))));
        EvFree (N.succ (brk s))]) ∧
  (∃ s1 s2, shared_ptr_adopt_default x p new_ok s = Ret () s1 ∧
     shared_ptr_get x s1 = Ret p s1 ∧ use_count x s1 = Ret 1 s1 ∧
     shared_ptr_dtor x s1 = Ret () s2 ∧
     cbs s2 = cbs s ∧ sps s2 = sps s ∧ wps s2 = wps s ∧
     trace s2
     = trace s ++
       [EvNew (N.succ (brk s)) (cb_separate p default_delete);
        EvHook (N.succ (brk s)) (run_deleter default_delete p);
        EvFree (N.succ (brk s))]).
Proof.
  intros Hreach Hx. destruct (reachable_inv s Hreach) as [HI _].
  set (c := N.succ (brk s)).
  assert (cbs s !! c = None) as Hc.
  { apply (unborn_not_live s c HI). unfold born, c. lia. }
  assert (c ≠ nullptr) as Hnz by (unfold nullptr, c; lia).
  assert ((cb_inplace_get c =? nullptr) = false) as Hget.
  { apply N.eqb_neq. unfold cb_inplace_get, nullptr, c. lia. }
  split.
  - unfold make_shared, bind, new_cb, inc_shared, bind, load_cb,
      store_cb, shared_ptr_raw, init_sp. simpl. fold c.
    rewrite lookup_insert_eq. simpl. rewrite Hx.
    eexists _, _. split; [done|].
    unfold operator_bool, shared_ptr_get, use_count, get_shared_cnt, bind,
      load_sp, load_cb, ret. simpl. rewrite !lookup_insert_eq. simpl.
    rewrite decide_False by done. simpl. rewrite !lookup_insert_eq. simpl.
    rewrite Hget. do 3 (split; [done|]).
    unfold shared_ptr_dtor, bind, load_sp. simpl.
    rewrite lookup_insert_eq. simpl. rewrite decide_False by done.
    unfold store_sp, release_shared, get_shared_cnt, get_weak_cnt,
      delete_object, delete_cb, end_sp, get_shared_cnt, bind, load_cb,
      store_cb, assert, emit, ret. simpl.
    repeat (rewrite lookup_insert_eq; simpl).
    split; [reflexivity|]. simpl.
    rewrite !insert_insert_eq, !delete_insert_eq, !delete_id by done.
    do 3 (split; [done|]).
    by rewrite cb_inplace_ctor_named, <-!app_assoc.
  - unfold shared_ptr_adopt_default, shared_ptr_adopt, try_catch, bind,
      new_cb, init_sp, inc_shared, bind, load_cb, store_cb. simpl. fold c.
    rewrite Hx. simpl. rewrite lookup_insert_eq. simpl.
    eexists _, _. split; [done|].
    unfold shared_ptr_get, use_count, get_shared_cnt, bind,
      load_sp, load_cb, ret. simpl. rewrite !lookup_insert_eq. simpl.
    rewrite decide_False by done. simpl. rewrite !lookup_insert_eq. simpl.
    do 2 (split; [done|]).
    unfold shared_ptr_dtor, bind, load_sp. simpl.
    rewrite lookup_insert_eq. simpl. rewrite decide_False by done.
    unfold store_sp, release_shared, get_shared_cnt, get_weak_cnt,
      delete_object, delete_cb, end_sp, get_shared_cnt, bind, load_cb,
      store_cb, assert, emit, ret. simpl.
    repeat (rewrite lookup_insert_eq; simpl).
    split; [reflexivity|]. simpl.
    rewrite !insert_insert_eq, !delete_insert_eq, !delete_id by done.
    do 3 (split; [done|]). by rewrite <-!app_assoc.
Qed.

(** X13. [swap] of two live observers exchanges their values, changes no
    control block and no owning pointer and emits nothing; swapping twice
    restores the state. *)
Theorem weak_swap_exchanges_and_is_involutive x y a b s :
  wps s !! x = Some a → wps s !! y = Some b →
  (∃ s1, weak_ptr_swap x y s = Ret () s1 ∧
         wps s1 !! x = Some b ∧ wps s1 !! y = Some a ∧
         (∀ z, z ≠ x → z ≠ y → wps s1 !! z = wps s !! z) ∧
         cbs s1 = cbs s ∧ sps s1 = sps s ∧ trace s1 = trace s) ∧
  (weak_ptr_swap x y ;; weak_ptr_swap x y) s = Ret () s.
Proof.
  intros Hx Hy.
  assert (is_Some (<[x:=b]> (wps s) !! y)) as [? Hy'].
  { destruct (decide (x = y)) as [->|?].
    - rewrite lookup_insert_eq. by eexists.
    - rewrite lookup_insert_ne by done. by eexists. }
  assert (is_Some (<[x:=a]> (<[y:=a]> (<[x:=b]> (wps s))) !! y)) as [? Hy''].
  { destruct (decide (x = y)) as [->|?].
    - rewrite lookup_insert_eq. by eexists.
    - rewrite lookup_insert_ne, lookup_insert_eq by done. by eexists. }
  split.
  - unfold weak_ptr_swap, bind, load_wp, store_wp. rewrite Hx, Hy. simpl.
    rewrite Hx. simpl. rewrite Hy'. eexists. split; [done|]. simpl.
    split; [|split; [by rewrite lookup_insert_eq|split; [|done]]].
    + destruct (decide (x = y)) as [->|?].
      * rewrite lookup_insert_eq. congruence.
      * by rewrite lookup_insert_ne, lookup_insert_eq.
    + intros z ? ?. by rewrite !lookup_insert_ne.
  - unfold weak_ptr_swap, bind, load_wp, store_wp. rewrite Hx, Hy. simpl.
    rewrite Hx. simpl. rewrite Hy'. simpl.
    assert (<[y:=a]> (<[x:=b]> (wps s)) !! x = Some b) as Hx1.
    { destruct (decide (x = y)) as [->|?].
      - rewrite lookup_insert_eq. congruence.
      - by rewrite lookup_insert_ne, lookup_insert_eq. }
    rewrite Hx1. simpl. rewrite lookup_insert_eq. simpl. rewrite Hx1. simpl.
    rewrite Hy''. simpl.
    assert (<[y:=b]> (<[x:=a]> (<[y:=a]> (<[x:=b]> (wps s)))) = wps s) as ->.
    { apply map_eq. intros z.
      destruct (decide (z = y)) as [->|?]; [by rewrite lookup_insert_eq|].
      rewrite lookup_insert_ne by done.
      destruct (decide (z = x)) as [->|?]; [by rewrite lookup_insert_eq|].
      by rewrite !lookup_insert_ne. }
    by rewrite state_eta.
Qed.

(** X14. Assignment to a live observer [w] returns and rebinds it: from
    another observer it takes that observer's value, by move it also
    leaves the source without control block, from an owning pointer it
    takes the raw pointer and the control block of the owner, and
    [reset()] leaves it without control block.  No owning pointer changes.
    Self-assignment does nothing. *)
Theorem weak_assignments_rebind w v x pw pv q s :
  reachable s → w ≠ v →
  wps s !! w = Some pw → wps s !! v = Some pv → sps s !! x = Some q →
  (∃ s', weak_ptr_assign w v s = Ret () s' ∧
         wps s' = <[w := pv]> (wps s) ∧ sps s' = sps s) ∧
  (∃ s', weak_ptr_move_assign w v s = Ret () s' ∧
         wps s' = <[w := pv]> (<[v := null_wp]> (wps s)) ∧ sps s' = sps s) ∧
  (∃ s', weak_ptr_assign_shared w x s = Ret () s' ∧
         wps s' = <[w := {| wp_ptr := sp_ptr q; wp_cb := sp_cb q |}]> (wps s) ∧
         sps s' = sps s) ∧
  (∃ s', weak_ptr_reset w s = Ret () s' ∧
         wps s' = <[w := null_wp]> (wps s) ∧ sps s' = sps s) ∧
  weak_ptr_assign w w s = Ret () s ∧ weak_ptr_move_assign w w s = Ret () s.
Proof.
  intros Hreach Hne Hw Hv Hx. destruct (reachable_inv s Hreach) as [HI Hroom].
  split; [|split; [|split; [|split; [|split]]]].
  - pose proof (with_temp_wp_spec w (λ tmp, weak_ptr_copy tmp v) s _ _ _ _
      HI Hroom (λ tmp _ Hfresh, temp_copy_wp w v tmp s HI Hroom Hfresh)) as H.
    unfold weak_ptr_assign. rewrite decide_False by done.
    unfold spec, wp_at in H. rewrite Hv in H. simpl in H.
    destruct (with_temp_wp _ _ _ s) as [[] s'| | |]; try done.
    2:{ exfalso. apply H. split; by eexists. }
    destruct H as (_ & _ & _ & [_ Hsp' Hwp' _ _]). by exists s'.
  - pose proof (with_temp_wp_spec w (λ tmp, weak_ptr_move tmp v) s _ _ _ _
      HI Hroom (λ tmp _ Hfresh, temp_move_wp w v tmp s HI Hfresh Hne)) as H.
    unfold weak_ptr_move_assign. rewrite decide_False by done.
    unfold spec, wp_at in H. rewrite Hv in H. simpl in H.
    destruct (with_temp_wp _ _ _ s) as [[] s'| | |]; try done.
    2:{ exfalso. apply H. split; by eexists. }
    destruct H as (_ & _ & _ & [_ Hsp' Hwp' _ _]). by exists s'.
  - pose proof (with_temp_wp_spec w (λ tmp, weak_ptr_from_shared tmp x) s
      _ _ _ _ HI Hroom
      (λ tmp _ Hfresh, temp_from_shared_wp w x tmp s HI Hroom Hfresh)) as H.
    unfold weak_ptr_assign_shared.
    unfold spec, sp_at in H. rewrite Hx in H. simpl in H.
    destruct (with_temp_wp _ _ _ s) as [[] s'| | |]; try done.
    2:{ exfalso. apply H. split; by eexists. }
    destruct H as (_ & _ & _ & [_ Hsp' Hwp' _ _]). by exists s'.
  - pose proof (with_temp_wp_spec w weak_ptr_default s True _ _ _
      HI Hroom (λ tmp _ Hfresh, temp_default_wp w tmp s HI Hfresh)) as H.
    unfold weak_ptr_reset. unfold spec in H.
    destruct (with_temp_wp _ _ _ s) as [[] s'| | |]; try done.
    2:{ exfalso. apply H. split; [done|by eexists]. }
    destruct H as (_ & _ & _ & [_ Hsp' Hwp' _ _]). by exists s'.
  - unfold weak_ptr_assign. by rewrite decide_True.
  - unfold weak_ptr_move_assign. by rewrite decide_True.
Qed.

(** *** Outcomes of operations *)

Lemma reset_del_throws x p d s :
  shared_ptr_reset_del x p d new_throws s
  = Throw {| cbs := cbs s; sps := sps s; wps := wps s; brk := brk s;
             trace := trace s ++ [EvCleanup d p] |}.
Proof. reflexivity. Qed.

Lemma spec_reset_del_throws x p d s (pre : Prop) post (exn : state → Prop) :
  exn {| cbs := cbs s; sps := sps s; wps := wps s; brk := brk s;
         trace := trace s ++ [EvCleanup d p] |} →
  spec (shared_ptr_reset_del x p d new_throws) s pre post exn.
Proof. intros H. unfold spec. by rewrite reset_del_throws. Qed.

Ltac open_post :=
  cbv beta in *;
  repeat match goal with
         | H : ∃ _, _ |- _ => destruct H
         | H : _ ∧ _ |- _ => destruct H
         end;
  match goal with
  | H : step_post _ _ _ _ _ |- _ => destruct H as [? ? ? _ _]
  end;
  subst.

Ltac close_post :=
  split; [done|]; split; [done|split; [done|]];
  first [by intros [=] | by intros _].

Lemma exec_outcome o s :
  Inv s → room 1 s →
  spec (exec o) s (wf o s)
    (λ _ s', allocation_fails o = false ∧ Inv s' ∧
             (observer_op o = true → sps s' = sps s))
    (λ s', allocation_fails o = true ∧
           cbs s' = cbs s ∧ sps s' = sps s ∧ wps s' = wps s).
Proof.
  intros HI Hroom. assert (room 0 s) as Hroom0 by (unfold room in *; lia).
  destruct o; simpl.
  - (* SpDefault *)
    eapply spec_mono; [by apply shared_ptr_default_spec|done| |done].
    intros [] s' Hpre Hpost. open_post. close_post.
  - (* SpAdopt *)
    eapply spec_mono; [by apply shared_ptr_adopt_spec|done| |].
    + intros [] s' Hpre Hpost. open_post. close_post.
    + intros s' Hexn. open_post. done.
  - (* SpAdoptDefault *)
    eapply spec_mono; [by apply shared_ptr_adopt_spec|done| |].
    + intros [] s' Hpre Hpost. open_post. close_post.
    + intros s' Hexn. open_post. done.
  - (* SpMake *)
    eapply spec_mono; [by apply make_shared_spec|done| |].
    + intros [] s' Hpre Hpost. open_post. close_post.
    + by intros s' [-> ->].
  - (* SpAlias *)
    eapply spec_mono; [by apply shared_ptr_alias_spec|done| |done].
    intros [] s' Hpre Hpost. open_post. close_post.
  - (* SpCopy *)
    eapply spec_mono; [by apply shared_ptr_copy_spec|done| |done].
    intros [] s' Hpre Hpost. open_post. close_post.
  - (* SpMove *)
    eapply spec_mono; [by apply shared_ptr_move_spec|done| |done].
    intros [] s' Hpre Hpost. open_post. close_post.
  - (* SpDtor *)
    eapply spec_mono; [by apply shared_ptr_dtor_spec|done| |done].
    intros [] s' Hpre Hpost. open_post. close_post.
  - (* SpAssign *)
    unfold shared_ptr_assign. destruct (decide (x = y)) as [->|Hne].
    { unfold spec, ret. split; [by left|]. by split. }
    eapply spec_mono.
    + eapply with_temp_sp_spec; [done..|].
      intros tmp _ Hfresh. by apply temp_copy_sp.
    + by intros [?|?].
    + intros [] s' [Hy Hx] Hpost. split; [by right|]. open_post.
      by split.
    + done.
  - (* SpMoveAssign *)
    unfold shared_ptr_move_assign. destruct (decide (x = y)) as [->|Hne].
    { unfold spec, ret. split; [by left|]. by split. }
    eapply spec_mono.
    + eapply with_temp_sp_spec; [done..|].
      intros tmp _ Hfresh. by apply temp_move_sp.
    + by intros [?|?].
    + intros [] s' [Hy Hx] Hpost. split; [by right|]. open_post.
      by split.
    + done.
  - (* SpReset *)
    unfold shared_ptr_reset. eapply spec_mono.
    + eapply with_temp_sp_spec; [done..|].
      intros tmp _ Hfresh. by apply temp_default_sp.
    + by intros ?.
    + intros [] s' [_ Hx] Hpost. split; [done|]. open_post. by split.
    + done.
  - (* SpResetPtr *)
    destruct r.
    + eapply spec_mono.
      * eapply with_temp_sp_spec; [done..|].
        intros tmp _ Hfresh.
        by apply (temp_adopt_sp x ptr default_delete new_ok).
      * by intros ?.
      * intros [] s' [_ Hx] Hpost. split; [done|]. open_post. by split.
      * by intros s' ([=] & _).
    + by apply (spec_reset_del_throws x ptr default_delete s).
  - (* SpResetDel *)
    destruct r.
    + eapply spec_mono.
      * eapply with_temp_sp_spec; [done..|].
        intros tmp _ Hfresh. by apply (temp_adopt_sp x ptr d new_ok).
      * by intros ?.
      * intros [] s' [_ Hx] Hpost. split; [done|]. open_post. by split.
      * by intros s' ([=] & _).
    + by apply (spec_reset_del_throws x ptr d s).
  - (* SpSwap *)
    eapply spec_mono; [by apply shared_ptr_swap_spec|done| |done].
    intros [] s' Hpre Hpost. open_post. close_post.
  - (* WpDefault *)
    eapply spec_mono; [by apply weak_ptr_default_spec|done| |done].
    intros [] s' Hpre Hpost. open_post. close_post.
  - (* WpCopy *)
    eapply spec_mono; [by apply weak_ptr_copy_spec|done| |done].
    intros [] s' Hpre Hpost. open_post. close_post.
  - (* WpFromShared *)
    eapply spec_mono; [by apply weak_ptr_from_shared_spec|done| |done].
    intros [] s' Hpre Hpost. open_post. close_post.
  - (* WpMove *)
    eapply spec_mono; [by apply weak_ptr_move_spec|done| |done].
    intros [] s' Hpre Hpost. open_post. close_post.
  - (* WpDtor *)
    eapply spec_mono; [by apply weak_ptr_dtor_spec|done| |done].
    intros [] s' Hpre Hpost. open_post. close_post.
  - (* WpAssign *)
    unfold weak_ptr_assign. destruct (decide (w = v)) as [->|Hne].
    { unfold spec, ret. split; [by left|]. by split. }
    eapply spec_mono.
    + eapply with_temp_wp_spec; [done..|].
      intros tmp _ Hfresh. by apply temp_copy_wp.
    + by intros [?|?].
    + intros _ s' [Hy Hx] (_ & _ & [? ? ? _ _]). split; [by right|].
      by split.
    + done.
  - (* WpAssignShared *)
    unfold weak_ptr_assign_shared. eapply spec_mono.
    + eapply with_temp_wp_spec; [done..|].
      intros tmp _ Hfresh. by apply temp_from_shared_wp.
    + done.
    + intros [] s' Hp (_ & _ & [? ? ? _ _]). split; [done|]. by split.
    + done.
  - (* WpMoveAssign *)
    unfold weak_ptr_move_assign. destruct (decide (w = v)) as [->|Hne].
    { unfold spec, ret. split; [by left|]. by split. }
    eapply spec_mono.
    + eapply with_temp_wp_spec; [done..|].
      intros tmp _ Hfresh. by apply temp_move_wp.
    + by intros [?|?].
    + intros _ s' [Hy Hx] (_ & _ & [? ? ? _ _]). split; [by right|].
      by split.
    + done.
  - (* WpReset *)
    unfold weak_ptr_reset. eapply spec_mono.
    + eapply with_temp_wp_spec; [done..|].
      intros tmp _ Hfresh. by apply temp_default_wp.
    + by intros ?.
    + intros _ s' [_ Hx] (_ & _ & [? ? ? _ _]). split; [done|]. by split.
    + done.
  - (* WpSwap *)
    eapply spec_mono; [by apply weak_ptr_swap_spec|done| |done].
    intros [] s' Hpre Hpost. open_post. close_post.
  - (* WpLock *)
    eapply spec_mono; [by apply lock_spec|done| |done].
    intros [] s' Hpre Hpost. open_post. close_post.
Qed.

(** X15. When the deleters and destructors of the managed objects
    perform no operation on owning pointers and observers: in every state
    a program reaches, no operation fails an assert, and an operation
    whose arguments are alive returns, unless its new-expression throws;
    then the exception leaves it with every control block, every owning
    pointer and every observer as before the call. *)
Theorem operations_return_or_fail_cleanly user o s :
  inert user → reachable_running user s →
  exec_running user o s ≠ Abort ∧
  (wf o s →
   ∃ s', exec_running user o s
         = (if allocation_fails o then Throw s' else Ret () s') ∧
         (allocation_fails o = true →
          cbs s' = cbs s ∧ sps s' = sps s ∧ wps s' = wps s)).
Proof.
  intros Hi Hreach. apply (reachable_inert user Hi) in Hreach.
  rewrite (exec_inert user Hi).
  destruct (reachable_inv s Hreach) as [HI Hroom].
  pose proof (exec_outcome o s HI Hroom) as H. unfold spec in H.
  destruct (exec o s) as [[] s'|s'| |]; try done.
  - split; [done|]. intros _. destruct H as (_ & -> & _). by exists s'.
  - split; [done|]. intros _. destruct H as (-> & H). by exists s'.
Qed.

(** X16. Observers do not own: in every state a program reaches, an
    operation of [weak_ptr] other than [lock] changes no owning pointer
    and no shared count, so every owning pointer reports the [use_count]
    it reported before. *)
Theorem observers_never_own o s s' :
  reachable s → observer_op o = true → step o s = Some s' →
  sps s' = sps s ∧ (∀ c, shared_of s' c = shared_of s c) ∧
  ∀ x n, use_count x s = Ret n s → use_count x s' = Ret n s'.
Proof.
  intros Hreach Hobs Hstep. destruct (reachable_inv s Hreach) as [HI Hroom].
  pose proof (exec_outcome o s HI Hroom) as H. unfold step, spec in *.
  destruct (exec o s) as [[] s1|s1| |]; try done.
  2:{ destruct H as [H _]. by destruct o. }
  injection Hstep as ->. destruct H as (_ & _ & HI' & Hsp).
  specialize (Hsp Hobs).
  assert (∀ c, shared_of s' c = shared_of s c) as Hsh.
  { intros c. destruct (decide (c = nullptr)) as [->|Hc].
    - by rewrite !shared_of_null.
    - by rewrite !Inv_shared_of, Hsp. }
  do 2 (split; [done|]). intros x n.
  unfold use_count at 1. unfold bind, load_sp.
  destruct (sps s !! x) as [p|] eqn:Hx; [|done].
  intros Hn. rewrite (use_count_shared_of s' x p HI') by by rewrite Hsp.
  fold (load_sp x s) in Hn.
  pose proof (use_count_shared_of s x p HI Hx) as Hn'.
  unfold use_count, bind, load_sp in Hn'. rewrite Hx in Hn'.
  rewrite Hn' in Hn. injection Hn as <-. by rewrite Hsh.
Qed.

Lemma bind_cong {A B} (m m' : M A) (k : A → M B) s :
  m s = m' s → bind m k s = bind m' k s.
Proof. unfold bind. by intros ->. Qed.

(** X17. An aliasing pointer keeps the block of its source alive: when [x]
    is built from a source [y] that has a control block and [y] is then
    destroyed, nothing is emitted, no control block changes, and [x] is
    left holding the given raw pointer and the block of [y].  Copying and
    then destroying the source leaves the same state as moving and then
    destroying the source. *)
Theorem alias_outlives_source x y p q s :
  reachable s → sps s !! y = Some q → sp_cb q ≠ nullptr → sps s !! x = None →
  (shared_ptr_alias x y p ;; shared_ptr_dtor y) s
  = Ret () {| cbs := cbs s;
              sps := <[x := {| sp_ptr := p; sp_cb := sp_cb q |}]>
                       (delete y (sps s));
              wps := wps s; brk := brk s; trace := trace s |} ∧
  (shared_ptr_copy x y ;; shared_ptr_dtor y) s
  = (shared_ptr_move x y ;; shared_ptr_dtor y) s.
Proof.
  intros Hreach Hy Hq Hx. destruct (reachable_inv s Hreach) as [HI Hroom].
  destruct (Inv_owner_live s y q HI Hy Hq) as (b & Hb & Hpos & _).
  pose proof (shared_of_bound s (sp_cb q) HI Hroom) as Hbound.
  unfold shared_of in Hbound. rewrite Hb in Hbound.
  assert (x ≠ y) as Hne by congruence.
  assert (∀ p', (shared_ptr_alias x y p' ;; shared_ptr_dtor y) s
    = Ret () {| cbs := cbs s;
                sps := <[x := {| sp_ptr := p'; sp_cb := sp_cb q |}]>
                         (delete y (sps s));
                wps := wps s; brk := brk s; trace := trace s |}) as Halias.
  { intros p'.
    unfold shared_ptr_alias, shared_ptr_dtor, bind, load_sp, init_sp.
    rewrite Hy, Hx. rewrite decide_False by done.
    unfold inc_shared, bind, load_cb, store_cb. simpl. rewrite Hb. simpl.
    rewrite lookup_insert_ne, Hy by done. rewrite decide_False by done.
    unfold store_sp, release_shared, bind, load_cb, store_cb, assert. simpl.
    rewrite lookup_insert_ne, Hy by done. simpl.
    rewrite lookup_insert_eq. simpl.
    rewrite size_incr_small by done.
    destruct (0 <? shared_cnt b + 1) eqn:E; [|apply N.ltb_ge in E; lia].
    simpl. rewrite <-(size_incr_small (shared_cnt b)) by done.
    rewrite size_decr_incr by done.
    unfold get_shared_cnt, bind, load_cb, ret. simpl.
    rewrite !lookup_insert_eq. simpl.
    destruct (shared_cnt b =? 0) eqn:E'; [apply N.eqb_eq in E'; done|].
    simpl. rewrite !lookup_insert_eq. simpl. rewrite E'.
    unfold end_sp. simpl. rewrite lookup_insert_eq. f_equal.
    rewrite insert_insert_eq, insert_id by (by destruct b).
    by rewrite delete_insert_eq, delete_insert_ne. }
  split; [apply Halias|].
  assert (shared_ptr_copy x y s = shared_ptr_alias x y (sp_ptr q) s) as Hcopy.
  { unfold shared_ptr_copy, bind, load_sp. by rewrite Hy. }
  rewrite (bind_cong _ _ _ s Hcopy), Halias.
  unfold shared_ptr_move, shared_ptr_dtor, bind, load_sp, init_sp, store_sp.
  rewrite Hy, Hx. simpl. rewrite lookup_insert_ne, Hy by done. simpl.
  rewrite lookup_insert_eq. simpl. rewrite lookup_insert_eq. simpl.
  unfold end_sp. simpl. rewrite lookup_insert_eq. f_equal.
  assert ({| sp_ptr := sp_ptr q; sp_cb := sp_cb q |} = q) as ->
    by by destruct q.
  by rewrite !insert_insert_eq, delete_insert_eq, delete_insert_ne.
Qed.

(** X18. An observer whose object is gone: in every state a program
    reaches, when an observer is linked to a block that no owning pointer
    is linked to, the block is still allocated, [delete_object] has run on
    it once, the block has not been deleted, and [lock] returns an empty
    owning pointer and changes no control block. *)
Theorem expired_observer_locks_empty w z p s :
  reachable s → wps s !! w = Some p → wp_cb p ≠ nullptr →
  owners (sps s) (wp_cb p) = 0%nat → sps s !! z = None →
  is_Some (cbs s !! wp_cb p) ∧
  hooks (wp_cb p) (trace s) = 1%nat ∧ frees (wp_cb p) (trace s) = 0%nat ∧
  lock z w s
  = Ret () {| cbs := cbs s; sps := <[z := null_sp]> (sps s); wps := wps s;
              brk := brk s; trace := trace s |}.
Proof.
  intros Hreach Hw Hp Hown Hz. destruct (reachable_inv s Hreach) as [HI _].
  destruct (Inv_observer_live s w p HI Hw Hp) as (b & Hb & _ & Hle).
  assert (shared_of s (wp_cb p) = 0) as Hsh.
  { rewrite Inv_shared_of by done. lia. }
  split; [by eexists|]. split; [|split].
  - rewrite (Inv_hooks s _ HI). rewrite decide_True; [done|].
    split; [|done]. unfold born, nullptr in *. lia.
  - rewrite (Inv_frees s _ HI). rewrite decide_False; [done|].
    intros [_ ?]. congruence.
  - unfold shared_of in Hsh. rewrite Hb in Hsh.
    unfold lock, bind, load_wp. rewrite Hw. rewrite decide_False by done.
    unfold get_shared_cnt, bind, load_cb, ret. rewrite Hb. simpl.
    rewrite Hsh. simpl. unfold shared_ptr_default, init_sp. by rewrite Hz.
Qed.

(** X19. When the deleters and destructors of the managed objects perform
    no operation on owning pointers and observers, then for every program
    and every control block [c]: [c] has been deleted once if it was
    created and is no longer allocated, and not at all otherwise; an
    operation deletes [c] exactly when [c] is allocated before it and not
    after it; an allocated block has the number of owning pointers linked
    to it as its shared count and the number of observers as its weak
    count, not both zero; a created block no pointer links to is
    deallocated; and every deletion of [c] comes after the one run of
    [delete_object] on [c]. *)
Theorem block_deleted_once_when_hooks_inert user s o s' c :
  inert user → reachable_running user s → step_running user o s = Some s' →
  frees c (trace s')
    = (if decide (born s' c ∧ cbs s' !! c = None) then 1%nat else 0%nat) ∧
  frees c (trace s')
    = (frees c (trace s) +
       if decide (is_Some (cbs s !! c) ∧ cbs s' !! c = None)
       then 1 else 0)%nat ∧
  (∀ b, cbs s' !! c = Some b →
        shared_cnt b = N.of_nat (owners (sps s') c) ∧
        weak_cnt b = N.of_nat (observers (wps s') c) ∧
        ¬ (shared_cnt b = 0 ∧ weak_cnt b = 0)) ∧
  (born s' c → owners (sps s') c = 0%nat → observers (wps s') c = 0%nat →
   cbs s' !! c = None) ∧
  (∀ t1 t2, trace s' = t1 ++ EvFree c :: t2 → hooks c t1 = 1%nat).
Proof.
  intros Hi Hreach Hstep. rewrite (step_inert user Hi) in Hstep.
  apply (block_deleted_once_after_hook s o s' c); [|done].
  by apply (reachable_inert user).
Qed.

End Layout.


(** ** The theorems at concrete programs *)

Lemma demo_state_reachable : reachable 24 demo_state.
Proof. exists demo_ops. split; by vm_compute. Defined.

Lemma demo_released_reachable : reachable 24 demo_released.
Proof. exists (demo_ops ++ [SpDtor 1]). split; by vm_compute. Defined.

Lemma init_reachable : reachable 24 init.
Proof. exists []. split; by vm_compute. Defined.

Lemma hook_exactly_once_witness :
  reachable 24 demo_state ∧
  step 24 (SpDtor 1) demo_state = Some demo_released ∧
  hooks 1 (trace demo_released) = (hooks 1 (trace demo_state) + 1)%nat.
Proof.
  assert (Hs : step 24 (SpDtor 1) demo_state = Some demo_released)
    by by vm_compute.
  split; [apply demo_state_reachable|]. split; [done|].
  destruct (hook_exactly_once_at_last_owner 24 _ _ _ 1
              demo_state_reachable Hs) as (_ & H & _).
  rewrite H. by vm_compute.
Defined.

Lemma no_user_inert : inert no_user.
Proof. by intros h s. Defined.

Lemma demo_state_running : reachable_running 24 no_user demo_state.
Proof. exists demo_ops. split; by vm_compute. Defined.

Lemma demo_released_running : reachable_running 24 no_user demo_released.
Proof. exists (demo_ops ++ [SpDtor 1]). split; by vm_compute. Defined.

Lemma node_state_reachable : reachable 24 node_state.
Proof. exists node_ops. split; by vm_compute. Defined.

(** In [node_state] the owning pointer 1 is the only owner and the member
    observer 1 the only observer of block 1. *)
Lemma block_freed_inside_hook_witness :
  reachable 24 node_state ∧
  sps node_state !! 1 = Some {| sp_ptr := 100; sp_cb := 1 |} ∧
  wps node_state !! 1 = Some {| wp_ptr := 100; wp_cb := 1 |} ∧
  cbs node_state !! 1
  = Some {| shared_cnt := 1; weak_cnt := 1;
            variant := cb_separate 100 default_delete |} ∧
  (∃ s1,
     (store_sp 1 {| sp_ptr := nullptr; sp_cb := 1 |} ;;
      release_shared 1 ;;
      delete_object_running 24 node_dtor 1) node_state = Ret () s1 ∧
     cbs s1 !! 1 = None ∧
     trace s1 = trace node_state ++
                [EvHook 1 (run_deleter default_delete 100); EvFree 1]) ∧
  shared_ptr_dtor_running 24 node_dtor 1 node_state = Undefined.
Proof.
  assert (Hx : sps node_state !! 1 = Some {| sp_ptr := 100; sp_cb := 1 |})
    by by vm_compute.
  assert (Hp : sp_cb {| sp_ptr := 100; sp_cb := 1 |} ≠ nullptr) by done.
  assert (Hw : wps node_state !! 1 = Some {| wp_ptr := 100; wp_cb := 1 |})
    by by vm_compute.
  assert (Hb : cbs node_state !! 1
               = Some {| shared_cnt := 1; weak_cnt := 1;
                         variant := cb_separate 100 default_delete |})
    by by vm_compute.
  split; [apply node_state_reachable|]. do 3 (split; [done|]).
  destruct (block_freed_inside_hook 24 node_dtor 1 1 _ _ _ node_state
              Hx Hp Hw eq_refl Hb eq_refl eq_refl eq_refl)
    as [(s1 & H1 & H2 & _ & H3 & _) H4].
  split; [|done]. by exists s1.
Defined.

Lemma lock_witness :
  reachable 24 demo_state ∧
  wps demo_state !! 1 = Some {| wp_ptr := 100; wp_cb := 1 |} ∧
  sps demo_state !! 2 = None ∧
  ∃ s', lock 2 1 demo_state = Ret () s' ∧
        sps s' !! 2 = Some {| sp_ptr := 100; sp_cb := 1 |} ∧
        shared_of s' 1 = shared_of demo_state 1 + 1.
Proof.
  assert (Hw : wps demo_state !! 1 = Some {| wp_ptr := 100; wp_cb := 1 |})
    by by vm_compute.
  assert (Hd : sps demo_state !! 2 = None) by by vm_compute.
  split; [apply demo_state_reachable|]. split; [done|]. split; [done|].
  destruct (lock_empty_or_one_more 24 2 1 _ _ demo_state_reachable Hw Hd)
    as (s' & Hlock & _ & _ & H).
  exists s'. split; [done|].
  rewrite decide_False in H by (by vm_compute; intros [?|?]).
  destruct H as (-> & ? & _). split; [|done]. by rewrite lookup_insert_eq.
Defined.

(** C6, counterexample: after the adoption of a null pointer
    with a deleter, [use_count] is 1, not 0. *)
Lemma null_adopt_use_count_not_zero :
  ∃ s1, shared_ptr_adopt 1 nullptr demo_deleter new_ok init = Ret () s1 ∧
        use_count 1 s1 = Ret 1 s1 ∧ use_count 1 s1 ≠ Ret 0 s1.
Proof.
  eexists. split; [by vm_compute|]. split; [by vm_compute|].
  by vm_compute.
Qed.

Lemma null_adopt_witness :
  sps init !! 1 = None ∧
  ∃ s1, shared_ptr_adopt 1 nullptr demo_deleter new_ok init = Ret () s1 ∧
        use_count 1 s1 = Ret 1 s1.
Proof.
  assert (Hx : sps init !! 1 = None) by by vm_compute.
  split; [done|].
  destruct (null_adopt_owns_a_block 24 1 demo_deleter init Hx)
    as [(s1 & s2 & H1 & _ & _ & _ & _ & H2 & _) _].
  by exists s1.
Defined.

(** C7, counterexample: the aliasing constructor applied to an
    empty source and a non-null pointer yields a non-null raw pointer with
    a null control-block link, and the adoption of a null pointer yields a
    null raw pointer with a non-null control-block link. *)
Lemma alias_and_null_adopt_break_pairing :
  (∃ s, run 24 [SpDefault 1; SpAlias 2 1 5] init = Some s ∧
        sps s !! 2 = Some {| sp_ptr := 5; sp_cb := nullptr |} ∧
        ¬ coupled_sp {| sp_ptr := 5; sp_cb := nullptr |}) ∧
  (∃ s, run 24 [SpAdopt 1 nullptr demo_deleter new_ok] init = Some s ∧
        sps s !! 1 = Some {| sp_ptr := nullptr; sp_cb := 1 |} ∧
        ¬ coupled_sp {| sp_ptr := nullptr; sp_cb := 1 |}).
Proof.
  split; eexists; (split; [by vm_compute|]); (split; [by vm_compute|]).
  - intros [H _]. by apply H.
  - intros [_ H]. by apply H.
Qed.

Lemma pairing_witness :
  reachable 24 init ∧ paired init ∧
  keeps_pairing (SpAdopt 1 100 demo_deleter new_ok) init ∧
  step 24 (SpAdopt 1 100 demo_deleter new_ok) init = Some demo_adopted ∧
  paired demo_adopted.
Proof.
  assert (Hk : keeps_pairing (SpAdopt 1 100 demo_deleter new_ok) init)
    by by vm_compute.
  assert (Hs : step 24 (SpAdopt 1 100 demo_deleter new_ok) init
               = Some demo_adopted) by by vm_compute.
  split; [apply init_reachable|]. split; [apply paired_init|].
  split; [done|]. split; [done|].
  destruct (pairing_preserved 24 _ _ _ init_reachable Hs) as [H _].
  exact (H paired_init Hk).
Defined.

Lemma use_count_witness :
  run 24 [] init = Some init ∧
  N.of_nat (length (@nil op)) + N.of_nat (length [2; 3]) + 2 ≤ SIZE_MAX ∧
  sps init !! 1 = None ∧ NoDup [1; 2; 3] ∧
  ∃ s1 s2,
    step 24 (SpAdopt 1 100 demo_deleter new_ok) init = Some s1 ∧
    use_count 1 s1 = Ret 1 s1 ∧
    run 24 [SpCopy 2 1; SpCopy 3 1] s1 = Some s2 ∧
    use_count 3 s2 = Ret 3 s2.
Proof.
  assert (Hr : run 24 [] init = Some init) by done.
  assert (Hb : N.of_nat (length (@nil op)) + N.of_nat (length [2; 3]) + 2
               ≤ SIZE_MAX) by by vm_compute.
  assert (Hx : sps init !! 1 = None) by by vm_compute.
  assert (Hnd : NoDup [1; 2; 3]).
  { apply (bool_decide_unpack (NoDup [1; 2; 3])). by vm_compute. }
  assert (Hf : ∀ y, y ∈ [2; 3] → sps init !! y = None)
    by (intros y _; apply lookup_empty).
  do 4 (split; [done|]).
  destruct (use_count_counts_owners 24 [] init 1 100 demo_deleter [2; 3]
              Hr Hb Hx Hnd Hf) as (_ & (s1 & s2 & H1 & H2 & H3 & H4) & _).
  exists s1, s2. do 3 (split; [done|]).
  apply (H4 3). by do 2 right; left.
Defined.


Lemma alias_of_empty_witness :
  sps demo_empty !! 1 = Some {| sp_ptr := nullptr; sp_cb := nullptr |} ∧
  sps demo_empty !! 2 = None ∧
  ∃ s1, shared_ptr_alias 2 1 5 demo_empty = Ret () s1 ∧
        use_count 2 s1 = Ret 0 s1 ∧ operator_bool 2 s1 = Ret true s1.
Proof.
  assert (Hy : sps demo_empty !! 1
               = Some {| sp_ptr := nullptr; sp_cb := nullptr |})
    by by vm_compute.
  assert (Hx : sps demo_empty !! 2 = None) by by vm_compute.
  do 2 (split; [done|]).
  destruct (alias_of_empty_source 24 2 1 5 _ demo_empty Hy eq_refl Hx)
    as (s1 & s2 & H1 & _ & _ & _ & H2 & _ & H3 & _).
  exists s1. do 2 (split; [done|]). by apply H3.
Defined.

(** ** Further properties at concrete programs *)

Lemma demo_two_reachable : reachable 24 demo_two.
Proof. exists demo_two_ops. split; by vm_compute. Defined.

Lemma demo_freed_reachable : reachable 24 demo_freed.
Proof. exists demo_end_ops. split; by vm_compute. Defined.

Lemma move_transfers_witness :
  sps demo_state !! 1 = Some {| sp_ptr := 100; sp_cb := 1 |} ∧
  sps demo_state !! 2 = None ∧
  ∃ s', shared_ptr_move 2 1 demo_state = Ret () s' ∧
        use_count 2 s' = Ret 1 s' ∧ use_count 1 s' = Ret 0 s'.
Proof.
  assert (Hy : sps demo_state !! 1 = Some {| sp_ptr := 100; sp_cb := 1 |})
    by by vm_compute.
  assert (Hx : sps demo_state !! 2 = None) by by vm_compute.
  do 2 (split; [done|]).
  destruct (move_transfers_ownership 2 1 _ demo_state Hy Hx)
    as (s' & Hm & _ & _ & _ & _ & _ & Hu & Hz & _).
  exists s'. split; [done|]. split; [|done]. apply Hu. by vm_compute.
Defined.



Lemma swap_witness :
  sps demo_two !! 1 = Some {| sp_ptr := 100; sp_cb := 1 |} ∧
  sps demo_two !! 2 = Some {| sp_ptr := 200; sp_cb := 2 |} ∧
  (shared_ptr_swap 1 2 ;; shared_ptr_swap 1 2) demo_two = Ret () demo_two.
Proof.
  assert (Hx : sps demo_two !! 1 = Some {| sp_ptr := 100; sp_cb := 1 |})
    by by vm_compute.
  assert (Hy : sps demo_two !! 2 = Some {| sp_ptr := 200; sp_cb := 2 |})
    by by vm_compute.
  do 2 (split; [done|]).
  exact (proj2 (swap_exchanges_and_is_involutive 1 2 _ _ demo_two Hx Hy)).
Defined.

Lemma comparison_witness :
  reachable 24 demo_state ∧
  sps demo_state !! 1 = Some {| sp_ptr := 100; sp_cb := 1 |} ∧
  sp_cb {| sp_ptr := 100; sp_cb := 1 |} ≠ nullptr ∧
  sps demo_state !! 2 = None ∧
  ∃ s', shared_ptr_alias 2 1 5 demo_state = Ret () s' ∧
        operator_eq 2 1 s' = Ret false s'.
Proof.
  assert (Hy : sps demo_state !! 1 = Some {| sp_ptr := 100; sp_cb := 1 |})
    by by vm_compute.
  assert (Hq : sp_cb {| sp_ptr := 100; sp_cb := 1 |} ≠ nullptr) by done.
  assert (Hx : sps demo_state !! 2 = None) by by vm_compute.
  split; [apply demo_state_reachable|]. do 3 (split; [done|]).
  destruct (comparison_ignores_ownership 24 2 1 5 _ demo_state
              demo_state_reachable Hy Hq Hx)
    as (s' & n & Ha & _ & _ & _ & He & _).
  by exists s'.
Defined.

Lemma downgrade_then_lock_witness :
  reachable 24 demo_state ∧
  sps demo_state !! 1 = Some {| sp_ptr := 100; sp_cb := 1 |} ∧
  sp_cb {| sp_ptr := 100; sp_cb := 1 |} ≠ nullptr ∧
  wps demo_state !! 2 = None ∧ sps demo_state !! 2 = None ∧
  ∃ s1 s2, weak_ptr_from_shared 2 1 demo_state = Ret () s1 ∧
           lock 2 2 s1 = Ret () s2 ∧
           sps s2 !! 2 = Some {| sp_ptr := 100; sp_cb := 1 |} ∧
           use_count 2 s2 = Ret 2 s2.
Proof.
  assert (Hx : sps demo_state !! 1 = Some {| sp_ptr := 100; sp_cb := 1 |})
    by by vm_compute.
  assert (Hq : sp_cb {| sp_ptr := 100; sp_cb := 1 |} ≠ nullptr) by done.
  assert (Hw : wps demo_state !! 2 = None) by by vm_compute.
  assert (Hz : sps demo_state !! 2 = None) by by vm_compute.
  split; [apply demo_state_reachable|]. do 4 (split; [done|]).
  destruct (downgrade_then_lock_recovers 24 1 2 2 _ demo_state
              demo_state_reachable Hx Hq Hw Hz)
    as (s1 & s2 & H1 & H2 & Hsp & _ & _ & _ & Hu & _).
  exists s1, s2. do 2 (split; [done|]). split; [|done].
  by rewrite Hsp, lookup_insert_eq.
Defined.

Lemma observers_never_own_witness :
  reachable 24 demo_state ∧ observer_op (WpDtor 1) = true ∧
  ∃ s', step 24 (WpDtor 1) demo_state = Some s' ∧
        sps s' = sps demo_state ∧ shared_of s' 1 = shared_of demo_state 1.
Proof.
  assert (Ho : observer_op (WpDtor 1) = true) by done.
  assert (Hs : step 24 (WpDtor 1) demo_state
               = Some (default init (step 24 (WpDtor 1) demo_state)))
    by by vm_compute.
  split; [apply demo_state_reachable|]. split; [done|].
  destruct (observers_never_own 24 _ _ _ demo_state_reachable Ho Hs)
    as (Hsp & Hsh & _).
  eexists. split; [exact Hs|]. split; [done|]. apply Hsh.
Defined.

Lemma operations_outcome_witness :
  inert no_user ∧ reachable_running 24 no_user demo_state ∧
  wf (SpResetDel 1 200 demo_deleter new_throws) demo_state ∧
  ∃ s', exec_running 24 no_user (SpResetDel 1 200 demo_deleter new_throws)
          demo_state = Throw s' ∧ sps s' = sps demo_state.
Proof.
  assert (Hwf : wf (SpResetDel 1 200 demo_deleter new_throws) demo_state)
    by (by eexists).
  split; [apply no_user_inert|]. split; [apply demo_state_running|].
  split; [done|].
  destruct (operations_return_or_fail_cleanly 24 no_user
              (SpResetDel 1 200 demo_deleter new_throws) demo_state
              no_user_inert demo_state_running) as [_ H].
  destruct (H Hwf) as (s' & He & Hs). exists s'. split; [done|].
  by destruct (Hs eq_refl) as (_ & ? & _).
Defined.

Lemma demo_freed_running : reachable_running 24 no_user demo_freed.
Proof. exists demo_end_ops. split; by vm_compute. Defined.

Lemma no_leak_witness :
  inert no_user ∧ reachable_running 24 no_user demo_freed ∧
  sps demo_freed = ∅ ∧ wps demo_freed = ∅ ∧
  cbs demo_freed = ∅ ∧ hooks 1 (trace demo_freed) = 1%nat ∧
  frees 1 (trace demo_freed) = 1%nat.
Proof.
  assert (Hsp : sps demo_freed = ∅) by by vm_compute.
  assert (Hwp : wps demo_freed = ∅) by by vm_compute.
  split; [apply no_user_inert|]. split; [apply demo_freed_running|].
  do 2 (split; [done|]).
  destruct (no_leak_when_all_destroyed 24 no_user demo_freed no_user_inert
              demo_freed_running Hsp Hwp) as [Hcb H].
  split; [done|]. apply H. by vm_compute.
Defined.

Lemma counters_witness :
  cbs demo_state !! 1
  = Some {| shared_cnt := 1; weak_cnt := 1;
            variant := cb_separate 100 demo_deleter |} ∧
  (inc_shared 1 ;; release_shared 1) demo_state = Ret () demo_state.
Proof.
  assert (Hb : cbs demo_state !! 1
               = Some {| shared_cnt := 1; weak_cnt := 1;
                         variant := cb_separate 100 demo_deleter |})
    by by vm_compute.
  split; [done|].
  destruct (counters_round_trip_and_bounds 1 _ demo_state Hb) as [H _].
  apply H. by vm_compute.
Defined.


Lemma weak_move_witness :
  wps demo_state !! 1 = Some {| wp_ptr := 100; wp_cb := 1 |} ∧
  wps demo_state !! 2 = None ∧
  ∃ s', weak_ptr_move 2 1 demo_state = Ret () s' ∧
        wps s' !! 1 = Some null_wp ∧ cbs s' = cbs demo_state.
Proof.
  assert (Hy : wps demo_state !! 1 = Some {| wp_ptr := 100; wp_cb := 1 |})
    by by vm_compute.
  assert (Hx : wps demo_state !! 2 = None) by by vm_compute.
  do 2 (split; [done|]).
  destruct (weak_move_transfers 2 1 _ demo_state Hy Hx)
    as (s' & Hm & Hwp & Hcb & _).
  exists s'. split; [done|]. split; [|done].
  by rewrite Hwp, lookup_insert_eq.
Defined.

Lemma no_dangling_witness :
  inert no_user ∧ reachable_running 24 no_user demo_state ∧
  sps demo_state !! 1 = Some {| sp_ptr := 100; sp_cb := 1 |} ∧
  ∃ b, cbs demo_state !! 1 = Some b ∧ 1 ≤ shared_cnt b.
Proof.
  assert (Hx : sps demo_state !! 1 = Some {| sp_ptr := 100; sp_cb := 1 |})
    by by vm_compute.
  split; [apply no_user_inert|]. split; [apply demo_state_running|].
  split; [done|].
  destruct (no_dangling_control_block 24 no_user demo_state no_user_inert
              demo_state_running) as [H _].
  apply (H 1 _ Hx). done.
Defined.

Lemma sole_owner_witness :
  reachable 24 init ∧ sps init !! 1 = None ∧
  ∃ s1 s2, make_shared 24 1 [(7, lvalue)] new_ok init = Ret () s1 ∧
           shared_ptr_get 1 s1 = Ret 25 s1 ∧
           shared_ptr_dtor 24 1 s1 = Ret () s2 ∧
           trace s2 = [EvNew 1 (cb_inplace [(7, lvalue)]);
                       EvHook 1 (run_dtor 25); EvFree 1].
Proof.
  assert (Hx : sps init !! 1 = None) by by vm_compute.
  split; [apply init_reachable|]. split; [done|].
  destruct (sole_owner_round_trip 24 1 [(7, lvalue)] 100 init
              init_reachable Hx)
    as [(s1 & s2 & H1 & H2 & _ & _ & H3 & _ & _ & _ & H4) _].
  by exists s1, s2.
Defined.

Lemma weak_assignments_witness :
  reachable 24 demo_two ∧ 1 ≠ 2 ∧
  wps demo_two !! 1 = Some {| wp_ptr := 100; wp_cb := 1 |} ∧
  wps demo_two !! 2 = Some {| wp_ptr := 200; wp_cb := 2 |} ∧
  sps demo_two !! 2 = Some {| sp_ptr := 200; sp_cb := 2 |} ∧
  ∃ s', weak_ptr_assign_shared 1 2 demo_two = Ret () s' ∧
        wps s' !! 1 = Some {| wp_ptr := 200; wp_cb := 2 |}.
Proof.
  assert (Hne : (1 : N) ≠ 2) by done.
  assert (Hw : wps demo_two !! 1 = Some {| wp_ptr := 100; wp_cb := 1 |})
    by by vm_compute.
  assert (Hv : wps demo_two !! 2 = Some {| wp_ptr := 200; wp_cb := 2 |})
    by by vm_compute.
  assert (Hx : sps demo_two !! 2 = Some {| sp_ptr := 200; sp_cb := 2 |})
    by by vm_compute.
  split; [apply demo_two_reachable|]. do 4 (split; [done|]).
  destruct (weak_assignments_rebind 24 1 2 2 _ _ _ demo_two
              demo_two_reachable Hne Hw Hv Hx)
    as (_ & _ & (s' & Ha & Hwp & _) & _).
  exists s'. split; [done|]. by rewrite Hwp, lookup_insert_eq.
Defined.

Lemma weak_swap_witness :
  wps demo_two !! 1 = Some {| wp_ptr := 100; wp_cb := 1 |} ∧
  wps demo_two !! 2 = Some {| wp_ptr := 200; wp_cb := 2 |} ∧
  (weak_ptr_swap 1 2 ;; weak_ptr_swap 1 2) demo_two = Ret () demo_two.
Proof.
  assert (Hx : wps demo_two !! 1 = Some {| wp_ptr := 100; wp_cb := 1 |})
    by by vm_compute.
  assert (Hy : wps demo_two !! 2 = Some {| wp_ptr := 200; wp_cb := 2 |})
    by by vm_compute.
  do 2 (split; [done|]).
  exact (proj2 (weak_swap_exchanges_and_is_involutive 1 2 _ _ demo_two Hx Hy)).
Defined.

Lemma alias_outlives_witness :
  reachable 24 demo_state ∧
  sps demo_state !! 1 = Some {| sp_ptr := 100; sp_cb := 1 |} ∧
  sp_cb {| sp_ptr := 100; sp_cb := 1 |} ≠ nullptr ∧
  sps demo_state !! 2 = None ∧
  ∃ s', (shared_ptr_alias 2 1 5 ;; shared_ptr_dtor 24 1) demo_state
        = Ret () s' ∧
        trace s' = trace demo_state ∧ cbs s' = cbs demo_state.
Proof.
  assert (Hy : sps demo_state !! 1 = Some {| sp_ptr := 100; sp_cb := 1 |})
    by by vm_compute.
  assert (Hq : sp_cb {| sp_ptr := 100; sp_cb := 1 |} ≠ nullptr) by done.
  assert (Hx : sps demo_state !! 2 = None) by by vm_compute.
  split; [apply demo_state_reachable|]. do 3 (split; [done|]).
  destruct (alias_outlives_source 24 2 1 5 _ demo_state
              demo_state_reachable Hy Hq Hx) as [H _].
  eexists. split; [exact H|]. by split.
Defined.

Lemma expired_observer_witness :
  reachable 24 demo_released ∧
  wps demo_released !! 1 = Some {| wp_ptr := 100; wp_cb := 1 |} ∧
  wp_cb {| wp_ptr := 100; wp_cb := 1 |} ≠ nullptr ∧
  owners (sps demo_released) 1 = 0%nat ∧ sps demo_released !! 2 = None ∧
  hooks 1 (trace demo_released) = 1%nat ∧
  ∃ s', lock 2 1 demo_released = Ret () s' ∧ sps s' !! 2 = Some null_sp.
Proof.
  assert (Hw : wps demo_released !! 1 = Some {| wp_ptr := 100; wp_cb := 1 |})
    by by vm_compute.
  assert (Hp : wp_cb {| wp_ptr := 100; wp_cb := 1 |} ≠ nullptr) by done.
  assert (Ho : owners (sps demo_released) 1 = 0%nat) by by vm_compute.
  assert (Hz : sps demo_released !! 2 = None) by by vm_compute.
  split; [apply demo_released_reachable|]. do 4 (split; [done|]).
  destruct (expired_observer_locks_empty 24 1 2 _ demo_released
              demo_released_reachable Hw Hp Ho Hz) as (_ & Hh & _ & Hl).
  split; [done|]. eexists. split; [exact Hl|]. by vm_compute.
Defined.

Lemma block_deleted_once_witness :
  inert no_user ∧ reachable_running 24 no_user demo_released ∧
  step_running 24 no_user (WpDtor 1) demo_released = Some demo_freed ∧
  frees 1 (trace demo_freed) = 1%nat.
Proof.
  assert (Hs : step_running 24 no_user (WpDtor 1) demo_released
               = Some demo_freed) by by vm_compute.
  split; [apply no_user_inert|]. split; [apply demo_released_running|].
  split; [done|].
  destruct (block_deleted_once_when_hooks_inert 24 no_user _ _ _ 1
              no_user_inert demo_released_running Hs) as (H & _).
  rewrite H. by vm_compute.
Defined.
